(** * Run manager of the Codimension IDE: a shallow embedding

    This development models [src/utils/runmanager.py]: the wrapper around
    one remote (child) process, [RemoteProcessWrapper], and the registry
    that supervises all of them, [RunManager].

    The Python objects are mutable and shared (a wrapper is reachable
    from its registry entry, from the slots of its socket and from its
    own running method), so the model keeps them in a store, [World],
    and every method is a state transformer that may raise, [M].
    Signals are Qt direct connections: [emit] runs the connected slot
    before it returns. *)

From Stdlib Require Import ZArith QArith String.
From stdpp Require Import base option list strings numbers pretty.

Open Scope Z_scope.
Open Scope string_scope.
Open Scope list_scope.

(** ** Python values and exceptions *)

(** The exceptions that the modelled code raises or catches.
    [UnicodeDecodeError] is a subclass of [ValueError]; [KeyError] and
    [IndexError] are subclasses of [LookupError]. [Stuck] is not a Python
    exception: it marks an access to an object the store does not hold. *)
Inductive exn :=
  | TypeError | ValueError | UnicodeDecodeError
  | KeyError | IndexError | AttributeError | OSError
  | Stuck.

(** [except (TypeError, ValueError)] *)
Definition isTypeOrValueError (e : exn) : bool :=
  match e with
  | TypeError | ValueError | UnicodeDecodeError => true
  | _ => false
  end.

(** [except Exception] and the bare [except:] *)
Definition isException (e : exn) : bool := true.

(** What a decoded JSON document can be. [POther] stands for the values
    that are neither subscriptable by a string nor accepted where a
    signal wants [str] or [int] (floats). *)
#[warnings="-register-all"]
Inductive pyval :=
  | PNone
  | PBool (b : bool)
  | PInt (z : Z)
  | PStr (s : string)
  | PList (l : list pyval)
  | PDict (d : list (string * pyval))
  | POther.

Inductive res (A : Type) :=
  | Ret (a : A)
  | Raise (e : exn).
Arguments Ret {A} a.
Arguments Raise {A} e.

Fixpoint dictGet (d : list (string * pyval)) (key : string) : option pyval :=
  match d with
  | [] => None
  | (k, v) :: d' => if bool_decide (k = key) then Some v else dictGet d' key
  end.

(** [params[key]] for a string [key]: only a dict can be subscripted by
    a string, and a missing key is a [KeyError]. *)
Definition subscript (params : pyval) (key : string) : res pyval :=
  match params with
  | PDict d => match dictGet d key with
               | Some v => Ret v
               | None => Raise KeyError
               end
  | _ => Raise TypeError
  end.

(** [method == METHOD_...]: a decoded value equals a string constant
    only when it is that string. *)
Definition pyEqStr (v : pyval) (s : string) : bool :=
  match v with
  | PStr s' => bool_decide (s' = s)
  | _ => false
  end.

(** ** Constants *)

Definition KILLED : Z := -1000000.
Definition DISCONNECTED : Z := -2000000.
Definition HANDSHAKE_TIMEOUT : Q := 15 # 1.
Definition STATE_PROLOGUE : Z := 0.
Definition STATE_RUNNING : Z := 1.

(** Modelled from the spec: the method names of
    [debugger.client.protocol_cdm_dbg], a module that is imported by the
    run manager and is not among the sources at hand. The spec lists the
    methods of the protocol by these names. *)
Definition METHOD_PROC_ID_INFO : string := "proc-id-info".
Definition METHOD_PROLOGUE_CONTINUE : string := "prologue-continue".
Definition METHOD_EPILOGUE_EXIT_CODE : string := "epilogue-exit-code".
Definition METHOD_EPILOGUE_EXIT : string := "epilogue-exit".
Definition METHOD_STDOUT : string := "stdout".
Definition METHOD_STDERR : string := "stderr".
Definition METHOD_STDIN : string := "stdin".

(** [RUN], [PROFILE], [DEBUG] of [runparams] and the console reuse modes
    of [settings]. *)
Inductive Kind := RUN | PROFILE | DEBUG.
Inductive ReuseMode := NO_REUSE | REUSE | CLEAR_AND_REUSE.

Global Instance Kind_eq_dec : EqDecision Kind.
Proof. solve_decision. Defined.
Global Instance ReuseMode_eq_dec : EqDecision ReuseMode.
Proof. solve_decision. Defined.

(** ** The objects of the store *)

(** A line waiting in a socket, given by what the receiver makes of it:
    [bytes(qs).decode()] fails on [Undecodable]; on the others it yields
    a text that [parseJSONMessage] (of [debugger.client.cdm_dbg_utils],
    not among the sources at hand) either rejects with an exception or
    turns into the triple [(method, procuuid, params)]. *)
Inductive Line :=
  | Undecodable
  | Unparsable (e : exn)
  | Parsed (method procuuid params : pyval).

(** A command written by [sendJSONCommand]. *)
Record Command := mkCommand {
  cmd_method : string;
  cmd_procuuid : string;
  cmd_params : pyval }.

(** A [QTcpSocket]: the lines it holds, what was written to it, and the
    wrappers (store addresses) whose slots are connected to its
    [readyRead] and [disconnected] signals. *)
Record Socket := mkSocket {
  s_open : bool;
  s_inbox : list Line;
  s_outbox : list Command;
  s_readyRead : list nat;
  s_disconnected : list nat }.

(** A [subprocess.Popen] handle. A broken handle raises on every call. *)
Record Popen := mkPopen {
  p_running : bool;
  p_returncode : Z;
  p_broken : bool }.

(** An entry of [/proc]: its pid, its command line when it can be read,
    and whether [killProcess] manages to kill it. *)
Record OsProc := mkOsProc {
  os_pid : nat;
  os_cmdline : option string;
  os_killable : bool }.

Inductive ConsoleItem :=
  | IDEMessage (text : string)
  | StdoutMessage (text : string)
  | StderrMessage (text : string)
  | InputRequest (prompt : string) (echo : Z).

(** An [IOConsoleWidget]: the id and kind given to its constructor, the
    content shown and whether [scriptFinished] was called on it. *)
Record Console := mkConsole {
  c_procuuid : string;
  c_kind : Kind;
  c_content : list ConsoleItem;
  c_finished : bool }.

(** A [RemoteProcessWrapper]. The last three fields are the slots
    connected to its signals: whether [sigFinished] reaches the run
    manager, and the consoles behind the stdio signals. *)
Record Wrapper := mkWrapper {
  procuuid : string;
  path : string;
  redirected : bool;
  state : option Z;
  serverPort : option Z;
  clientSocket : option nat;
  proc : option Popen;
  finishedSlot : bool;
  stdioSlots : list nat }.

(** A [RemoteProcess]: the registry entry of one launch. *)
Record RemoteProcess := mkRemoteProcess {
  procWrapper : nat;
  widget : option nat;
  kind : option Kind }.

(** What an observer sees: the signals of the wrappers and what the run
    manager reports to the log, the status bar and the main window. *)
Inductive Event :=
  | SigFinished (uuid : string) (code : Z)
  | SigClientStdout (uuid : string) (text : string)
  | SigClientStderr (uuid : string) (text : string)
  | SigClientInput (uuid : string) (prompt : string) (echo : Z)
  | LogError (msg : string)
  | StatusBarMessage (msg : string)
  | ConsoleTooltip (uuid : string) (tooltip : string)
  | ConsoleFinished (console : nat)
  | ConsoleReused (console : nat).

(** The store: the objects, addressed by their position, and the fields
    of the one [RunManager]. Nothing is ever freed: a wrapper stays in
    the store, and can be called by a socket that is still connected to
    it, after its entry has left the registry. *)
Record World := mkWorld {
  wrappers : list Wrapper;
  sockets : list Socket;
  ostable : list OsProc;
  consoles : list Console;
  ioconsolereuse : ReuseMode;
  processes : list RemoteProcess;
  prologueProcesses : list (string * Q);
  waitTimer : bool;
  prologueTimer : bool;
  trace : list Event }.

(** ** Field updates *)

Definition setWrappers (x : list Wrapper) (w : World) : World :=
  mkWorld x (sockets w) (ostable w) (consoles w) (ioconsolereuse w)
    (processes w) (prologueProcesses w) (waitTimer w) (prologueTimer w)
    (trace w).
Definition setSockets (x : list Socket) (w : World) : World :=
  mkWorld (wrappers w) x (ostable w) (consoles w) (ioconsolereuse w)
    (processes w) (prologueProcesses w) (waitTimer w) (prologueTimer w)
    (trace w).
Definition setOstable (x : list OsProc) (w : World) : World :=
  mkWorld (wrappers w) (sockets w) x (consoles w) (ioconsolereuse w)
    (processes w) (prologueProcesses w) (waitTimer w) (prologueTimer w)
    (trace w).
Definition setConsoles (x : list Console) (w : World) : World :=
  mkWorld (wrappers w) (sockets w) (ostable w) x (ioconsolereuse w)
    (processes w) (prologueProcesses w) (waitTimer w) (prologueTimer w)
    (trace w).
Definition setProcesses (x : list RemoteProcess) (w : World) : World :=
  mkWorld (wrappers w) (sockets w) (ostable w) (consoles w)
    (ioconsolereuse w) x (prologueProcesses w) (waitTimer w)
    (prologueTimer w) (trace w).
Definition setPrologueProcesses (x : list (string * Q)) (w : World) : World :=
  mkWorld (wrappers w) (sockets w) (ostable w) (consoles w)
    (ioconsolereuse w) (processes w) x (waitTimer w) (prologueTimer w)
    (trace w).
Definition setWaitTimer (x : bool) (w : World) : World :=
  mkWorld (wrappers w) (sockets w) (ostable w) (consoles w)
    (ioconsolereuse w) (processes w) (prologueProcesses w) x
    (prologueTimer w) (trace w).
Definition setPrologueTimer (x : bool) (w : World) : World :=
  mkWorld (wrappers w) (sockets w) (ostable w) (consoles w)
    (ioconsolereuse w) (processes w) (prologueProcesses w) (waitTimer w)
    x (trace w).
Definition setTrace (x : list Event) (w : World) : World :=
  mkWorld (wrappers w) (sockets w) (ostable w) (consoles w)
    (ioconsolereuse w) (processes w) (prologueProcesses w) (waitTimer w)
    (prologueTimer w) x.

Definition withState (x : option Z) (wr : Wrapper) : Wrapper :=
  mkWrapper (procuuid wr) (path wr) (redirected wr) x (serverPort wr)
    (clientSocket wr) (proc wr) (finishedSlot wr) (stdioSlots wr).
Definition withClientSocket (x : option nat) (wr : Wrapper) : Wrapper :=
  mkWrapper (procuuid wr) (path wr) (redirected wr) (state wr)
    (serverPort wr) x (proc wr) (finishedSlot wr) (stdioSlots wr).
Definition withProc (x : option Popen) (wr : Wrapper) : Wrapper :=
  mkWrapper (procuuid wr) (path wr) (redirected wr) (state wr)
    (serverPort wr) (clientSocket wr) x (finishedSlot wr) (stdioSlots wr).
Definition withFinishedSlot (x : bool) (wr : Wrapper) : Wrapper :=
  mkWrapper (procuuid wr) (path wr) (redirected wr) (state wr)
    (serverPort wr) (clientSocket wr) (proc wr) x (stdioSlots wr).
Definition withStdioSlots (x : list nat) (wr : Wrapper) : Wrapper :=
  mkWrapper (procuuid wr) (path wr) (redirected wr) (state wr)
    (serverPort wr) (clientSocket wr) (proc wr) (finishedSlot wr) x.

Definition withOpen (x : bool) (sk : Socket) : Socket :=
  mkSocket x (s_inbox sk) (s_outbox sk) (s_readyRead sk) (s_disconnected sk).
Definition withInbox (x : list Line) (sk : Socket) : Socket :=
  mkSocket (s_open sk) x (s_outbox sk) (s_readyRead sk) (s_disconnected sk).
Definition withOutbox (x : list Command) (sk : Socket) : Socket :=
  mkSocket (s_open sk) (s_inbox sk) x (s_readyRead sk) (s_disconnected sk).
Definition withReadyRead (x : list nat) (sk : Socket) : Socket :=
  mkSocket (s_open sk) (s_inbox sk) (s_outbox sk) x (s_disconnected sk).
Definition withDisconnected (x : list nat) (sk : Socket) : Socket :=
  mkSocket (s_open sk) (s_inbox sk) (s_outbox sk) (s_readyRead sk) x.

Definition withContent (x : list ConsoleItem) (c : Console) : Console :=
  mkConsole (c_procuuid c) (c_kind c) x (c_finished c).
Definition withFinished (x : bool) (c : Console) : Console :=
  mkConsole (c_procuuid c) (c_kind c) (c_content c) x.

(** ** Methods as state transformers that may raise *)

Definition M (A : Type) : Type := World -> res A * World.

Definition ret {A} (a : A) : M A := fun w => (Ret a, w).
Definition raise {A} (e : exn) : M A := fun w => (Raise e, w).
Definition bind {A B} (m : M A) (k : A -> M B) : M B :=
  fun w => match m w with
           | (Ret a, w') => k a w'
           | (Raise e, w') => (Raise e, w')
           end.

(** [try: m except <catches>: h] *)
Definition tryExcept {A} (m : M A) (catches : exn -> bool) (h : exn -> M A) : M A :=
  fun w => match m w with
           | (Raise e, w') => if catches e then h e w' else (Raise e, w')
           | r => r
           end.

Definition modify (f : World -> World) : M unit := fun w => (Ret tt, f w).
Definition liftRes {A} (r : res A) : M A := fun w => (r, w).

Notation "x <- m ;; k" := (bind m (fun x => k))
  (at level 100, m at next level, right associativity).
Notation "m ;; k" := (bind m (fun _ => k))
  (at level 100, right associativity).

Definition getWrapper (a : nat) : M Wrapper :=
  fun w => match wrappers w !! a with
           | Some wr => (Ret wr, w)
           | None => (Raise Stuck, w)
           end.
Definition getSocket (s : nat) : M Socket :=
  fun w => match sockets w !! s with
           | Some sk => (Ret sk, w)
           | None => (Raise Stuck, w)
           end.
Definition putWrapper (a : nat) (wr : Wrapper) : M unit :=
  modify (fun w => setWrappers (<[a := wr]> (wrappers w)) w).
Definition putSocket (s : nat) (sk : Socket) : M unit :=
  modify (fun w => setSockets (<[s := sk]> (sockets w)) w).
Definition record (e : Event) : M unit :=
  modify (fun w => setTrace (trace w ++ [e]) w).

(** The methods of a console widget that the run manager calls. A widget
    reference that the store does not hold is [Stuck]. *)
Definition onConsole (c : nat) (f : Console -> Console) : M unit :=
  fun w => match consoles w !! c with
           | Some cs => (Ret tt, setConsoles (<[c := f cs]> (consoles w)) w)
           | None => (Raise Stuck, w)
           end.
Definition appendItem (c : nat) (item : ConsoleItem) : M unit :=
  onConsole c (fun cs => withContent (c_content cs ++ [item]) cs).
Definition appendIDEMessage (c : nat) (text : string) : M unit :=
  appendItem c (IDEMessage text).
Definition scriptFinished (c : nat) : M unit := onConsole c (withFinished true).
Definition clear (c : nat) : M unit := onConsole c (withContent []).

(** [QApplication.processEvents()]. The events of the sockets, of the
    timers and of the listener are the operations of this model and are
    delivered one after the other, so that no event is pending while a
    method runs. *)
Definition processEvents : M unit := ret tt.

(** ** RemoteProcessWrapper *)

Module Proc.
(** [Popen.poll()]: [None] while the child runs, its return code after. *)
Definition poll (p : Popen) : res (option Z) :=
  if p_broken p then Raise OSError
  else if p_running p then Ret None
  else Ret (Some (p_returncode p)).

(** [Popen.wait()]: returns once the child has exited. *)
Definition wait (p : Popen) : res Popen :=
  if p_broken p then Raise OSError
  else Ret (mkPopen false (p_returncode p) false).

(** [Popen.kill()]: SIGKILL, without effect on a child that has exited. *)
Definition kill (p : Popen) : res Popen :=
  if p_broken p then Raise OSError
  else if p_running p then Ret (mkPopen false (-9) false)
  else Ret p.
End Proc.

(** Modelled from the spec: [sendJSONCommand] of
    [debugger.client.cdm_dbg_utils], which is not among the sources at
    hand: it encodes the message and writes the line to the socket. With
    no socket object there is nothing to call [write] on; a closed socket
    takes the call and sends nothing. *)
Definition sendJSONCommand (sock : option nat) (method uuid : string)
    (params : pyval) : M unit :=
  match sock with
  | None => raise AttributeError
  | Some s =>
      sk <- getSocket s ;;
      if s_open sk
      then putSocket s (withOutbox (s_outbox sk ++ [mkCommand method uuid params]) sk)
      else ret tt
  end.

(** [QTcpSocket.close()]. The wrapper closes its socket after it has
    disconnected its slots ([stop], [__sendExit]) or after the peer has
    ended the connection ([__disconnected]), so that the close runs no
    slot. *)
Definition socketClose (s : nat) : M unit :=
  sk <- getSocket s ;;
  putSocket s (withInbox [] (withOpen false sk)).

(** [signal.disconnect(slot)] raises when the slot is not connected. *)
Definition disconnectSlot (a : nat) (slots : list nat) : res (list nat) :=
  if bool_decide (a ∈ slots)
  then Ret (filter (fun b => b ≠ a) slots)
  else Raise TypeError.

Definition connectSocket (a : nat) : M unit :=
  wr <- getWrapper a ;;
  match clientSocket wr with
  | Some s =>
      sk <- getSocket s ;;
      putSocket s (withDisconnected (s_disconnected sk ++ [a])
                     (withReadyRead (s_readyRead sk ++ [a]) sk))
  | None => ret tt
  end.

Definition disconnectSocket (a : nat) : M unit :=
  wr <- getWrapper a ;;
  match clientSocket wr with
  | Some s =>
      tryExcept
        (sk <- getSocket s ;;
         rr <- liftRes (disconnectSlot a (s_readyRead sk)) ;;
         putSocket s (withReadyRead rr sk) ;;
         sk <- getSocket s ;;
         dd <- liftRes (disconnectSlot a (s_disconnected sk)) ;;
         putSocket s (withDisconnected dd sk))
        isException (fun _ => ret tt)
  | None => ret tt
  end.

Definition closeSocket (a : nat) : M unit :=
  wr <- getWrapper a ;;
  match clientSocket wr with
  | Some s =>
      tryExcept (socketClose s) isException (fun _ => ret tt) ;;
      putWrapper a (withClientSocket None wr)
  | None => ret tt
  end.

Definition wait (a : nat) : M unit :=
  wr <- getWrapper a ;;
  match proc wr with
  | Some p =>
      tryExcept
        (p' <- liftRes (Proc.wait p) ;; putWrapper a (withProc (Some p') wr))
        isException (fun _ => ret tt)
  | None => ret tt
  end ;;
  closeSocket a.

Definition waitDetached (a : nat) : M bool :=
  tryExcept
    (wr <- getWrapper a ;;
     match proc wr with
     | None => raise AttributeError
     | Some p =>
         polled <- liftRes (Proc.poll p) ;;
         match polled with
         | Some _ =>
             p' <- liftRes (Proc.wait p) ;;
             putWrapper a (withProc (Some p') wr) ;;
             ret true
         | None => ret false
         end
     end)
    isException (fun _ => ret true).

(** [sub in content] *)
Definition contains (sub content : string) : bool :=
  match String.index 0 sub content with
  | Some _ => true
  | None => false
  end.

(** The test of [__getChildPID] on the command line of one process. *)
Definition isChildCmdline (port : Z) (uuid content : string) : bool :=
  contains "client/client_cdm_run.py" content
  && (contains "--port" content && contains (pretty port) content)
  && (contains "--procuuid" content && contains uuid content).

Fixpoint scanProc (port : Z) (uuid : string) (table : list OsProc) : option nat :=
  match table with
  | [] => None
  | item :: rest =>
      match os_cmdline item with
      | Some content =>
          if isChildCmdline port uuid content then Some (os_pid item)
          else scanProc port uuid rest
      | None => scanProc port uuid rest
      end
  end.

Definition getChildPID (a : nat) : M (option nat) :=
  wr <- getWrapper a ;;
  match serverPort wr with
  | None => ret None
  | Some port => fun w => (Ret (scanProc port (procuuid wr) (ostable w)), w)
  end.

(** Modelled from the spec: [killProcess] of [procfeedback], which is
    not among the sources at hand; the call site says that it throws an
    exception if it cannot kill the process. *)
Definition killProcess (pid : nat) : M unit :=
  fun w =>
    if bool_decide (Exists (fun item => os_pid item = pid ∧ os_killable item = true)
                      (ostable w))
    then (Ret tt, setOstable (filter (fun item => os_pid item ≠ pid) (ostable w)) w)
    else (Raise OSError, w).

(** The loop of [__kill] over the child pids. Each round either removes
    a process of the table or finds the same pid again and breaks, so
    that the size of the table bounds the number of rounds. *)
Fixpoint killChildren (rounds : nat) (a : nat) (childPID : nat) : M unit :=
  match rounds with
  | O => ret tt
  | S rounds' =>
      tryExcept (killProcess childPID) isException (fun _ => ret tt) ;;
      nextPID <- getChildPID a ;;
      match nextPID with
      | None => ret tt
      | Some next =>
          if bool_decide (next = childPID) then ret tt
          else killChildren rounds' a next
      end
  end.

Definition __kill (a : nat) : M unit :=
  wr <- getWrapper a ;;
  match proc wr with
  | Some p =>
      tryExcept
        (p' <- liftRes (Proc.kill p) ;; putWrapper a (withProc (Some p') wr))
        isException (fun _ => ret tt)
  | None => ret tt
  end ;;
  childPID <- getChildPID a ;;
  match childPID with
  | Some pid => fun w => killChildren (S (length (ostable w))) a pid w
  | None => ret tt
  end ;;
  wait a ;;
  wr <- getWrapper a ;;
  putWrapper a (withProc None wr).

(** ** The registry lookups and the slot of [sigFinished] *)

(** The [procuuid] of the wrapper behind a registry entry. *)
Definition itemUuid (w : World) (item : RemoteProcess) : option string :=
  procuuid <$> (wrappers w !! procWrapper item).

(** [__getProcessIndex]: the first index whose wrapper has the id. *)
Definition getProcessIndex (w : World) (uuid : string) : option nat :=
  fst <$> list_find (fun item => itemUuid w item = Some uuid) (processes w).

(** The same for an id that comes out of a decoded message: only a
    string can be equal to the id of a wrapper. *)
Definition getProcessIndexPy (w : World) (uuid : pyval) : option nat :=
  match uuid with
  | PStr s => getProcessIndex w s
  | _ => None
  end.

Definition getItem (index : nat) : M RemoteProcess :=
  fun w => match processes w !! index with
           | Some item => (Ret item, w)
           | None => (Raise IndexError, w)
           end.

Definition delItem (index : nat) : M unit :=
  fun w => if bool_decide (index < length (processes w))%nat
           then (Ret tt, setProcesses (delete index (processes w)) w)
           else (Raise IndexError, w).

Definition finishedMessage (retCode : Z) : string * string :=
  if bool_decide (retCode = KILLED) then ("Script killed", "killed")
  else if bool_decide (retCode = DISCONNECTED)
       then ("Connection lost to the script process", "connection lost")
       else ("Script finished with exit code " +:+ pretty retCode,
             "finished, exit code " +:+ pretty retCode).

Definition onProcessFinished (uuid : string) (retCode : Z) : M unit :=
  fun w =>
    match getProcessIndex w uuid with
    | Some index =>
        (item <- getItem index ;;
         wr <- getWrapper (procWrapper item) ;;
         (if redirected wr
          then match widget item with
               | Some c =>
                   scriptFinished c ;;
                   (if bool_decide (retCode = KILLED) then ret tt
                    else if bool_decide (retCode = DISCONNECTED) then ret tt
                         else wait (procWrapper item)) ;;
                   appendIDEMessage c (finishedMessage retCode).1 ;;
                   record (ConsoleTooltip uuid (finishedMessage retCode).2) ;;
                   record (ConsoleFinished c)
               | None => ret tt
               end
          else ret tt) ;;
         delItem index) w
    | None => (Ret tt, w)
    end.

(** [self.sigFinished.emit(self.procuuid, code)] *)
Definition emitFinished (a : nat) (code : Z) : M unit :=
  wr <- getWrapper a ;;
  record (SigFinished (procuuid wr) code) ;;
  if finishedSlot wr then onProcessFinished (procuuid wr) code else ret tt.

(** ** RemoteProcessWrapper, continued *)

Definition start (a : nat) (launch : res Popen) : M unit :=
  p <- liftRes launch ;;
  wr <- getWrapper a ;;
  putWrapper a (withProc (Some p) wr).

Definition stop (a : nat) : M unit :=
  disconnectSocket a ;;
  __kill a ;;
  emitFinished a KILLED.

Definition disconnected (a : nat) : M unit :=
  __kill a ;;
  emitFinished a DISCONNECTED.

Definition sendStart (a : nat) : M unit :=
  wr <- getWrapper a ;;
  sendJSONCommand (clientSocket wr) METHOD_PROLOGUE_CONTINUE (procuuid wr) PNone.

Definition sendExit (a : nat) : M unit :=
  disconnectSocket a ;;
  wr <- getWrapper a ;;
  sendJSONCommand (clientSocket wr) METHOD_EPILOGUE_EXIT (procuuid wr) PNone.

(** What a signal declared with [str] or [int] accepts. *)
Definition asStr (v : pyval) : res string :=
  match v with
  | PStr s => Ret s
  | _ => Raise TypeError
  end.
Definition asInt (v : pyval) : res Z :=
  match v with
  | PInt z => Ret z
  | PBool b => Ret (if b then 1 else 0)
  | _ => Raise TypeError
  end.

Fixpoint forEach {A} (l : list A) (f : A -> M unit) : M unit :=
  match l with
  | [] => ret tt
  | x :: l' => f x ;; forEach l' f
  end.

Definition emitStdio (a : nat) (event : string -> Event) (item : ConsoleItem) : M unit :=
  wr <- getWrapper a ;;
  record (event (procuuid wr)) ;;
  forEach (stdioSlots wr) (fun c => appendItem c item).

(** The body of the [try] of [__parseClientLine]. *)
Definition handleLine (a : nat) (line : Line) : M unit :=
  match line with
  | Undecodable => raise UnicodeDecodeError
  | Unparsable e => raise e
  | Parsed method _ params =>
      if pyEqStr method METHOD_EPILOGUE_EXIT_CODE then
        sendExit a ;;
        v <- liftRes (subscript params "exitCode") ;;
        code <- liftRes (asInt v) ;;
        emitFinished a code ;;
        processEvents
      else if pyEqStr method METHOD_STDOUT then
        v <- liftRes (subscript params "text") ;;
        text <- liftRes (asStr v) ;;
        emitStdio a (fun u => SigClientStdout u text) (StdoutMessage text) ;;
        processEvents
      else if pyEqStr method METHOD_STDERR then
        v <- liftRes (subscript params "text") ;;
        text <- liftRes (asStr v) ;;
        emitStdio a (fun u => SigClientStderr u text) (StderrMessage text) ;;
        processEvents
      else if pyEqStr method METHOD_STDIN then
        vp <- liftRes (subscript params "prompt") ;;
        ve <- liftRes (subscript params "echo") ;;
        prompt <- liftRes (asStr vp) ;;
        echo <- liftRes (asInt ve) ;;
        emitStdio a (fun u => SigClientInput u prompt echo) (InputRequest prompt echo) ;;
        processEvents
      else ret tt
  end.

Definition parseFailure : string := "Failure to parse a client message".

(** The [while] loop of [__parseClientLine]; every round takes one line
    out of the socket, so that the number of lines bounds the rounds. *)
Fixpoint parseLoop (rounds : nat) (a : nat) : M unit :=
  match rounds with
  | O => ret tt
  | S rounds' =>
      wr <- getWrapper a ;;
      match clientSocket wr with
      | None => ret tt
      | Some s =>
          sk <- getSocket s ;;
          match s_inbox sk with
          | [] => ret tt
          | line :: rest =>
              putSocket s (withInbox rest sk) ;;
              match line with
              | Undecodable => raise UnicodeDecodeError
              | _ => tryExcept (handleLine a line) isTypeOrValueError
                       (fun _ => record (LogError parseFailure))
              end ;;
              parseLoop rounds' a
          end
      end
  end.

Definition parseClientLine (a : nat) : M unit :=
  wr <- getWrapper a ;;
  match clientSocket wr with
  | None => ret tt
  | Some s => sk <- getSocket s ;; parseLoop (length (s_inbox sk)) a
  end.

Definition setSocket (a : nat) (sock : nat) : M unit :=
  wr <- getWrapper a ;;
  putWrapper a (withState (Some STATE_RUNNING) (withClientSocket (Some sock) wr)) ;;
  connectSocket a ;;
  parseClientLine a ;;
  sendStart a.

Definition userInput (a : nat) (collectedString : string) : M unit :=
  wr <- getWrapper a ;;
  match clientSocket wr with
  | Some s => sendJSONCommand (Some s) METHOD_STDIN (procuuid wr)
                (PDict [("input", PStr collectedString)])
  | None => ret tt
  end.

(** ** RunManager *)

Definition safeSocketClose (s : nat) : M unit :=
  tryExcept (socketClose s) isException
    (fun _ => record (LogError "Run manager safe socket close")).

Definition onProcessStarted (uuid : pyval) : M unit :=
  fun w =>
    match getProcessIndexPy w uuid with
    | Some index =>
        (item <- getItem index ;;
         match widget item with
         | Some c => appendIDEMessage c "Started"
         | None => ret tt
         end) w
    | None => (Ret tt, w)
    end.

(** What the [try] of [__waitForHandshake] leaves: the function has
    returned [None], or the id and the parameters are known. *)
Inductive Handshake :=
  | Rejected
  | Identified (uuid params : pyval).

Definition unexpectedHandshake : string :=
  "Unexpected message at the handshake stage".
Definition unsolicitedConnection : string :=
  "Unsolicited connection to the RunManager. Ignoring...".

(** [__waitForHandshake]. [waitForReadyRead(1000)] is true when data has
    come within the second, that is when the socket holds a line. *)
Definition waitForHandshake (s : nat) : M (option pyval) :=
  sk <- getSocket s ;;
  match s_inbox sk with
  | [] => ret None
  | line :: rest =>
      putSocket s (withInbox rest sk) ;;
      match line with
      | Undecodable => raise UnicodeDecodeError
      | _ => ret tt
      end ;;
      h <- tryExcept
             (match line with
              | Undecodable => raise UnicodeDecodeError
              | Unparsable e => raise e
              | Parsed method uuid params =>
                  if negb (pyEqStr method METHOD_PROC_ID_INFO)
                  then record (LogError unexpectedHandshake) ;;
                       safeSocketClose s ;;
                       ret Rejected
                  else ret (Identified uuid params)
              end)
             isTypeOrValueError
             (fun _ => record (StatusBarMessage unsolicitedConnection) ;;
                       safeSocketClose s ;;
                       ret Rejected) ;;
      match h with
      | Rejected => ret None
      | Identified uuid params =>
          (fun w =>
             match getProcessIndexPy w uuid with
             | Some procIndex =>
                 (onProcessStarted uuid ;;
                  item <- getItem procIndex ;;
                  setSocket (procWrapper item) s) w
             | None => (Ret tt, w)
             end) ;;
          ret (Some params)
      end
  end.

(** [__newConnection]: the next pending connection, a socket that holds
    the lines that come within the handshake second, goes through
    [__waitForHandshake], whose result is dropped. *)
Definition newConnection (lines : list Line) : M unit :=
  fun w =>
    (waitForHandshake (length (sockets w)) ;; ret tt)
      (setSockets (sockets w ++ [mkSocket true lines [] [] []]) w).

(** [IOConsoleWidget(procuuid, kind)] followed by [addIOConsole]. *)
Definition newConsole (uuid : string) (k : Kind) : M nat :=
  fun w => (Ret (length (consoles w)),
            setConsoles (consoles w ++ [mkConsole uuid k [] false]) w).

(** The console that the loop of [__pickWidget] stops at: the first one
    of the kind whose id is not in the registry. *)
Definition idleConsole (w : World) (k : Kind) : option nat :=
  fst <$> list_find
            (fun c => c_kind c = k ∧ getProcessIndex w (c_procuuid c) = None)
            (consoles w).

(** [__pickWidget]. [onReuseConsole(widget, kind)] belongs to the main
    window; it is given the widget and the kind, and is recorded as an
    event. *)
Definition pickWidget (uuid : string) (k : Kind) : M nat :=
  fun w =>
    if bool_decide (ioconsolereuse w = NO_REUSE) then newConsole uuid k w
    else match idleConsole w k with
         | Some c =>
             (record (ConsoleReused c) ;;
              (if bool_decide (ioconsolereuse w = CLEAR_AND_REUSE)
               then clear c else ret tt) ;;
              ret c) w
         | None => newConsole uuid k w
         end.

(** What [run] takes from outside the run manager: the answer of the run
    dialog, the [redirected] run parameter, the port of the listener, the
    [uuid.uuid1()] of the new wrapper, the reading of [time.time()] and
    what the command builder and [Popen] make of the launch. *)
Record Launch := mkLaunch {
  l_path : string;
  l_needDialog : bool;
  l_accepted : bool;
  l_redirected : bool;
  l_port : Z;
  l_uuid : string;
  l_now : Q;
  l_spawn : res Popen }.

(** [str(exc)] *)
Definition exnText (e : exn) : string :=
  match e with
  | TypeError => "TypeError" | ValueError => "ValueError"
  | UnicodeDecodeError => "UnicodeDecodeError" | KeyError => "KeyError"
  | IndexError => "IndexError" | AttributeError => "AttributeError"
  | OSError => "OSError" | Stuck => "Stuck"
  end.

(** [RemoteProcessWrapper(path, serverPort, redirected)] *)
Definition newWrapper (l : Launch) : M nat :=
  fun w => (Ret (length (wrappers w)),
            setWrappers (wrappers w ++
              [mkWrapper (l_uuid l) (l_path l) (l_redirected l) None
                 (Some (l_port l)) None None false []]) w).

(** [del self.__processes[-1]] *)
Definition delLastItem : M unit :=
  fun w => match processes w with
           | [] => (Raise IndexError, w)
           | _ => delItem (length (processes w) - 1) w
           end.

Definition run (l : Launch) : M unit :=
  if l_needDialog l && negb (l_accepted l) then ret tt
  else
    a <- newWrapper l ;;
    wdg <- (if l_redirected l then
              wr <- getWrapper a ;;
              putWrapper a (withState (Some STATE_PROLOGUE) wr) ;;
              modify (fun w => setPrologueProcesses
                                 (prologueProcesses w ++ [(l_uuid l, l_now l)]) w) ;;
              modify (fun w => if prologueTimer w then w else setPrologueTimer true w) ;;
              c <- pickWidget (l_uuid l) RUN ;;
              appendIDEMessage c ("Starting " +:+ l_path l +:+ "...") ;;
              wr <- getWrapper a ;;
              putWrapper a (withStdioSlots (stdioSlots wr ++ [c]) wr) ;;
              ret (Some c)
            else ret None) ;;
    wr <- getWrapper a ;;
    putWrapper a (withFinishedSlot true wr) ;;
    modify (fun w => setProcesses (processes w ++ [mkRemoteProcess a wdg (Some RUN)]) w) ;;
    tryExcept
      (start a (l_spawn l) ;;
       if negb (l_redirected l)
       then modify (fun w => if waitTimer w then w else setWaitTimer true w)
       else ret tt)
      isException
      (fun exc =>
         (if l_redirected l
          then match wdg with
               | Some c => appendIDEMessage c ("Failed to start: " +:+ exnText exc)
               | None => raise AttributeError
               end
          else record (LogError (exnText exc))) ;;
         delLastItem).

(** The first loop of [killAll], from the last index down to 0;
    [n] is [index + 1]. *)
Fixpoint stopLoop (n : nat) : M unit :=
  match n with
  | O => ret tt
  | S index =>
      item <- getItem index ;;
      wr <- getWrapper (procWrapper item) ;;
      (if redirected wr then stop (procWrapper item) else ret tt) ;;
      stopLoop index
  end.

(** The loop of [__getDetachedCount]: it counts the redirected entries. *)
Fixpoint detachedCountLoop (n : nat) (count : nat) : M nat :=
  match n with
  | O => ret count
  | S index =>
      item <- getItem index ;;
      wr <- getWrapper (procWrapper item) ;;
      detachedCountLoop index (if redirected wr then S count else count)
  end.

Definition getDetachedCount : M nat :=
  fun w => detachedCountLoop (length (processes w)) O w.

(** The second loop of [killAll]. Nothing bounds its rounds, so the model
    counts them: [None] when [rounds] did not suffice. *)
Fixpoint drainLoop (rounds : nat) (w : World) : option (res unit * World) :=
  match getDetachedCount w with
  | (Raise e, w') => Some (Raise e, w')
  | (Ret count, w') =>
      if bool_decide (0 < count)%nat
      then match rounds with
           | O => None
           | S rounds' =>
               match processEvents w' with
               | (Raise e, w'') => Some (Raise e, w'')
               | (Ret _, w'') => drainLoop rounds' w''
               end
           end
      else Some (Ret tt, w')
  end.

Definition killAll (rounds : nat) (w : World) : option (res unit * World) :=
  match stopLoop (length (processes w)) w with
  | (Raise e, w') => Some (Raise e, w')
  | (Ret _, w') => drainLoop rounds w'
  end.

Definition kill (uuid : string) : M unit :=
  fun w =>
    match getProcessIndex w uuid with
    | None => (Ret tt, w)
    | Some index =>
        (item <- getItem index ;;
         wr <- getWrapper (procWrapper item) ;;
         if negb (redirected wr) then ret tt
         else stop (procWrapper item)) w
    end.

Definition onUserInput (uuid : string) (text : string) : M unit :=
  fun w =>
    match getProcessIndex w uuid with
    | None => (Ret tt, w)
    | Some index =>
        (item <- getItem index ;;
         wr <- getWrapper (procWrapper item) ;;
         if redirected wr then userInput (procWrapper item) text
         else ret tt) w
    end.

(** The loop of [__onWaitTimer]; [n] is [index + 1]. *)
Fixpoint waitLoop (n : nat) (needNewTimer : bool) : M bool :=
  match n with
  | O => ret needNewTimer
  | S index =>
      item <- getItem index ;;
      wr <- getWrapper (procWrapper item) ;;
      if negb (redirected wr) then
        gone <- waitDetached (procWrapper item) ;;
        if gone then delItem index ;; waitLoop index needNewTimer
        else waitLoop index true
      else waitLoop index needNewTimer
  end.

Definition onWaitTimer : M unit :=
  fun w =>
    (needNewTimer <- waitLoop (length (processes w)) false ;;
     if needNewTimer then modify (setWaitTimer true) else ret tt) w.

Definition getPrologue (index : nat) : M (string * Q) :=
  fun w => match prologueProcesses w !! index with
           | Some entry => (Ret entry, w)
           | None => (Raise IndexError, w)
           end.

Definition delPrologue (index : nat) : M unit :=
  fun w => if bool_decide (index < length (prologueProcesses w))%nat
           then (Ret tt, setPrologueProcesses (delete index (prologueProcesses w)) w)
           else (Raise IndexError, w).

Definition didNotStart : string :=
  "Timeout: the process did not start; killing the process.".

(** [time.time() - startTime > HANDSHAKE_TIMEOUT] *)
Definition waitedTooLong (now startTime : Q) : bool :=
  negb (Qle_bool (now - startTime) HANDSHAKE_TIMEOUT).

(** The loop of [__onPrologueTimer]; [n] is [index + 1] and [now] the
    reading of [time.time()]. *)
Fixpoint prologueLoop (now : Q) (n : nat) (needNewTimer : bool) : M bool :=
  match n with
  | O => ret needNewTimer
  | S index =>
      entry <- getPrologue index ;;
      fun w =>
        match getProcessIndex w entry.1 with
        | None => (delPrologue index ;; prologueLoop now index needNewTimer) w
        | Some procIndex =>
            (item <- getItem procIndex ;;
             wr <- getWrapper (procWrapper item) ;;
             if negb (bool_decide (state wr = Some STATE_PROLOGUE))
             then delPrologue index ;; prologueLoop now index needNewTimer
             else if waitedTooLong now entry.2
                  then match widget item with
                       | Some c => appendIDEMessage c didNotStart
                       | None => raise AttributeError
                       end ;;
                       stop (procWrapper item) ;;
                       prologueLoop now index needNewTimer
                  else prologueLoop now index true) w
        end
  end.

Definition onPrologueTimer (now : Q) : M unit :=
  fun w =>
    (needNewTimer <- prologueLoop now (length (prologueProcesses w)) false ;;
     if needNewTimer then modify (setPrologueTimer true) else ret tt) w.

(** * The vocabulary of the statements *)

(** ** waitDetached and the detached-poll timer *)

(** The cases in which [waitDetached] answers [True]. *)
Definition gone (wr : Wrapper) : bool :=
  match proc wr with
  | None => true
  | Some p => p_broken p || negb (p_running p)
  end.

(** A registry entry is sound when the store holds its wrapper and its
    console. *)
Definition itemOk (w : World) (item : RemoteProcess) : bool :=
  bool_decide (is_Some (wrappers w !! procWrapper item))
  && match widget item with
     | Some c => bool_decide (c < length (consoles w))%nat
     | None => true
     end.

Definition wellFormed (w : World) : bool := forallb (itemOk w) (processes w).

(** The entries that [__onWaitTimer] leaves in the registry: the
    redirected ones and those whose child is still there. *)
Definition kept (w : World) (item : RemoteProcess) : bool :=
  match wrappers w !! procWrapper item with
  | Some wr => redirected wr || negb (gone wr)
  | None => true
  end.

(** The entries for which [__onWaitTimer] asks for a new timer. *)
Definition awaited (w : World) (item : RemoteProcess) : bool :=
  match wrappers w !! procWrapper item with
  | Some wr => negb (redirected wr) && negb (gone wr)
  | None => false
  end.

(** ** The pick of a console *)

(** The console is owned by a tracked entry when the id it was made for
    is that of a wrapper in the registry. *)
Definition tracked (w : World) (cs : Console) : Prop :=
  is_Some (getProcessIndex w (c_procuuid cs)).

(** ** The handshake *)

(** The ways in which the handshake of a connection fails: no line within
    the second, a line that does not decode, a line that
    [parseJSONMessage] rejects, a method other than proc-id-info, and an
    id that no tracked entry has. *)
Inductive failedHandshake (w : World) : list Line -> Prop :=
  | fh_timeout : failedHandshake w []
  | fh_undecodable rest : failedHandshake w (Undecodable :: rest)
  | fh_unparsable e rest :
      isTypeOrValueError e = true -> failedHandshake w (Unparsable e :: rest)
  | fh_method method uuid params rest :
      pyEqStr method METHOD_PROC_ID_INFO = false ->
      failedHandshake w (Parsed method uuid params :: rest)
  | fh_unknown uuid params rest :
      getProcessIndexPy w uuid = None ->
      failedHandshake w (Parsed (PStr METHOD_PROC_ID_INFO) uuid params :: rest).

(** The registry and what hangs on it: the entries, the wrappers and
    their states, the prologue watch list, the timers and the consoles. *)
Definition registry (w : World) :=
  (processes w, wrappers w, prologueProcesses w, waitTimer w, prologueTimer w,
   consoles w).

(** ** A launch that fails to start *)

(** The fields of the run manager itself and the objects of the store
    that are not consoles. *)
Definition managerView (w : World) :=
  (processes w, prologueProcesses w, waitTimer w, prologueTimer w,
   ioconsolereuse w).

Definition storeView (w : World) := (wrappers w, sockets w, ostable w).

(** ** What the methods of a wrapper leave untouched *)

(** A wrapper without what its methods change on it: the socket and the
    process handle. *)
Definition wcore (wr : Wrapper) : Wrapper :=
  withProc None (withClientSocket None wr).

Definition statics (w : World) : list Wrapper := wcore <$> wrappers w.

(** What the run manager and an observer see of the store. *)
Definition visible (w : World) :=
  (processes w, prologueProcesses w, waitTimer w, prologueTimer w,
   ioconsolereuse w, consoles w, trace w).

(** A socket may only lose: it may get closed, lose slots and lose lines
    that were read. *)
Definition shrinkSock (sk sk' : Socket) : Prop :=
  (s_open sk' = true -> s_open sk = true)
  /\ s_readyRead sk' `sublist_of` s_readyRead sk
  /\ s_disconnected sk' `sublist_of` s_disconnected sk
  /\ s_inbox sk' `sublist_of` s_inbox sk.

Definition socketsShrink (w w' : World) : Prop :=
  length (sockets w') = length (sockets w)
  /\ forall s sk sk', sockets w !! s = Some sk -> sockets w' !! s = Some sk' ->
       shrinkSock sk sk'.

(** The effect of the methods that only work on the socket and on the
    process of the wrapper at [a]. *)
Definition quietRel (a : nat) (w w' : World) : Prop :=
  visible w' = visible w
  /\ statics w' = statics w
  /\ (forall b, b <> a -> wrappers w' !! b = wrappers w !! b)
  /\ socketsShrink w w'.

(** ** The finished events of a trace *)

(** The codes of the finished events that a trace holds for an id. *)
Definition finishedCode (u : string) (e : Event) : option Z :=
  match e with
  | SigFinished u' code => if bool_decide (u' = u) then Some code else None
  | _ => None
  end.

Definition finishedOf (u : string) (tr : list Event) : list Z :=
  omap (finishedCode u) tr.

Definition isFinished (e : Event) : bool :=
  match e with
  | SigFinished _ _ => true
  | _ => false
  end.

(** ** The frame of the finishing operations *)

(** The socket of a wrapper may only be dropped, and only once it is
    closed. *)
Definition wrapShrink (w w' : World) : Prop :=
  forall b wr, wrappers w !! b = Some wr ->
    exists wr', wrappers w' !! b = Some wr'
      /\ wcore wr' = wcore wr
      /\ (clientSocket wr' = clientSocket wr
          \/ (clientSocket wr' = None
              /\ forall s sk', clientSocket wr = Some s ->
                   sockets w' !! s = Some sk' -> s_open sk' = false)).

Definition steady (w w' : World) : Prop :=
  length (wrappers w') = length (wrappers w)
  /\ socketsShrink w w'
  /\ wrapShrink w w'.

(** The consoles may only get more content. *)
Definition consolesGrow (w w' : World) : Prop :=
  length (consoles w') = length (consoles w)
  /\ forall c cs, consoles w !! c = Some cs ->
       exists cs' more, consoles w' !! c = Some cs'
         /\ c_content cs' = c_content cs ++ more
         /\ c_procuuid cs' = c_procuuid cs /\ c_kind cs' = c_kind cs.

Definition managerRest (w : World) :=
  (prologueProcesses w, waitTimer w, prologueTimer w, ioconsolereuse w).

Definition finishRel (w w' : World) : Prop :=
  steady w w' /\ managerRest w' = managerRest w /\ consolesGrow w w'.

(** The registry after a finished event for [uuid] went through the slot
    of the run manager. *)
Definition withoutEntry (w : World) (uuid : string) : list RemoteProcess :=
  match getProcessIndex w uuid with
  | Some i => delete i (processes w)
  | None => processes w
  end.

(** ** stop, called again and again *)

(** [n] calls of [stop] on the wrapper at [a], one after the other. *)
Fixpoint stopTimes (n : nat) (a : nat) : M unit :=
  match n with
  | O => ret tt
  | S n' => stop a ;; stopTimes n' a
  end.

(** ** The registry as [run] builds it *)

(** What [run] establishes for an entry: the signal [sigFinished] of its
    wrapper is connected to the run manager, a redirected entry has a
    console, and only a redirected wrapper is ever in the state Prologue. *)
Definition entryOk (w : World) (item : RemoteProcess) : bool :=
  match wrappers w !! procWrapper item with
  | Some wr => finishedSlot wr
               && (negb (redirected wr) || bool_decide (is_Some (widget item)))
               && (negb (bool_decide (state wr = Some STATE_PROLOGUE))
                   || redirected wr)
  | None => false
  end.

(** The ids of the tracked entries are pairwise different, as
    [uuid.uuid1()] makes them. *)
Definition uniqueIds (w : World) : Prop :=
  NoDup (itemUuid w <$> processes w).

Definition registryOk (w : World) : Prop :=
  wellFormed w = true
  /\ uniqueIds w
  /\ forallb (entryOk w) (processes w) = true.

(** ** killAll *)

Definition isRedirected (w : World) (item : RemoteProcess) : bool :=
  match wrappers w !! procWrapper item with
  | Some wr => redirected wr
  | None => false
  end.

(** The number of redirected entries of a list that have the id [u]. *)
Definition killedIn (w : World) (u : string) (l : list RemoteProcess) : nat :=
  length (List.filter
            (fun item => isRedirected w item && bool_decide (itemUuid w item = Some u))
            l).

(** The wrappers that lost their socket, and the sockets that were
    closed, stay so. *)
Definition dropped (w : World) (wr : Wrapper) (a : nat) : Prop :=
  (exists wr', wrappers w !! a = Some wr' /\ clientSocket wr' = None)
  /\ forall s sk', clientSocket wr = Some s ->
       sockets w !! s = Some sk' -> s_open sk' = false.

(** ** At most one finished event per tracked id *)

(** The codes that a finished event is meant to carry. *)
Definition finishCode (code : Z) : Prop :=
  code = KILLED \/ code = DISCONNECTED \/ 0 <= code.

(** Between two stores: an id that is not tracked does not come back,
    and the trace has gained a finished event for an id only if the id
    was tracked, has gained only one, and the id is not tracked after. *)
Definition emitsOnce (w w' : World) : Prop :=
  forall u,
    (getProcessIndex w u = None -> getProcessIndex w' u = None)
    /\ (finishedOf u (trace w') = finishedOf u (trace w)
        \/ (is_Some (getProcessIndex w u)
            /\ getProcessIndex w' u = None
            /\ exists code, finishCode code
                 /\ finishedOf u (trace w') = finishedOf u (trace w) ++ [code])).

(** ** The prologue timer *)

(** The launch with the id [u] is tracked and still in its prologue, and
    its console [c] shows at least [content]. *)
Definition awaiting (w : World) (u : string) (c : nat)
    (content : list ConsoleItem) : Prop :=
  exists i item wr cs,
    processes w !! i = Some item
    /\ wrappers w !! procWrapper item = Some wr
    /\ procuuid wr = u
    /\ state wr = Some STATE_PROLOGUE
    /\ widget item = Some c
    /\ consoles w !! c = Some cs
    /\ exists more, c_content cs = content ++ more.

(** ** Sample runs *)

(** A run manager that has launched nothing yet. *)
Definition freshManager (mode : ReuseMode) : World :=
  mkWorld [] [] [] [] mode [] [] false false [].

(** A launch of [script.py] whose spawn succeeds. *)
Definition sampleLaunch (uuid : string) (redir : bool) (now : Q) : Launch :=
  mkLaunch "script.py" false false redir 4242 uuid now
    (Ret (mkPopen true 0 false)).

(** A launch of [script.py] whose spawn fails. *)
Definition failingLaunch (uuid : string) (redir : bool) (now : Q) : Launch :=
  mkLaunch "script.py" false false redir 4242 uuid now (Raise OSError).

(** The store after one redirected launch, and after its child has
    connected back and identified itself. *)
Definition launched : World :=
  (run (sampleLaunch "c1" true (0 # 1)) (freshManager REUSE)).2.

Definition connected : World :=
  (newConnection [Parsed (PStr METHOD_PROC_ID_INFO) (PStr "c1") PNone] launched).2.

(** The store after one launch that is not redirected. *)
Definition detached : World :=
  (run (sampleLaunch "d1" false (0 # 1)) (freshManager REUSE)).2.

(** The child of [connected] writes a stdout message without [text]. *)
Definition missingText : World :=
  setSockets
    (<[0%nat := mkSocket true [Parsed (PStr METHOD_STDOUT) (PStr "c1") (PDict [])]
                  [mkCommand METHOD_PROLOGUE_CONTINUE "c1" PNone] [0%nat] [0%nat]]>
       (sockets connected)) connected.

(** The child of [detached] has exited with the code 3. *)
Definition exited : World :=
  setWrappers
    (<[0%nat := mkWrapper "d1" "script.py" false None (Some 4242) None
                  (Some (mkPopen false 3 false)) true []]> (wrappers detached))
    detached.

(** ** The event loop *)

(** What the event loop of the application delivers to the run manager
    and to the wrappers, one event after the other: the calls of the user
    interface ([run], [kill], [killAll], the input of the user), an
    incoming connection, data or the end of a connection on a socket, the
    two timers, and the exit of a child process. *)
Inductive Op :=
  | OpRun (l : Launch)
  | OpNewConnection (lines : list Line)
  | OpReadyRead (s : nat) (lines : list Line)
  | OpDisconnected (s : nat)
  | OpKill (uuid : string)
  | OpKillAll (rounds : nat)
  | OpUserInput (uuid text : string)
  | OpWaitTimer
  | OpPrologueTimer (now : Q)
  | OpChildExit (a : nat) (code : Z).

(** New lines on an open socket: its [readyRead] signal runs the slots
    connected to it. *)
Definition readyRead (s : nat) (lines : list Line) : M unit :=
  sk <- getSocket s ;;
  if s_open sk then
    putSocket s (withInbox (s_inbox sk ++ lines) sk) ;;
    forEach (s_readyRead sk) parseClientLine
  else ret tt.

(** The peer ends the connection of an open socket: its [disconnected]
    signal runs the slots connected to it. *)
Definition peerDisconnected (s : nat) : M unit :=
  sk <- getSocket s ;;
  if s_open sk then
    putSocket s (withOpen false sk) ;;
    forEach (s_disconnected sk) disconnected
  else ret tt.

(** The timers are single shot: a timer that fires is not active any
    more when its slot runs. *)
Definition waitTimerFires : M unit :=
  fun w => if waitTimer w then onWaitTimer (setWaitTimer false w) else (Ret tt, w).

Definition prologueTimerFires (now : Q) : M unit :=
  fun w => if prologueTimer w then onPrologueTimer now (setPrologueTimer false w)
           else (Ret tt, w).

(** The child process of the wrapper at [a] exits with [code]. *)
Definition childExit (a : nat) (code : Z) : M unit :=
  fun w =>
    match wrappers w !! a with
    | Some wr =>
        match proc wr with
        | Some p =>
            if p_running p
            then putWrapper a (withProc (Some (mkPopen false code (p_broken p))) wr) w
            else (Ret tt, w)
        | None => (Ret tt, w)
        end
    | None => (Ret tt, w)
    end.

(** One event. An exception that leaves a slot ends the slot; the store
    keeps what the slot did until then. *)
Definition step (op : Op) (w : World) : World :=
  match op with
  | OpRun l => (run l w).2
  | OpNewConnection lines => (newConnection lines w).2
  | OpReadyRead s lines => (readyRead s lines w).2
  | OpDisconnected s => (peerDisconnected s w).2
  | OpKill uuid => (kill uuid w).2
  | OpKillAll rounds =>
      match killAll rounds w with
      | Some (_, w') => w'
      | None => w
      end
  | OpUserInput uuid text => (onUserInput uuid text w).2
  | OpWaitTimer => (waitTimerFires w).2
  | OpPrologueTimer now => (prologueTimerFires now w).2
  | OpChildExit a code => (childExit a code w).2
  end.

(** An exit code message is in order when the code it brings is that of
    a process: not negative. *)
Definition lineOk (line : Line) : bool :=
  match line with
  | Parsed method _ params =>
      if pyEqStr method METHOD_EPILOGUE_EXIT_CODE then
        match subscript params "exitCode" with
        | Ret v => match asInt v with
                   | Ret code => bool_decide (0 <= code)
                   | Raise _ => true
                   end
        | Raise _ => true
        end
      else true
  | _ => true
  end.

(** The state of the wrapper that a handshake line names, if any. *)
Definition handshakeState (w : World) (line : Line) : option (option Z) :=
  match line with
  | Parsed method uuid _ =>
      if pyEqStr method METHOD_PROC_ID_INFO then
        match getProcessIndexPy w uuid with
        | Some i =>
            item ← processes w !! i;
            wr ← wrappers w !! procWrapper item;
            Some (state wr)
        | None => None
        end
      else None
  | _ => None
  end.

(** What is assumed of the world around the run manager: [uuid.uuid1()]
    gives an id that no wrapper has had, a child connects back only while
    its launch is in the prologue (so only once), and the exit codes that
    the children report are not negative. *)
Definition admissible (op : Op) (w : World) : bool :=
  match op with
  | OpRun l => bool_decide (l_uuid l ∉ procuuid <$> wrappers w)
  | OpNewConnection lines =>
      forallb lineOk lines
      && match lines with
         | line :: _ =>
             match handshakeState w line with
             | Some st => bool_decide (st = Some STATE_PROLOGUE)
             | None => true
             end
         | [] => true
         end
  | OpReadyRead _ lines => forallb lineOk lines
  | _ => true
  end.

Fixpoint exec (ops : list Op) (w : World) : World :=
  match ops with
  | [] => w
  | op :: ops' => exec ops' (step op w)
  end.

Fixpoint admissibleRun (ops : list Op) (w : World) : bool :=
  match ops with
  | [] => true
  | op :: ops' => admissible op w && admissibleRun ops' (step op w)
  end.

(** ** The invariant of the event loop *)

(** The wrapper at [a] belongs to a tracked entry. *)
Definition registered (w : World) (a : nat) : Prop :=
  a ∈ procWrapper <$> processes w.

Global Instance registered_dec w a : Decision (registered w a).
Proof. unfold registered. apply _. Defined.

(** What holds of every store that the event loop reaches: the registry
    is sound; the ids of the wrappers are pairwise different; a wrapper
    that holds a socket is tracked, redirected and running; the slots of
    an open socket are those of the wrapper that holds it, at most one
    per signal; the exit codes that wait in the sockets are not negative;
    the trace holds at most one finished event per id, none for a tracked
    id, only for ids of wrappers in the store, with a code as meant; and
    the socket that a wrapper holds is in the store. *)
Record Inv (w : World) : Prop := mkInv {
  inv_registry : registryOk w;
  inv_store : NoDup (procuuid <$> wrappers w);
  inv_attached : forall a wr s,
    wrappers w !! a = Some wr -> clientSocket wr = Some s ->
    registered w a /\ redirected wr = true /\ state wr = Some STATE_RUNNING;
  inv_listen : forall s sk a,
    sockets w !! s = Some sk -> s_open sk = true ->
    a ∈ s_readyRead sk \/ a ∈ s_disconnected sk ->
    exists wr, wrappers w !! a = Some wr /\ clientSocket wr = Some s;
  inv_slots : forall s sk,
    sockets w !! s = Some sk -> (length (s_disconnected sk) <= 1)%nat;
  inv_inbox : forall s sk,
    sockets w !! s = Some sk -> forallb lineOk (s_inbox sk) = true;
  inv_trace : forall u,
    (length (finishedOf u (trace w)) <= 1)%nat
    /\ (is_Some (getProcessIndex w u) -> finishedOf u (trace w) = [])
    /\ (finishedOf u (trace w) <> [] -> u ∈ procuuid <$> wrappers w)
    /\ Forall finishCode (finishedOf u (trace w));
  inv_socket : forall a wr s,
    wrappers w !! a = Some wr -> clientSocket wr = Some s ->
    is_Some (sockets w !! s) }.

(** A step that starts nothing: the frame of the finishing operations,
    with a sound registry after it, at most one new finished event per
    id, and an entry leaving the registry only with its socket dropped. *)
Definition finishStep (w w' : World) : Prop :=
  steady w w'
  /\ registryOk w'
  /\ emitsOnce w w'
  /\ (forall a, registered w' a -> registered w a)
  /\ (forall a, registered w a -> ~ registered w' a ->
        exists wr', wrappers w' !! a = Some wr' /\ clientSocket wr' = None).

(** ** Slots that start nothing *)

(** [fin m w]: running [m] in [w], to its end or to the exception that
    leaves it, is a finishing step. *)
Definition fin {A} (m : M A) (w : World) : Prop := finishStep w (m w).2.

(** ** The operations that start nothing *)


(** ** Every run of the event loop *)


(** *** Sample runs of the event loop *)

Definition hello (uuid : string) : Line :=
  Parsed (PStr METHOD_PROC_ID_INFO) (PStr uuid) PNone.

Definition exitCode (uuid : string) (code : Z) : Line :=
  Parsed (PStr METHOD_EPILOGUE_EXIT_CODE) (PStr uuid) (PDict [("exitCode", PInt code)]).

(** A redirected launch whose child connects, identifies itself and
    reports the exit code 3; the user then asks to kill it and the
    connection ends. *)
Definition sampleRun : list Op :=
  [OpRun (sampleLaunch "c1" true (0 # 1));
   OpNewConnection [hello "c1"];
   OpReadyRead 0 [exitCode "c1" 3];
   OpKill "c1";
   OpDisconnected 0].

(** ** The trace only grows *)

(** [keeps m]: whatever [m] does, the events recorded before it stay,
    in their order. *)
Definition keeps {A} (m : M A) : Prop :=
  forall w, trace w `prefix_of` trace (m w).2.

(** ** killAll, once and for all *)

(** Two launches, one redirected and connected, one not; after
    [killAll] the connection ends, a late exit code arrives, the timers
    fire and the user asks to kill again. *)
Definition beforeKillAll : list Op :=
  [OpRun (sampleLaunch "c1" true (0 # 1));
   OpRun (sampleLaunch "d1" false (0 # 1));
   OpNewConnection [hello "c1"]].

Definition afterKillAll : list Op :=
  [OpDisconnected 0;
   OpReadyRead 0 [exitCode "c1" 3];
   OpPrologueTimer (100 # 1);
   OpWaitTimer;
   OpKill "c1";
   OpKillAll 0].

(** ** The rounds granted to the loops are enough *)

(** The lines that wait on the socket of the wrapper at [a]. *)
Definition unread (w : World) (a : nat) : nat :=
  match wrappers w !! a with
  | Some wr =>
      match clientSocket wr with
      | Some s => match sockets w !! s with
                  | Some sk => length (s_inbox sk)
                  | None => 0
                  end
      | None => 0
      end
  | None => 0
  end.

(** ** A console that is reused while in use *)

(** Three redirected launches in the mode [REUSE]: the first is killed,
    the second is running when the third is made. *)
Definition reuseRun : list Op :=
  [OpRun (sampleLaunch "a1" true (0 # 1));
   OpKill "a1";
   OpRun (sampleLaunch "b1" true (1 # 1))].

(** * The statements *)

(** ** Evaluating the transformers *)

Lemma bind_Ret {A B} (m : M A) (k : A -> M B) w a w' :
  m w = (Ret a, w') -> bind m k w = k a w'.
Proof. intros H. unfold bind. by rewrite H. Qed.

Lemma bind_Raise {A B} (m : M A) (k : A -> M B) w e w' :
  m w = (Raise e, w') -> bind m k w = (Raise e, w').
Proof. intros H. unfold bind. by rewrite H. Qed.

Lemma getWrapper_Some a wr w :
  wrappers w !! a = Some wr -> getWrapper a w = (Ret wr, w).
Proof. intros H. unfold getWrapper. by rewrite H. Qed.

Lemma getSocket_Some s sk w :
  sockets w !! s = Some sk -> getSocket s w = (Ret sk, w).
Proof. intros H. unfold getSocket. by rewrite H. Qed.

Lemma getItem_Some i item w :
  processes w !! i = Some item -> getItem i w = (Ret item, w).
Proof. intros H. unfold getItem. by rewrite H. Qed.

Lemma delItem_lt i w :
  (i < length (processes w))%nat ->
  delItem i w = (Ret tt, setProcesses (delete i (processes w)) w).
Proof. intros H. unfold delItem. by rewrite bool_decide_eq_true_2. Qed.

(** ** waitDetached and the detached-poll timer *)

Lemma waitDetached_eq a wr w :
  wrappers w !! a = Some wr ->
  waitDetached a w = (Ret (gone wr), w).
Proof.
  intros Ha. unfold waitDetached, tryExcept, gone.
  rewrite (bind_Ret _ _ _ _ _ (getWrapper_Some _ _ _ Ha)).
  destruct wr as [u pth rd st port cs [p|] fs ss]; cbn; [|done].
  destruct p as [running code broken]; cbn.
  unfold bind, liftRes, Proc.poll, Proc.wait; cbn.
  destruct broken; cbn; [done|].
  destruct running; cbn; [done|].
  unfold putWrapper, modify, ret, withProc; cbn.
  rewrite list_insert_id; [|done].
  by destruct w.
Qed.

Lemma itemOk_wrapper w item :
  itemOk w item = true -> exists wr, wrappers w !! procWrapper item = Some wr.
Proof.
  unfold itemOk. intros [H _]%andb_prop.
  apply bool_decide_eq_true_1 in H. by destruct H as [wr H]; exists wr.
Qed.

Lemma waitLoop_spec (pre : list RemoteProcess) : forall tail need w,
  processes w = pre ++ tail ->
  forallb (itemOk w) pre = true ->
  waitLoop (length pre) need w
  = (Ret (need || existsb (awaited w) pre),
     setProcesses (List.filter (kept w) pre ++ tail) w).
Proof.
  induction pre as [|x pre IH] using rev_ind; intros tail need w Hp Hok.
  - cbn. rewrite orb_false_r. unfold ret. f_equal.
    destruct w; cbn in *; by subst.
  - rewrite forallb_app in Hok. apply andb_prop in Hok as [Hpre Hx].
    cbn in Hx. rewrite andb_true_r in Hx.
    destruct (itemOk_wrapper _ _ Hx) as [wr Hwr].
    rewrite length_app, Nat.add_1_r. cbn [waitLoop].
    assert (Hidx : processes w !! length pre = Some x).
    { rewrite Hp, <- app_assoc. cbn. by rewrite list_lookup_middle. }
    rewrite (bind_Ret _ _ _ _ _ (getItem_Some _ _ _ Hidx)).
    rewrite (bind_Ret _ _ _ _ _ (getWrapper_Some _ _ _ Hwr)).
    rewrite List.filter_app, existsb_app. cbn [List.filter existsb].
    unfold kept at 2, awaited at 2. rewrite Hwr.
    destruct (redirected wr) eqn:Hrd; cbn [negb orb andb].
    + rewrite (IH ([x] ++ tail) need w); [|by rewrite Hp, <- app_assoc|done].
      rewrite orb_false_r. by rewrite <- app_assoc.
    + rewrite (bind_Ret _ _ _ _ _ (waitDetached_eq _ _ _ Hwr)).
      destruct (gone wr) eqn:Hgone; cbn [negb].
      * assert (Hlt : (length pre < length (processes w))%nat).
        { rewrite Hp, !length_app. cbn. lia. }
        rewrite (bind_Ret _ _ _ _ _ (delItem_lt _ _ Hlt)).
        assert (Hdel : delete (length pre) (processes w) = pre ++ tail).
        { rewrite Hp, <- app_assoc. cbn.
          rewrite (delete_middle pre ([] ++ tail) x) at 1. done. }
        rewrite Hdel.
        rewrite (IH tail need (setProcesses (pre ++ tail) w)); [|reflexivity|exact Hpre].
        cbn [orb]. rewrite orb_false_r, app_nil_r. reflexivity.
      * rewrite (IH ([x] ++ tail) true w); [|by rewrite Hp, <- app_assoc|done].
        rewrite !orb_true_r. cbn. by rewrite <- app_assoc.
Qed.

Lemma onWaitTimer_eq w :
  wellFormed w = true ->
  onWaitTimer w
  = (Ret tt,
     (if existsb (awaited w) (processes w) then setWaitTimer true else id)
       (setProcesses (List.filter (kept w) (processes w)) w)).
Proof.
  intros Hwf. unfold onWaitTimer.
  rewrite (bind_Ret _ _ _ _ _
             (waitLoop_spec (processes w) [] false w
                (eq_sym (app_nil_r _)) Hwf)).
  rewrite app_nil_r. cbn [orb].
  by destruct (existsb (awaited w) (processes w)).
Qed.

(** C10. [waitDetached] never raises and leaves the store as it is; it
    answers [True] when the wrapper holds no process handle, when the
    handle raises on [poll], and when the child has exited, and [False]
    only while the child runs. Hence the detached-poll timer removes every
    non-redirected entry in one of the first three cases, and asks for a
    new timer only when a non-redirected child is still running. *)
Theorem waitDetached_true_unless_running (w : World) (a : nat) (wr : Wrapper) :
  wrappers w !! a = Some wr ->
  (exists b, waitDetached a w = (Ret b, w)
     /\ (proc wr = None -> b = true)
     /\ (forall p, proc wr = Some p -> p_broken p = true -> b = true)
     /\ (forall p, proc wr = Some p -> p_running p = false -> b = true)
     /\ (forall p, proc wr = Some p -> p_broken p = false ->
           p_running p = true -> b = false))
  /\ (wellFormed w = true ->
      exists w', onWaitTimer w = (Ret tt, w')
        /\ processes w' = List.filter (kept w) (processes w)
        /\ wrappers w' = wrappers w
        /\ (forall item, redirected wr = false -> gone wr = true ->
              procWrapper item = a -> item ∉ processes w')
        /\ waitTimer w' = (existsb (awaited w) (processes w) || waitTimer w)).
Proof.
  intros Ha. split.
  - exists (gone wr). split; [by apply waitDetached_eq|].
    unfold gone. repeat split.
    + by intros ->.
    + by intros p -> ->.
    + intros p -> ->. by rewrite orb_true_r.
    + by intros p -> -> ->.
  - intros Hwf. rewrite (onWaitTimer_eq _ Hwf).
    eexists; split; [reflexivity|].
    repeat split.
    + by destruct (existsb (awaited w) (processes w)).
    + by destruct (existsb (awaited w) (processes w)).
    + intros item Hrd Hgone Hitem Hin.
      assert (Hin' : item ∈ List.filter (kept w) (processes w))
        by (by destruct (existsb (awaited w) (processes w))).
      apply list_elem_of_In, List.filter_In in Hin' as [_ Hk].
      unfold kept in Hk. rewrite Hitem, Ha, Hrd, Hgone in Hk. done.
    + by destruct (existsb (awaited w) (processes w)).
Qed.
(** ** The pick of a console *)

Lemma newConsole_eq uuid k w :
  newConsole uuid k w
  = (Ret (length (consoles w)),
     setConsoles (consoles w ++ [mkConsole uuid k [] false]) w).
Proof. reflexivity. Qed.

Lemma idleConsole_Some w k c :
  idleConsole w k = Some c <->
  exists cs, consoles w !! c = Some cs
    /\ c_kind cs = k /\ getProcessIndex w (c_procuuid cs) = None
    /\ forall c' cs', consoles w !! c' = Some cs' -> (c' < c)%nat ->
         ~ (c_kind cs' = k /\ getProcessIndex w (c_procuuid cs') = None).
Proof.
  unfold idleConsole. split.
  - intros H. apply fmap_Some in H as [[c0 cs] [H ->]].
    apply list_find_Some in H as (Hl & HP & Hmin). cbn.
    exists cs. destruct HP as [Hk Hi]. repeat split; try done.
  - intros (cs & Hl & Hk & Hi & Hmin).
    apply fmap_Some. exists (c, cs). split; [|done].
    apply list_find_Some. repeat split; try done.
Qed.

Lemma idleConsole_None w k :
  idleConsole w k = None <->
  forall c cs, consoles w !! c = Some cs ->
    ~ (c_kind cs = k /\ getProcessIndex w (c_procuuid cs) = None).
Proof.
  unfold idleConsole. rewrite fmap_None, list_find_None, Forall_lookup.
  done.
Qed.

(** What one call of [__pickWidget] does, with the owner of a console
    read off the id that the console was made for, as the loop of
    [__pickWidget] reads it: in the mode [NO_REUSE] a new console; else
    the first console of the kind whose id is not tracked, cleared only
    in [CLEAR_AND_REUSE], and a new console when there is none. *)
Lemma pickWidget_reuse_policy (w : World) (uuid : string) (k : Kind) :
  (ioconsolereuse w = NO_REUSE ->
     pickWidget uuid k w
     = (Ret (length (consoles w)),
        setConsoles (consoles w ++ [mkConsole uuid k [] false]) w))
  /\ (ioconsolereuse w <> NO_REUSE ->
      (forall c, idleConsole w k = Some c ->
         exists cs w', pickWidget uuid k w = (Ret c, w')
           /\ consoles w !! c = Some cs
           /\ c_kind cs = k /\ ~ tracked w cs
           /\ (forall c' cs', consoles w !! c' = Some cs' -> (c' < c)%nat ->
                 c_kind cs' = k -> tracked w cs')
           /\ consoles w'
              = (if bool_decide (ioconsolereuse w = CLEAR_AND_REUSE)
                 then <[c := withContent [] cs]> (consoles w)
                 else consoles w))
      /\ (idleConsole w k = None ->
            (forall c cs, consoles w !! c = Some cs -> c_kind cs = k ->
               tracked w cs)
            /\ pickWidget uuid k w
               = (Ret (length (consoles w)),
                  setConsoles (consoles w ++ [mkConsole uuid k [] false]) w))).
Proof.
  split.
  - intros Hm. unfold pickWidget. by rewrite bool_decide_eq_true_2.
  - intros Hm. split.
    + intros c Hc. pose proof Hc as Hc'.
      apply idleConsole_Some in Hc' as (cs & Hl & Hk & Hi & Hmin).
      unfold pickWidget. rewrite bool_decide_eq_false_2 by done. rewrite Hc.
      unfold tracked.
      destruct (bool_decide (ioconsolereuse w = CLEAR_AND_REUSE)) eqn:Hclr.
      * eexists cs, _. split.
        { unfold bind, record, modify, clear, onConsole, ret. cbn.
          rewrite Hl. reflexivity. }
        repeat split; try done.
        -- rewrite Hi. by intros [? ?].
        -- intros c' cs' Hc' Hlt Hk'.
           destruct (getProcessIndex w (c_procuuid cs')) eqn:E; [done|].
           by destruct (Hmin c' cs' Hc' Hlt).
      * eexists cs, _. split.
        { unfold bind, record, modify, ret. cbn. reflexivity. }
        repeat split; try done.
        -- rewrite Hi. by intros [? ?].
        -- intros c' cs' Hc' Hlt Hk'.
           destruct (getProcessIndex w (c_procuuid cs')) eqn:E; [done|].
           by destruct (Hmin c' cs' Hc' Hlt).
    + intros Hn. split.
      * intros c cs Hl Hk. unfold tracked.
        destruct (getProcessIndex w (c_procuuid cs)) eqn:E; [done|].
        by destruct (proj1 (idleConsole_None w k) Hn c cs Hl).
      * unfold pickWidget. rewrite bool_decide_eq_false_2 by done.
        by rewrite Hn.
Qed.
(** ** The attachment of a connection *)

Lemma setSocket_eq w a wr s sk :
  wrappers w !! a = Some wr ->
  sockets w !! s = Some sk ->
  s_inbox sk = [] ->
  s_open sk = true ->
  setSocket a s w
  = (Ret tt,
     setSockets
       (<[s := mkSocket true []
                 (s_outbox sk ++ [mkCommand METHOD_PROLOGUE_CONTINUE (procuuid wr) PNone])
                 (s_readyRead sk ++ [a]) (s_disconnected sk ++ [a])]> (sockets w))
       (setWrappers
          (<[a := withState (Some STATE_RUNNING) (withClientSocket (Some s) wr)]>
             (wrappers w)) w)).
Proof.
  intros Ha Hs Hin Hop.
  pose proof (lookup_lt_Some _ _ _ Ha) as Hla.
  pose proof (lookup_lt_Some _ _ _ Hs) as Hls.
  unfold setSocket.
  rewrite (bind_Ret _ _ _ _ _ (getWrapper_Some _ _ _ Ha)).
  unfold putWrapper at 1, modify. unfold bind at 1.
  set (wr1 := withState _ _).
  set (w1 := setWrappers _ w).
  assert (Ha1 : wrappers w1 !! a = Some wr1)
    by (by apply list_lookup_insert_eq).
  assert (Hs1 : sockets w1 !! s = Some sk) by done.
  unfold connectSocket.
  unfold bind at 1.
  rewrite (bind_Ret _ _ _ _ _ (getWrapper_Some _ _ _ Ha1)).
  cbn [wr1 clientSocket withState withClientSocket].
  rewrite (bind_Ret _ _ _ _ _ (getSocket_Some _ _ _ Hs1)).
  unfold putSocket, modify.
  set (sk2 := withDisconnected _ _).
  set (w2 := setSockets _ w1).
  assert (Ha2 : wrappers w2 !! a = Some wr1) by done.
  assert (Hs2 : sockets w2 !! s = Some sk2)
    by (by apply list_lookup_insert_eq).
  unfold parseClientLine. unfold bind at 1.
  rewrite (bind_Ret _ _ _ _ _ (getWrapper_Some _ _ _ Ha2)).
  cbn [wr1 clientSocket withState withClientSocket].
  rewrite (bind_Ret _ _ _ _ _ (getSocket_Some _ _ _ Hs2)).
  cbn [sk2 s_inbox withDisconnected withReadyRead]. rewrite Hin.
  cbn [length parseLoop]. unfold ret at 1.
  unfold sendStart.
  rewrite (bind_Ret _ _ _ _ _ (getWrapper_Some _ _ _ Ha2)).
  cbn [wr1 clientSocket withState withClientSocket sendJSONCommand procuuid].
  rewrite (bind_Ret _ _ _ _ _ (getSocket_Some _ _ _ Hs2)).
  cbn [sk2 s_open withDisconnected withReadyRead]. rewrite Hop.
  unfold putSocket, modify. f_equal.
  unfold w2, w1, setSockets, setWrappers. cbn.
  rewrite list_insert_insert_eq. f_equal. f_equal.
  unfold sk2, withOutbox, withDisconnected, withReadyRead. cbn.
  by rewrite Hin, Hop.
Qed.

(** C3, as the code has it: [setSocket] looks at no state and rejects
    nothing. Whatever the state of the wrapper (unset, Prologue, or
    Running after an earlier attachment), with an open socket that holds
    no line yet the call returns normally, stores the socket, sets the
    state to Running, connects the two slots and sends the
    prologue-continue message. *)
Theorem setSocket_attaches_in_any_state (w : World) (a : nat) (wr : Wrapper)
    (s : nat) (sk : Socket) :
  wrappers w !! a = Some wr ->
  sockets w !! s = Some sk ->
  s_inbox sk = [] ->
  s_open sk = true ->
  exists w' wr' sk',
    setSocket a s w = (Ret tt, w')
    /\ wrappers w' !! a = Some wr'
    /\ state wr' = Some STATE_RUNNING
    /\ clientSocket wr' = Some s
    /\ sockets w' !! s = Some sk'
    /\ s_outbox sk'
       = s_outbox sk ++ [mkCommand METHOD_PROLOGUE_CONTINUE (procuuid wr) PNone]
    /\ s_readyRead sk' = s_readyRead sk ++ [a]
    /\ s_disconnected sk' = s_disconnected sk ++ [a]
    /\ processes w' = processes w
    /\ trace w' = trace w.
Proof.
  intros Ha Hs Hin Hop.
  pose proof (lookup_lt_Some _ _ _ Ha) as Hla.
  pose proof (lookup_lt_Some _ _ _ Hs) as Hls.
  eexists _, _, _. split; [by apply setSocket_eq|].
  cbn. split; [by apply list_lookup_insert_eq|].
  split; [done|]. split; [done|].
  split; [by apply list_lookup_insert_eq|]. done.
Qed.
(** ** The handshake *)

Lemma newConnection_timeout w :
  newConnection [] w
  = (Ret tt, setSockets (sockets w ++ [mkSocket true [] [] [] []]) w).
Proof.
  unfold newConnection, waitForHandshake.
  set (w1 := setSockets _ w).
  assert (Hs : sockets w1 !! length (sockets w) = Some (mkSocket true [] [] [] []))
    by (by apply list_lookup_middle).
  unfold bind at 1.
  by rewrite (bind_Ret _ _ _ _ _ (getSocket_Some _ _ _ Hs)).
Qed.

Lemma insert_last {A} (l : list A) (x y : A) :
  <[length l := y]> (l ++ [x]) = l ++ [y].
Proof.
  rewrite insert_app_r_alt by lia. by rewrite Nat.sub_diag.
Qed.

Lemma newConnection_unknown w uuid params rest :
  getProcessIndexPy w uuid = None ->
  newConnection (Parsed (PStr METHOD_PROC_ID_INFO) uuid params :: rest) w
  = (Ret tt, setSockets (sockets w ++ [mkSocket true rest [] [] []]) w).
Proof.
  intros Hu. unfold newConnection, waitForHandshake.
  set (w1 := setSockets _ w).
  assert (Hs : sockets w1 !! length (sockets w)
               = Some (mkSocket true (Parsed (PStr METHOD_PROC_ID_INFO) uuid params :: rest)
                         [] [] []))
    by (by apply list_lookup_middle).
  unfold bind at 1.
  rewrite (bind_Ret _ _ _ _ _ (getSocket_Some _ _ _ Hs)).
  cbn [s_inbox].
  assert (Hm : pyEqStr (PStr METHOD_PROC_ID_INFO) METHOD_PROC_ID_INFO = true)
    by (by apply bool_decide_eq_true_2).
  rewrite Hm.
  unfold putSocket, modify, bind, ret, tryExcept.
  cbn -[getProcessIndexPy].
  change (getProcessIndexPy _ uuid) with (getProcessIndexPy w uuid).
  rewrite Hu. unfold setSockets. cbn. by rewrite insert_last.
Qed.

Lemma newConnection_wrong_method w method uuid params rest :
  pyEqStr method METHOD_PROC_ID_INFO = false ->
  newConnection (Parsed method uuid params :: rest) w
  = (Ret tt,
     setTrace (trace w ++ [LogError unexpectedHandshake])
       (setSockets (sockets w ++ [mkSocket false [] [] [] []]) w)).
Proof.
  intros Hm. unfold newConnection, waitForHandshake.
  set (w1 := setSockets _ w).
  assert (Hs : sockets w1 !! length (sockets w)
               = Some (mkSocket true (Parsed method uuid params :: rest) [] [] []))
    by (by apply list_lookup_middle).
  unfold bind at 1.
  rewrite (bind_Ret _ _ _ _ _ (getSocket_Some _ _ _ Hs)).
  cbn [s_inbox]. rewrite Hm.
  unfold putSocket, modify, bind, ret, tryExcept, safeSocketClose, tryExcept,
    socketClose, record, modify, bind, getSocket, putSocket, modify. cbn.
  rewrite insert_last. rewrite list_lookup_middle by done. cbn.
  unfold setTrace, setSockets. cbn. by rewrite insert_last.
Qed.

Lemma newConnection_unparsable w e rest :
  isTypeOrValueError e = true ->
  newConnection (Unparsable e :: rest) w
  = (Ret tt,
     setTrace (trace w ++ [StatusBarMessage unsolicitedConnection])
       (setSockets (sockets w ++ [mkSocket false [] [] [] []]) w)).
Proof.
  intros He. unfold newConnection, waitForHandshake.
  set (w1 := setSockets _ w).
  assert (Hs : sockets w1 !! length (sockets w)
               = Some (mkSocket true (Unparsable e :: rest) [] [] []))
    by (by apply list_lookup_middle).
  unfold bind at 1.
  rewrite (bind_Ret _ _ _ _ _ (getSocket_Some _ _ _ Hs)).
  cbn [s_inbox].
  unfold putSocket, modify, bind, ret, raise, tryExcept, safeSocketClose, tryExcept,
    socketClose, record, modify, bind, getSocket, putSocket, modify. cbn.
  rewrite He. cbn.
  rewrite insert_last. rewrite list_lookup_middle by done. cbn.
  unfold setTrace, setSockets. cbn. by rewrite insert_last.
Qed.

Lemma newConnection_undecodable w rest :
  newConnection (Undecodable :: rest) w
  = (Raise UnicodeDecodeError,
     setSockets (sockets w ++ [mkSocket true rest [] [] []]) w).
Proof.
  unfold newConnection, waitForHandshake.
  set (w1 := setSockets _ w).
  assert (Hs : sockets w1 !! length (sockets w)
               = Some (mkSocket true (Undecodable :: rest) [] [] []))
    by (by apply list_lookup_middle).
  unfold bind at 1.
  rewrite (bind_Ret _ _ _ _ _ (getSocket_Some _ _ _ Hs)).
  cbn [s_inbox].
  unfold putSocket, modify, bind, ret, raise. cbn.
  unfold setSockets. cbn. by rewrite insert_last.
Qed.

Lemma failedHandshake_registry w lines :
  failedHandshake w lines ->
  registry (newConnection lines w).2 = registry w.
Proof.
  intros [ | rest | e rest He | m u p rest Hm | u p rest Hu ].
  - by rewrite newConnection_timeout.
  - by rewrite newConnection_undecodable.
  - by rewrite newConnection_unparsable.
  - by rewrite newConnection_wrong_method.
  - by rewrite newConnection_unknown.
Qed.

(** C4, on the input where the code departs from it: when no line comes
    within the second, [__waitForHandshake] falls through its [if]: the
    registry is as it was, but the connection is left open, where the
    claim has it closed. (The paths of a rejected line and of a wrong
    method do call [__safeSocketClose].) *)
Theorem handshake_timeout_leaves_connection_open (w : World) :
  exists w',
    newConnection [] w = (Ret tt, w')
    /\ registry w' = registry w
    /\ trace w' = trace w
    /\ sockets w' !! length (sockets w) = Some (mkSocket true [] [] [] []).
Proof.
  eexists. split; [apply newConnection_timeout|].
  repeat split. cbn. by apply list_lookup_middle.
Qed.
(** ** The read loop *)

Lemma parseClientLine_missing_text w a wr s sk method uuid rest :
  wrappers w !! a = Some wr ->
  clientSocket wr = Some s ->
  sockets w !! s = Some sk ->
  s_inbox sk = Parsed method uuid (PDict []) :: rest ->
  pyEqStr method METHOD_STDOUT = true ->
  parseClientLine a w
  = (Raise KeyError, setSockets (<[s := withInbox rest sk]> (sockets w)) w).
Proof.
  intros Ha Hcs Hs Hin Hm.
  unfold parseClientLine.
  rewrite (bind_Ret _ _ _ _ _ (getWrapper_Some _ _ _ Ha)), Hcs.
  rewrite (bind_Ret _ _ _ _ _ (getSocket_Some _ _ _ Hs)), Hin.
  cbn [length parseLoop].
  rewrite (bind_Ret _ _ _ _ _ (getWrapper_Some _ _ _ Ha)), Hcs.
  rewrite (bind_Ret _ _ _ _ _ (getSocket_Some _ _ _ Hs)), Hin.
  unfold handleLine.
  assert (Hx : pyEqStr method METHOD_EPILOGUE_EXIT_CODE = false).
  { destruct method; try done. cbn in *.
    apply bool_decide_eq_true_1 in Hm as ->. done. }
  rewrite Hx, Hm.
  unfold putSocket, modify, bind, tryExcept, liftRes. cbn. done.
Qed.

(** C7, on an input where the code departs from it: a stdout message
    whose [params] is a dict without the key [text]. [params['text']]
    raises [KeyError], the [except (TypeError, ValueError)] of the read
    loop does not catch it, and [__parseClientLine] ends with the
    exception, the remaining lines unread. *)
Theorem parseClientLine_raises_KeyError (w : World) (a : nat) (wr : Wrapper)
    (s : nat) (sk : Socket) (uuid : pyval) (rest : list Line) :
  wrappers w !! a = Some wr ->
  clientSocket wr = Some s ->
  sockets w !! s = Some sk ->
  s_inbox sk = Parsed (PStr METHOD_STDOUT) uuid (PDict []) :: rest ->
  exists w', parseClientLine a w = (Raise KeyError, w')
    /\ isTypeOrValueError KeyError = false
    /\ sockets w' !! s = Some (withInbox rest sk)
    /\ trace w' = trace w.
Proof.
  intros Ha Hcs Hs Hin.
  eexists. split.
  { eapply parseClientLine_missing_text; try done. }
  repeat split. cbn. apply list_lookup_insert_eq. by eapply lookup_lt_Some.
Qed.
(** ** A launch that fails to start *)

Lemma idleConsole_lt w k c :
  idleConsole w k = Some c -> is_Some (consoles w !! c).
Proof.
  intros H. apply idleConsole_Some in H as (cs & Hl & _). by exists cs.
Qed.

Lemma pickWidget_effect uuid k w :
  exists c w1,
    pickWidget uuid k w = (Ret c, w1)
    /\ is_Some (consoles w1 !! c)
    /\ managerView w1 = managerView w
    /\ storeView w1 = storeView w
    /\ (length (consoles w) <= length (consoles w1))%nat.
Proof.
  unfold pickWidget.
  assert (Hnew : exists c w1,
    newConsole uuid k w = (Ret c, w1)
    /\ is_Some (consoles w1 !! c)
    /\ managerView w1 = managerView w
    /\ storeView w1 = storeView w
    /\ (length (consoles w) <= length (consoles w1))%nat).
  { eexists _, _. split; [reflexivity|]. cbn.
    split; [|split; [done|split; [done|]]].
    - rewrite list_lookup_middle by done. by eexists.
    - rewrite length_app. lia. }
  destruct (bool_decide (ioconsolereuse w = NO_REUSE)); [done|].
  destruct (idleConsole w k) as [c|] eqn:Hc; [|done].
  destruct (idleConsole_lt _ _ _ Hc) as [cs Hcs].
  destruct (bool_decide (ioconsolereuse w = CLEAR_AND_REUSE)).
  - eexists _, _. split.
    { unfold bind, record, modify, clear, onConsole, ret. cbn.
      rewrite Hcs. reflexivity. }
    cbn. split; [|split; [done|split; [done|]]].
    + rewrite list_lookup_insert_eq by (by eapply lookup_lt_Some). by eexists.
    + by rewrite length_insert.
  - eexists _, _. split.
    { unfold bind, record, modify, ret. cbn. reflexivity. }
    cbn. split; [by eexists|]. done.
Qed.

Lemma appendIDEMessage_eq c cs text w :
  consoles w !! c = Some cs ->
  appendIDEMessage c text w
  = (Ret tt, setConsoles
               (<[c := withContent (c_content cs ++ [IDEMessage text]) cs]>
                  (consoles w)) w).
Proof.
  intros H. unfold appendIDEMessage, appendItem, onConsole. by rewrite H.
Qed.

(** *** Evaluation, one step at a time *)

Lemma bind_bind {A B C} (m : M A) (f : A -> M B) (g : B -> M C) w :
  bind (bind m f) g w = bind m (fun x => bind (f x) g) w.
Proof. unfold bind. by destruct (m w) as [[x|e] w']. Qed.

Lemma bind_ret {A B} (a : A) (k : A -> M B) w : bind (ret a) k w = k a w.
Proof. reflexivity. Qed.

Lemma bind_raise {A B} e (k : A -> M B) w :
  bind (raise e) k w = (Raise e, w).
Proof. reflexivity. Qed.

Lemma bind_modify {B} f (k : unit -> M B) w : bind (modify f) k w = k tt (f w).
Proof. reflexivity. Qed.

Lemma bind_liftRes_Ret {A B} (a : A) (k : A -> M B) w :
  bind (liftRes (Ret a)) k w = k a w.
Proof. reflexivity. Qed.

Lemma bind_liftRes_Raise {A B} e (k : A -> M B) w :
  bind (liftRes (Raise e)) k w = (Raise e, w).
Proof. reflexivity. Qed.

Lemma bind_getWrapper {B} a wr (k : Wrapper -> M B) w :
  wrappers w !! a = Some wr -> bind (getWrapper a) k w = k wr w.
Proof. intros H. by rewrite (bind_Ret _ _ _ _ _ (getWrapper_Some _ _ _ H)). Qed.

Lemma bind_getSocket {B} s sk (k : Socket -> M B) w :
  sockets w !! s = Some sk -> bind (getSocket s) k w = k sk w.
Proof. intros H. by rewrite (bind_Ret _ _ _ _ _ (getSocket_Some _ _ _ H)). Qed.

Lemma bind_getItem {B} i item (k : RemoteProcess -> M B) w :
  processes w !! i = Some item -> bind (getItem i) k w = k item w.
Proof. intros H. by rewrite (bind_Ret _ _ _ _ _ (getItem_Some _ _ _ H)). Qed.

Lemma bind_putWrapper {B} a wr (k : unit -> M B) w :
  bind (putWrapper a wr) k w = k tt (setWrappers (<[a := wr]> (wrappers w)) w).
Proof. reflexivity. Qed.

Lemma bind_putSocket {B} s sk (k : unit -> M B) w :
  bind (putSocket s sk) k w = k tt (setSockets (<[s := sk]> (sockets w)) w).
Proof. reflexivity. Qed.

Lemma bind_record {B} e (k : unit -> M B) w :
  bind (record e) k w = k tt (setTrace (trace w ++ [e]) w).
Proof. reflexivity. Qed.

Lemma bind_appendIDEMessage {B} c cs text (k : unit -> M B) w :
  consoles w !! c = Some cs ->
  bind (appendIDEMessage c text) k w
  = k tt (setConsoles
            (<[c := withContent (c_content cs ++ [IDEMessage text]) cs]>
               (consoles w)) w).
Proof. intros H. by rewrite (bind_Ret _ _ _ _ _ (appendIDEMessage_eq _ _ _ _ H)). Qed.

Lemma tryExcept_Ret {A} (m : M A) c h w a w' :
  m w = (Ret a, w') -> tryExcept m c h w = (Ret a, w').
Proof. intros H. unfold tryExcept. by rewrite H. Qed.

Lemma tryExcept_Raise {A} (m : M A) c h w e w' :
  m w = (Raise e, w') -> c e = true -> tryExcept m c h w = h e w'.
Proof. intros H Hc. unfold tryExcept. by rewrite H, Hc. Qed.

Lemma tryExcept_pass {A} (m : M A) c h w e w' :
  m w = (Raise e, w') -> c e = false -> tryExcept m c h w = (Raise e, w').
Proof. intros H Hc. unfold tryExcept. by rewrite H, Hc. Qed.

(** The fields of a store after an update. *)
Ltac fields :=
  cbn [wrappers sockets ostable consoles ioconsolereuse processes
       prologueProcesses waitTimer prologueTimer trace
       setWrappers setSockets setOstable setConsoles setProcesses
       setPrologueProcesses setWaitTimer setPrologueTimer setTrace] in *.

(** A lookup in a store that was updated. *)
Ltac lookup :=
  fields;
  repeat first
    [ eassumption
    | reflexivity
    | rewrite list_lookup_insert_eq by (rewrite ?length_insert, ?length_app; cbn;
                                    first [ lia | eapply lookup_lt_Some; eassumption
                                          | eapply Nat.lt_le_trans; [eapply lookup_lt_Some; eassumption | lia] ])
    | rewrite list_lookup_insert_ne by (first [ done | lia ])
    | rewrite list_lookup_middle by reflexivity
    | rewrite lookup_app_l by (first [ lia | eapply lookup_lt_Some; eassumption ]) ].

(** One step of the transformer at the head of the goal. *)
Ltac mstep :=
  first
    [ rewrite bind_bind
    | rewrite bind_ret
    | rewrite bind_raise
    | rewrite bind_modify
    | rewrite bind_liftRes_Ret
    | rewrite bind_liftRes_Raise
    | rewrite bind_putWrapper
    | rewrite bind_putSocket
    | rewrite bind_record
    | erewrite bind_getWrapper by lookup
    | erewrite bind_getSocket by lookup
    | erewrite bind_getItem by lookup
    | erewrite bind_appendIDEMessage by lookup ];
  cbv beta.

Ltac msteps := repeat mstep.

Lemma delLastItem_app l x w :
  processes w = l ++ [x] ->
  delLastItem w = (Ret tt, setProcesses l w).
Proof.
  intros H. unfold delLastItem.
  assert (Hm : forall (A : Type) (ps : list RemoteProcess) (u v : A),
             ps <> [] -> match ps with [] => u | _ => v end = v)
    by (by intros ? [] ? ? ?).
  rewrite Hm by (rewrite H; by destruct l).
  rewrite delItem_lt by (rewrite H, length_app; cbn; lia).
  rewrite H, length_app, Nat.add_sub.
  by rewrite (delete_middle l [] x), app_nil_r.
Qed.

(** C5, as the code has it: when the spawn fails the error is reported
    (on the console of a redirected launch, in the log otherwise), the
    entry that was just registered is taken out of the registry again and
    the detached-poll timer is not started. A redirected launch has by
    then put its id on the prologue watch list and armed the prologue
    timer, and both stay so. *)
Theorem run_spawn_failure (w : World) (l : Launch) (e : exn) :
  l_spawn l = Raise e ->
  l_needDialog l && negb (l_accepted l) = false ->
  exists w',
    run l w = (Ret tt, w')
    /\ processes w' = processes w
    /\ waitTimer w' = waitTimer w
    /\ (l_redirected l = false ->
          prologueProcesses w' = prologueProcesses w
          /\ prologueTimer w' = prologueTimer w
          /\ consoles w' = consoles w
          /\ trace w' = trace w ++ [LogError (exnText e)])
    /\ (l_redirected l = true ->
          prologueProcesses w' = prologueProcesses w ++ [(l_uuid l, l_now l)]
          /\ prologueTimer w' = true
          /\ exists c cs items,
               consoles w' !! c = Some cs
               /\ c_content cs
                  = items ++ [IDEMessage ("Starting " +:+ l_path l +:+ "...");
                              IDEMessage ("Failed to start: " +:+ exnText e)]).
Proof.
  intros Hsp Hdlg. unfold run. rewrite Hdlg, Hsp.
  unfold newWrapper. unfold bind at 1.
  set (wr0 := mkWrapper _ _ _ _ _ _ _ _ _).
  destruct (l_redirected l) eqn:Hrd.
  - (* redirected *)
    msteps.
    match goal with |- context [bind (pickWidget ?u ?k) _ ?w1] =>
      destruct (pickWidget_effect u k w1)
        as (c & w2 & Hpick & [cs Hcs] & Hmv & Hsv & _);
      rewrite (bind_Ret _ _ _ _ _ Hpick)
    end.
    clear Hpick. destruct w2 as [ws2 ss2 os2 cs2 m2 ps2 pps2 wt2 pt2 tr2].
    injection Hsv as Hw2 _ _. injection Hmv as Hp2 Hpp2 Hwt2 Hpt2 _.
    destruct (prologueTimer w) eqn:Hpt; fields; subst.
    all: msteps.
    all: erewrite tryExcept_Raise; [| unfold start; by msteps | done].
    all: msteps.
    all: erewrite delLastItem_app by (fields; reflexivity).
    all: eexists; split; [reflexivity|]; fields.
    all: split; [done|]; split; [done|]; split; [done|]; intros _.
    all: split; [done|]; split; [done|].
    all: eexists c, _, (c_content cs); split;
           [rewrite list_lookup_insert_eq; [reflexivity|rewrite length_insert; by eapply lookup_lt_Some]|].
    all: cbn; by rewrite <- app_assoc.
  - (* not redirected *)
    msteps.
    erewrite tryExcept_Raise; [| unfold start; by msteps | done].
    msteps.
    erewrite delLastItem_app by (fields; reflexivity).
    eexists; split; [reflexivity|]; fields.
    split; [done|]. split; [done|]. split; [done|]. by intros [=].
Qed.
(** ** What the methods of a wrapper leave untouched *)

Lemma shrinkSock_refl sk : shrinkSock sk sk.
Proof. by repeat split. Qed.

Lemma shrinkSock_trans sk1 sk2 sk3 :
  shrinkSock sk1 sk2 -> shrinkSock sk2 sk3 -> shrinkSock sk1 sk3.
Proof.
  intros (H1 & H2 & H3 & H4) (H1' & H2' & H3' & H4').
  split; [auto|]. split; [by etrans|]. split; by etrans.
Qed.

Lemma socketsShrink_refl w : socketsShrink w w.
Proof.
  split; [done|]. intros s sk sk' H1 H2.
  rewrite H1 in H2. injection H2 as <-. apply shrinkSock_refl.
Qed.

Lemma socketsShrink_trans w1 w2 w3 :
  socketsShrink w1 w2 -> socketsShrink w2 w3 -> socketsShrink w1 w3.
Proof.
  intros [Hl1 H1] [Hl2 H2]. split; [congruence|].
  intros s sk sk' Hs Hs'.
  destruct (sockets w2 !! s) as [sk2|] eqn:E.
  - eapply shrinkSock_trans; eauto.
  - apply lookup_ge_None in E. apply lookup_lt_Some in Hs. lia.
Qed.

Lemma socketsShrink_insert w s sk sk' :
  sockets w !! s = Some sk ->
  shrinkSock sk sk' ->
  socketsShrink w (setSockets (<[s := sk']> (sockets w)) w).
Proof.
  intros Hs Hsh. split; [cbn; by rewrite length_insert|].
  intros s0 sk0 sk0' H0 H0'. cbn in H0'.
  destruct (decide (s0 = s)) as [->|Hne].
  - rewrite list_lookup_insert_eq in H0' by (by eapply lookup_lt_Some).
    injection H0' as <-. rewrite Hs in H0. by injection H0 as <-.
  - rewrite list_lookup_insert_ne in H0' by done.
    rewrite H0 in H0'. injection H0' as <-. apply shrinkSock_refl.
Qed.

Lemma quietRel_refl a w : quietRel a w w.
Proof. split; [done|split; [done|split; [done|apply socketsShrink_refl]]]. Qed.

Lemma quietRel_trans a w1 w2 w3 :
  quietRel a w1 w2 -> quietRel a w2 w3 -> quietRel a w1 w3.
Proof.
  intros (V1 & S1 & O1 & K1) (V2 & S2 & O2 & K2).
  split; [congruence|split; [congruence|split]].
  - intros b Hb. rewrite O2, O1; done.
  - eapply socketsShrink_trans; eauto.
Qed.

Lemma quietRel_sockets a w ss :
  socketsShrink w (setSockets ss w) -> quietRel a w (setSockets ss w).
Proof. intros H. by split; [|split; [|split]]. Qed.

Lemma statics_insert w a wr wr' :
  wrappers w !! a = Some wr ->
  wcore wr' = wcore wr ->
  wcore <$> <[a := wr']> (wrappers w) = statics w.
Proof.
  intros Ha Hc. unfold statics.
  rewrite list_fmap_insert, Hc.
  apply list_insert_id. by rewrite list_lookup_fmap, Ha.
Qed.

Lemma quietRel_wrapper a w wr wr' :
  wrappers w !! a = Some wr ->
  wcore wr' = wcore wr ->
  quietRel a w (setWrappers (<[a := wr']> (wrappers w)) w).
Proof.
  intros Ha Hc. split; [done|split; [|split]].
  - by apply statics_insert with wr.
  - intros b Hb. cbn. by rewrite list_lookup_insert_ne.
  - exact (socketsShrink_refl w).
Qed.

Lemma quietRel_alive a b w w' :
  quietRel a w w' -> is_Some (wrappers w !! b) -> is_Some (wrappers w' !! b).
Proof.
  intros (_ & S & _) H. apply lookup_lt_is_Some in H. apply lookup_lt_is_Some.
  assert (length (statics w') = length (statics w)) by congruence.
  unfold statics in *. rewrite !length_fmap in *. lia.
Qed.

Lemma quietRel_wcore a b w w' wr :
  quietRel a w w' -> wrappers w !! b = Some wr ->
  exists wr', wrappers w' !! b = Some wr' /\ wcore wr' = wcore wr.
Proof.
  intros (_ & S & _) H.
  assert (E : statics w' !! b = statics w !! b) by congruence.
  unfold statics in E. rewrite !list_lookup_fmap, H in E.
  destruct (wrappers w' !! b) as [wr'|]; [|done].
  exists wr'. split; [done|]. cbn in E. congruence.
Qed.
Lemma disconnectSlot_subseteq a l l' :
  disconnectSlot a l = Ret l' -> l' `sublist_of` l.
Proof.
  unfold disconnectSlot. case_bool_decide; [|done].
  intros [= <-]. apply sublist_filter.
Qed.

Lemma quietRel_socket a w s sk sk' :
  sockets w !! s = Some sk ->
  shrinkSock sk sk' ->
  quietRel a w (setSockets (<[s := sk']> (sockets w)) w).
Proof.
  intros Hs Hsh. apply quietRel_sockets. by eapply socketsShrink_insert.
Qed.

Lemma quietRel_ostable a w os : quietRel a w (setOstable os w).
Proof.
  split; [done|split; [done|split; [done|]]]. exact (socketsShrink_refl w).
Qed.

Lemma disconnectSocket_spec a w :
  is_Some (wrappers w !! a) ->
  exists w', disconnectSocket a w = (Ret tt, w')
    /\ quietRel a w w' /\ wrappers w' = wrappers w.
Proof.
  intros [wr Ha]. unfold disconnectSocket. mstep.
  destruct (clientSocket wr) as [s|];
    [|eexists; split; [done|split; [apply quietRel_refl|done]]].
  unfold tryExcept.
  destruct (sockets w !! s) as [sk|] eqn:Hs.
  2:{ unfold bind, getSocket. rewrite Hs. cbn.
      eexists; split; [done|split; [apply quietRel_refl|done]]. }
  mstep.
  destruct (disconnectSlot a (s_readyRead sk)) as [rr|e] eqn:Hrr; msteps.
  2:{ cbn. eexists; split; [done|split; [apply quietRel_refl|done]]. }
  assert (Hsh1 : shrinkSock sk (withReadyRead rr sk)).
  { split; [done|]. split; [by eapply disconnectSlot_subseteq|]. by split. }
  destruct (disconnectSlot a (s_disconnected sk)) as [dd|e] eqn:Hdd;
    cbn [withReadyRead s_disconnected]; rewrite Hdd; msteps; cbn.
  - eexists; split; [done|split; [|done]].
    eapply quietRel_trans; [by eapply quietRel_socket|].
    eapply quietRel_socket; [by lookup|].
    split; [done|]. split; [done|]. split; [|done].
    by eapply disconnectSlot_subseteq.
  - eexists; split; [done|split; [|done]].
    by eapply quietRel_socket.
Qed.

Lemma socketClose_spec a s w :
  exists w1, tryExcept (socketClose s) isException (fun _ => ret tt) w = (Ret tt, w1)
    /\ quietRel a w w1 /\ wrappers w1 = wrappers w
    /\ (forall sk', sockets w1 !! s = Some sk' -> s_open sk' = false).
Proof.
  destruct (sockets w !! s) as [sk|] eqn:Hs.
  - eexists. split.
    { eapply tryExcept_Ret. unfold socketClose. msteps.
      unfold putSocket, modify. reflexivity. }
    split; [|split; [done|]].
    + eapply quietRel_socket; [done|].
      split; [done|]. split; [done|]. split; [done|]. apply sublist_nil_l.
    + fields. rewrite list_lookup_insert_eq by (by eapply lookup_lt_Some).
      by intros sk' [= <-].
  - exists w. split.
    { erewrite tryExcept_Raise; [reflexivity| |done].
      unfold socketClose, bind, getSocket. by rewrite Hs. }
    split; [apply quietRel_refl|]. split; [done|]. by rewrite Hs.
Qed.

Lemma closeSocket_spec a w wr :
  wrappers w !! a = Some wr ->
  exists w', closeSocket a w = (Ret tt, w')
    /\ quietRel a w w'
    /\ wrappers w' !! a = Some (withClientSocket None wr)
    /\ (forall s sk', clientSocket wr = Some s ->
          sockets w' !! s = Some sk' -> s_open sk' = false).
Proof.
  intros Ha. unfold closeSocket. mstep.
  destruct (clientSocket wr) as [s|] eqn:Hcs.
  2:{ eexists; split; [done|]. split; [apply quietRel_refl|].
      split; [|done]. rewrite Ha. f_equal. destruct wr; cbn in *; by subst. }
  destruct (socketClose_spec a s w) as (w1 & Hrun & Hq & Hws & Hcl).
  rewrite (bind_Ret _ _ _ _ _ Hrun). unfold putWrapper, modify.
  eexists; split; [done|]. split; [|split].
  - eapply quietRel_trans; [done|].
    eapply quietRel_wrapper; [by rewrite Hws|done].
  - fields. rewrite Hws. by lookup.
  - intros s0 sk' [= <-]. fields. apply Hcl.
Qed.

Lemma wait_spec a w wr :
  wrappers w !! a = Some wr ->
  exists w' p', wait a w = (Ret tt, w')
    /\ quietRel a w w'
    /\ wrappers w' !! a = Some (withProc p' (withClientSocket None wr))
    /\ (forall s sk', clientSocket wr = Some s ->
          sockets w' !! s = Some sk' -> s_open sk' = false).
Proof.
  intros Ha. unfold wait. mstep.
  assert (Hstep : exists w1 p',
    match proc wr with
    | Some p =>
        tryExcept
          (p' <- liftRes (Proc.wait p) ;; putWrapper a (withProc (Some p') wr))
          isException (fun _ => ret tt)
    | None => ret tt
    end w = (Ret tt, w1)
    /\ quietRel a w w1 /\ wrappers w1 !! a = Some (withProc p' wr)
    /\ sockets w1 = sockets w).
  { destruct (proc wr) as [p|] eqn:Hp.
    - unfold tryExcept. destruct (Proc.wait p) as [p'|e]; msteps.
      + unfold putWrapper, modify. eexists _, _. split; [done|].
        split; [by eapply quietRel_wrapper|]. split; [by lookup|done].
      + cbn. exists w, (Some p). split; [done|]. split; [apply quietRel_refl|].
        split; [|done]. rewrite Ha. f_equal. destruct wr; cbn in *; by subst.
    - exists w, None. split; [done|]. split; [apply quietRel_refl|].
      split; [|done]. rewrite Ha. f_equal. destruct wr; cbn in *; by subst. }
  destruct Hstep as (w1 & p' & Hrun & Hq1 & Ha1 & Hss).
  rewrite (bind_Ret _ _ _ _ _ Hrun).
  destruct (closeSocket_spec a w1 _ Ha1) as (w2 & Hrun2 & Hq2 & Ha2 & Hcl).
  exists w2, p'. split; [done|]. split; [by eapply quietRel_trans|].
  split; [by destruct wr|]. intros s sk' Hcs. by apply Hcl.
Qed.
Lemma getChildPID_eq a w wr :
  wrappers w !! a = Some wr ->
  getChildPID a w
  = (Ret (match serverPort wr with
          | Some port => scanProc port (procuuid wr) (ostable w)
          | None => None
          end), w).
Proof.
  intros Ha. unfold getChildPID. mstep. by destruct (serverPort wr).
Qed.

Lemma killChildren_spec a wr rounds : forall pid w,
  wrappers w !! a = Some wr ->
  exists os, killChildren rounds a pid w = (Ret tt, setOstable os w).
Proof.
  induction rounds as [|rounds IH]; intros pid w Ha.
  - exists (ostable w). cbn. unfold ret. by destruct w.
  - cbn [killChildren].
    assert (Hk : exists os,
      tryExcept (killProcess pid) isException (fun _ => ret tt) w
      = (Ret tt, setOstable os w)).
    { unfold tryExcept, killProcess. case_bool_decide.
      - by eexists.
      - exists (ostable w). cbn. unfold ret. by destruct w. }
    destruct Hk as [os Hk]. rewrite (bind_Ret _ _ _ _ _ Hk).
    rewrite (bind_Ret _ _ _ _ _ (getChildPID_eq a (setOstable os w) wr Ha)).
    destruct (match serverPort wr with Some _ => _ | None => _ end) as [next|].
    + case_bool_decide; [by exists os|].
      destruct (IH next (setOstable os w) Ha) as [os' H']. exists os'.
      by rewrite H'.
    + by exists os.
Qed.

Lemma kill_spec a w wr :
  wrappers w !! a = Some wr ->
  exists w', __kill a w = (Ret tt, w')
    /\ quietRel a w w'
    /\ wrappers w' !! a = Some (wcore wr)
    /\ (forall s sk', clientSocket wr = Some s ->
          sockets w' !! s = Some sk' -> s_open sk' = false).
Proof.
  intros Ha. unfold __kill. mstep.
  assert (Hstep : exists w1 p',
    match proc wr with
    | Some p =>
        tryExcept
          (p' <- liftRes (Proc.kill p) ;; putWrapper a (withProc (Some p') wr))
          isException (fun _ => ret tt)
    | None => ret tt
    end w = (Ret tt, w1)
    /\ quietRel a w w1 /\ wrappers w1 !! a = Some (withProc p' wr)).
  { destruct (proc wr) as [p|] eqn:Hp.
    - unfold tryExcept. destruct (Proc.kill p) as [p'|e]; msteps.
      + unfold putWrapper, modify. eexists _, _. split; [done|].
        split; [by eapply quietRel_wrapper|]. by lookup.
      + cbn. exists w, (Some p). split; [done|]. split; [apply quietRel_refl|].
        rewrite Ha. f_equal. destruct wr; cbn in *; by subst.
    - exists w, None. split; [done|]. split; [apply quietRel_refl|].
      rewrite Ha. f_equal. destruct wr; cbn in *; by subst. }
  destruct Hstep as (w1 & p1 & Hrun1 & Hq1 & Ha1).
  rewrite (bind_Ret _ _ _ _ _ Hrun1).
  rewrite (bind_Ret _ _ _ _ _ (getChildPID_eq a _ _ Ha1)).
  assert (Hstep2 : exists os,
    match (match serverPort (withProc p1 wr) with
           | Some port => scanProc port (procuuid (withProc p1 wr)) (ostable w1)
           | None => None
           end) with
    | Some pid => fun w => killChildren (S (length (ostable w))) a pid w
    | None => ret tt
    end w1 = (Ret tt, setOstable os w1)).
  { destruct (match serverPort (withProc p1 wr) with Some _ => _ | None => _ end).
    - by eapply killChildren_spec.
    - exists (ostable w1). unfold ret. by destruct w1. }
  destruct Hstep2 as (os & Hrun2). rewrite (bind_Ret _ _ _ _ _ Hrun2).
  destruct (wait_spec a (setOstable os w1) _ Ha1) as (w3 & p3 & Hrun3 & Hq3 & Ha3 & Hcl).
  rewrite (bind_Ret _ _ _ _ _ Hrun3).
  mstep. unfold putWrapper, modify.
  eexists. split; [done|]. split; [|split].
  - eapply quietRel_trans; [exact Hq1|].
    eapply quietRel_trans; [apply quietRel_ostable|].
    eapply quietRel_trans; [exact Hq3|].
    eapply quietRel_wrapper; [done|by destruct wr].
  - fields. rewrite list_lookup_insert_eq by (by eapply lookup_lt_Some).
    by destruct wr.
  - intros s sk' Hcs. fields. by apply Hcl.
Qed.
(** ** The finished events of a trace *)

Lemma finishedOf_app u tr1 tr2 :
  finishedOf u (tr1 ++ tr2) = finishedOf u tr1 ++ finishedOf u tr2.
Proof. apply omap_app. Qed.

Lemma finishedOf_quiet u evs :
  forallb (fun e => negb (isFinished e)) evs = true -> finishedOf u evs = [].
Proof.
  induction evs as [|e evs IH]; [done|]. cbn.
  intros [He Hevs]%andb_prop. unfold finishedOf in *. cbn.
  rewrite (IH Hevs). by destruct e.
Qed.

(** ** The frame of the finishing operations *)

Lemma steady_refl w : steady w w.
Proof.
  split; [done|]. split; [apply socketsShrink_refl|].
  intros b wr Hb. exists wr. by repeat split; [|left].
Qed.

Lemma steady_trans w1 w2 w3 : steady w1 w2 -> steady w2 w3 -> steady w1 w3.
Proof.
  intros (L1 & S1 & W1) (L2 & S2 & W2).
  split; [congruence|]. split; [by eapply socketsShrink_trans|].
  intros b wr Hb.
  destruct (W1 b wr Hb) as (wr2 & Hb2 & Hc2 & Hs2).
  destruct (W2 b wr2 Hb2) as (wr3 & Hb3 & Hc3 & Hs3).
  exists wr3. split; [done|]. split; [congruence|].
  destruct Hs3 as [Hs3|[Hs3 Hcl3]].
  - destruct Hs2 as [Hs2|[Hs2 Hcl2]].
    + left. congruence.
    + right. split; [congruence|]. intros s sk3 Hcs Hs.
      destruct S2 as [Hlen S2].
      destruct (sockets w2 !! s) as [sk2|] eqn:E.
      * destruct (S2 s sk2 sk3 E Hs) as (Hop & _).
        destruct (s_open sk3) eqn:Ho; [|done].
        rewrite (Hcl2 s sk2 Hcs E) in Hop. by specialize (Hop eq_refl).
      * apply lookup_ge_None in E. apply lookup_lt_Some in Hs. lia.
  - right. split; [done|]. intros s sk3 Hcs Hs.
    destruct Hs2 as [Hs2|[Hs2 Hcl2]].
    + apply (Hcl3 s sk3); congruence.
    + destruct S2 as [Hlen S2].
      destruct (sockets w2 !! s) as [sk2|] eqn:E.
      * destruct (S2 s sk2 sk3 E Hs) as (Hop & _).
        destruct (s_open sk3) eqn:Ho; [|done].
        rewrite (Hcl2 s sk2 Hcs E) in Hop. by specialize (Hop eq_refl).
      * apply lookup_ge_None in E. apply lookup_lt_Some in Hs. lia.
Qed.

Lemma steady_statics w w' : steady w w' -> statics w' = statics w.
Proof.
  intros (L & _ & W). apply list_eq. intros b. unfold statics.
  rewrite !list_lookup_fmap.
  destruct (wrappers w !! b) as [wr|] eqn:E.
  - destruct (W b wr E) as (wr' & -> & Hc & _). cbn. by rewrite Hc.
  - apply lookup_ge_None in E.
    rewrite (proj2 (lookup_ge_None (wrappers w') b)); [done|lia].
Qed.

(** A quiet step is steady when it drops the socket of the wrapper only
    after closing it. *)
Lemma quietRel_steady a w w' :
  quietRel a w w' ->
  (forall wr, wrappers w !! a = Some wr ->
     exists wr', wrappers w' !! a = Some wr'
       /\ (clientSocket wr' = clientSocket wr
           \/ (clientSocket wr' = None
               /\ forall s sk', clientSocket wr = Some s ->
                    sockets w' !! s = Some sk' -> s_open sk' = false))) ->
  steady w w'.
Proof.
  intros Hq Ha. pose proof Hq as (V & S & O & K).
  split.
  { assert (length (statics w') = length (statics w)) by congruence.
    unfold statics in *. by rewrite !length_fmap in *. }
  split; [done|].
  intros b wr Hb. destruct (decide (b = a)) as [->|Hne].
  - destruct (Ha wr Hb) as (wr' & Hb' & Hs).
    destruct (quietRel_wcore _ _ _ _ _ Hq Hb) as (wr'' & Hb'' & Hc).
    rewrite Hb' in Hb''. injection Hb'' as <-. by exists wr'.
  - exists wr. rewrite (O b Hne). by repeat split; [|left].
Qed.

Lemma disconnectSocket_steady a w :
  is_Some (wrappers w !! a) ->
  exists w', disconnectSocket a w = (Ret tt, w')
    /\ quietRel a w w' /\ steady w w' /\ wrappers w' = wrappers w.
Proof.
  intros Ha. destruct (disconnectSocket_spec a w Ha) as (w' & Hrun & Hq & Hw).
  exists w'. split; [done|]. split; [done|]. split; [|done].
  split; [by rewrite Hw|]. split; [apply Hq|].
  intros b wr Hb. rewrite Hw. exists wr.
  split; [done|]. split; [done|]. by left.
Qed.

Lemma kill_steady a w wr :
  wrappers w !! a = Some wr ->
  exists w', __kill a w = (Ret tt, w')
    /\ quietRel a w w' /\ steady w w'
    /\ wrappers w' !! a = Some (wcore wr)
    /\ (forall s sk', clientSocket wr = Some s ->
          sockets w' !! s = Some sk' -> s_open sk' = false).
Proof.
  intros Ha. destruct (kill_spec a w wr Ha) as (w' & Hrun & Hq & Ha' & Hcl).
  exists w'. split; [done|]. split; [done|]. split; [|done].
  apply (quietRel_steady a); [done|].
  intros wr0 Ha0. rewrite Ha in Ha0. injection Ha0 as <-.
  exists (wcore wr). split; [done|]. right. by split.
Qed.

Lemma wait_steady a w wr :
  wrappers w !! a = Some wr ->
  exists w', wait a w = (Ret tt, w')
    /\ quietRel a w w' /\ steady w w'
    /\ (exists wr', wrappers w' !! a = Some wr' /\ clientSocket wr' = None)
    /\ (forall s sk', clientSocket wr = Some s ->
          sockets w' !! s = Some sk' -> s_open sk' = false).
Proof.
  intros Ha. destruct (wait_spec a w wr Ha) as (w' & p' & Hrun & Hq & Ha' & Hcl).
  exists w'. split; [done|]. split; [done|]. split; [|split; [|done]].
  - apply (quietRel_steady a); [done|].
    intros wr0 Ha0. rewrite Ha in Ha0. injection Ha0 as <-.
    eexists. split; [done|]. right. by split.
  - eexists. by split.
Qed.
Lemma consolesGrow_refl w : consolesGrow w w.
Proof.
  split; [done|]. intros c cs Hc. exists cs, []. by rewrite app_nil_r.
Qed.

Lemma consolesGrow_trans w1 w2 w3 :
  consolesGrow w1 w2 -> consolesGrow w2 w3 -> consolesGrow w1 w3.
Proof.
  intros [L1 G1] [L2 G2]. split; [congruence|].
  intros c cs Hc.
  destruct (G1 c cs Hc) as (cs2 & m2 & Hc2 & E2 & U2 & K2).
  destruct (G2 c cs2 Hc2) as (cs3 & m3 & Hc3 & E3 & U3 & K3).
  exists cs3, (m2 ++ m3). split; [done|].
  rewrite E3, E2, <- app_assoc. split; [done|]. split; congruence.
Qed.

Lemma consolesGrow_insert w c cs more fin :
  consoles w !! c = Some cs ->
  consolesGrow w
    (setConsoles (<[c := mkConsole (c_procuuid cs) (c_kind cs)
                           (c_content cs ++ more) fin]> (consoles w)) w).
Proof.
  intros Hc. split; [cbn; by rewrite length_insert|].
  intros c0 cs0 Hc0. cbn.
  destruct (decide (c0 = c)) as [->|Hne].
  - rewrite list_lookup_insert_eq by (by eapply lookup_lt_Some).
    rewrite Hc in Hc0. injection Hc0 as <-. by eexists _, more.
  - rewrite list_lookup_insert_ne by done. exists cs0, [].
    by rewrite app_nil_r.
Qed.

Lemma finishRel_refl w : finishRel w w.
Proof. split; [apply steady_refl|]. split; [done|apply consolesGrow_refl]. Qed.

Lemma finishRel_trans w1 w2 w3 :
  finishRel w1 w2 -> finishRel w2 w3 -> finishRel w1 w3.
Proof.
  intros (S1 & M1 & G1) (S2 & M2 & G2).
  split; [by eapply steady_trans|]. split; [congruence|].
  by eapply consolesGrow_trans.
Qed.

Lemma quietRel_finishRel a w w' :
  quietRel a w w' -> steady w w' -> finishRel w w'.
Proof.
  intros (V & _) S. split; [done|].
  injection V as Hp Hpp Hwt Hpt Hm Hc Ht.
  split; [unfold managerRest; congruence|].
  split; [congruence|]. intros c cs Hcs. exists cs, []. rewrite Hc, app_nil_r. done.
Qed.

Lemma finishRel_processes w ps : finishRel w (setProcesses ps w).
Proof.
  split; [|split; [done|]].
  - split; [done|]. split; [exact (socketsShrink_refl w)|].
    intros b wr Hb. exists wr. split; [done|]. split; [done|]. by left.
  - exact (consolesGrow_refl w).
Qed.

Lemma bind_onConsole {B} c cs f (k : unit -> M B) w :
  consoles w !! c = Some cs ->
  bind (onConsole c f) k w
  = k tt (setConsoles (<[c := f cs]> (consoles w)) w).
Proof. intros H. unfold bind, onConsole. by rewrite H. Qed.

Lemma getProcessIndex_Some w uuid i :
  getProcessIndex w uuid = Some i ->
  exists item, processes w !! i = Some item
    /\ itemUuid w item = Some uuid
    /\ forall j item', processes w !! j = Some item' -> (j < i)%nat ->
         itemUuid w item' <> Some uuid.
Proof.
  unfold getProcessIndex. intros H.
  apply fmap_Some in H as [[i0 item] [H ->]].
  apply list_find_Some in H as (Hl & HP & Hmin). by exists item.
Qed.

Lemma wellFormed_item w i item :
  wellFormed w = true -> processes w !! i = Some item ->
  (exists wr, wrappers w !! procWrapper item = Some wr)
  /\ forall c, widget item = Some c -> exists cs, consoles w !! c = Some cs.
Proof.
  intros Hwf Hi. unfold wellFormed in Hwf.
  rewrite forallb_forall in Hwf.
  assert (Hin : In item (processes w))
    by (apply list_elem_of_In, list_elem_of_lookup; eauto).
  specialize (Hwf item Hin). unfold itemOk in Hwf.
  apply andb_prop in Hwf as [H1 H2]. split.
  - apply bool_decide_eq_true_1 in H1. destruct H1 as [wr H1]. by exists wr.
  - intros c Hc. rewrite Hc in H2. apply bool_decide_eq_true_1 in H2.
    by apply lookup_lt_is_Some in H2 as [cs ?]; exists cs.
Qed.

(** What the slot [__onProcessFinished] does to a sound store. *)
Lemma onProcessFinished_spec w uuid code :
  wellFormed w = true ->
  exists w' evs,
    onProcessFinished uuid code w = (Ret tt, w')
    /\ finishRel w w'
    /\ trace w' = trace w ++ evs
    /\ forallb (fun e => negb (isFinished e)) evs = true
    /\ processes w'
       = match getProcessIndex w uuid with
         | Some i => delete i (processes w)
         | None => processes w
         end
    /\ (forall i item wr c,
          getProcessIndex w uuid = Some i ->
          processes w !! i = Some item ->
          wrappers w !! procWrapper item = Some wr ->
          redirected wr = true -> widget item = Some c ->
          (exists cs cs', consoles w !! c = Some cs
             /\ consoles w' !! c = Some cs'
             /\ c_content cs'
                = c_content cs ++ [IDEMessage (finishedMessage code).1])
          /\ (code <> KILLED -> code <> DISCONNECTED ->
              (exists wr', wrappers w' !! procWrapper item = Some wr'
                 /\ clientSocket wr' = None)
              /\ forall s sk', clientSocket wr = Some s ->
                   sockets w' !! s = Some sk' -> s_open sk' = false)).
Proof.
  intros Hwf. unfold onProcessFinished.
  destruct (getProcessIndex w uuid) as [i|] eqn:Hidx.
  2:{ exists w, []. rewrite app_nil_r.
      split; [done|]. split; [apply finishRel_refl|]. by repeat split. }
  destruct (getProcessIndex_Some _ _ _ Hidx) as (item & Hi & Hu & _).
  destruct (wellFormed_item _ _ _ Hwf Hi) as ([wr Hwr] & Hwid).
  pose proof (lookup_lt_Some _ _ _ Hi) as Hlt.
  msteps.
  destruct (redirected wr) eqn:Hrd; [destruct (widget item) as [c|] eqn:Hw|].
  - destruct (Hwid c eq_refl) as [cs Hcs].
    unfold scriptFinished. erewrite bind_bind, bind_onConsole by done.
    cbv beta.
    set (w1 := setConsoles _ w).
    assert (Hmid : exists w2,
      (if bool_decide (code = KILLED) then ret tt
       else if bool_decide (code = DISCONNECTED) then ret tt
            else wait (procWrapper item)) w1 = (Ret tt, w2)
      /\ quietRel (procWrapper item) w1 w2 /\ steady w1 w2
      /\ (code <> KILLED -> code <> DISCONNECTED ->
          (exists wr', wrappers w2 !! procWrapper item = Some wr'
             /\ clientSocket wr' = None)
          /\ forall s sk', clientSocket wr = Some s ->
               sockets w2 !! s = Some sk' -> s_open sk' = false)).
    { repeat case_bool_decide.
      - exists w1. split; [done|]. split; [apply quietRel_refl|].
        split; [apply steady_refl|]. done.
      - exists w1. split; [done|]. split; [apply quietRel_refl|].
        split; [apply steady_refl|]. done.
      - destruct (wait_steady (procWrapper item) w1 wr Hwr)
          as (w2 & Hrun & Hq & Hs & Hn & Hcl).
        exists w2. split; [done|]. split; [done|]. split; [done|]. done. }
    destruct Hmid as (w2 & Hrun & Hq & Hs & Hext).
    rewrite bind_bind, (bind_Ret _ _ _ _ _ Hrun).
    pose proof Hq as (V & _). injection V as Hp2 Hpp2 Hwt2 Hpt2 Hm2 Hc2 Ht2.
    assert (Hcs2 : consoles w2 !! c = Some (withFinished true cs)).
    { rewrite Hc2. unfold w1. by lookup. }
    msteps.
    rewrite delItem_lt by (fields; by rewrite Hp2).
    eexists _, [_; _]. split; [reflexivity|]. fields.
    split.
    { split; [|split].
      - destruct Hs as (L & S & W). split; [done|]. split; [done|]. done.
      - unfold managerRest. fields. by rewrite Hpp2, Hwt2, Hpt2, Hm2.
      - fields. rewrite Hc2. unfold w1. fields.
        rewrite list_insert_insert_eq.
        apply (consolesGrow_insert w c cs [IDEMessage (finishedMessage code).1] true Hcs). }
    split; [by rewrite Ht2, <- app_assoc|].
    split; [done|]. split; [by rewrite Hp2|].
    intros i0 item0 wr0 c0 [= <-] Hi0 Hwr0 _ Hw0.
    rewrite Hi in Hi0. injection Hi0 as <-.
    rewrite Hwr in Hwr0. injection Hwr0 as <-.
    rewrite Hw in Hw0. injection Hw0 as <-.
    split; [|exact Hext].
    exists cs, (withContent (c_content (withFinished true cs)
                               ++ [IDEMessage (finishedMessage code).1])
                  (withFinished true cs)).
    split; [done|]. split; [|done].
    rewrite Hc2. unfold w1. by lookup.
  - msteps. rewrite delItem_lt by done.
    exists (setProcesses (delete i (processes w)) w), []. rewrite app_nil_r.
    split; [done|]. split; [apply finishRel_processes|].
    split; [done|]. split; [done|]. split; [done|].
    intros i0 item0 wr0 c0 [= <-] Hi0 Hwr0 _ Hw0;
      rewrite Hi in Hi0; injection Hi0 as <-; congruence.
  - msteps. rewrite delItem_lt by done.
    exists (setProcesses (delete i (processes w)) w), []. rewrite app_nil_r.
    split; [done|]. split; [apply finishRel_processes|].
    split; [done|]. split; [done|]. split; [done|].
    intros i0 item0 wr0 c0 [= <-] Hi0 Hwr0 Hrd0 Hw0;
      rewrite Hi in Hi0; injection Hi0 as <-; congruence.
Qed.
Lemma itemUuid_statics w item :
  itemUuid w item = procuuid <$> (statics w !! procWrapper item).
Proof.
  unfold itemUuid, statics. rewrite list_lookup_fmap.
  by destruct (wrappers w !! procWrapper item).
Qed.

Lemma getProcessIndex_ext w w' uuid :
  statics w' = statics w -> processes w' = processes w ->
  getProcessIndex w' uuid = getProcessIndex w uuid.
Proof.
  intros Hs Hp. unfold getProcessIndex. rewrite Hp. f_equal.
  apply list_find_ext. intros item. by rewrite !itemUuid_statics, Hs.
Qed.

Lemma wellFormed_mono w w' :
  wellFormed w = true ->
  length (wrappers w') = length (wrappers w) ->
  length (consoles w') = length (consoles w) ->
  (forall item, item ∈ processes w' -> item ∈ processes w) ->
  wellFormed w' = true.
Proof.
  unfold wellFormed. rewrite !forallb_forall. intros Hwf Lw Lc Hsub item Hin.
  apply list_elem_of_In, Hsub, list_elem_of_In in Hin.
  specialize (Hwf item Hin). unfold itemOk in *.
  apply andb_prop in Hwf as [H1 H2]. apply andb_true_intro. split.
  - apply bool_decide_eq_true_1 in H1. apply bool_decide_eq_true_2.
    apply lookup_lt_is_Some. apply lookup_lt_is_Some in H1. lia.
  - destruct (widget item); [|done].
    apply bool_decide_eq_true_1 in H2. apply bool_decide_eq_true_2. lia.
Qed.

Lemma quietRel_wellFormed a w w' :
  quietRel a w w' -> wellFormed w = true -> wellFormed w' = true.
Proof.
  intros (V & S & _) Hwf. injection V as Hp _ _ _ _ Hc _.
  apply (wellFormed_mono w); [done| | |].
  - assert (length (statics w') = length (statics w)) by congruence.
    unfold statics in *. by rewrite !length_fmap in *.
  - by rewrite Hc.
  - by rewrite Hp.
Qed.

Lemma quietRel_getProcessIndex a w w' uuid :
  quietRel a w w' -> getProcessIndex w' uuid = getProcessIndex w uuid.
Proof.
  intros (V & S & _). injection V as Hp _ _ _ _ _ _.
  by apply getProcessIndex_ext.
Qed.

Lemma withoutEntry_sub w uuid item :
  item ∈ withoutEntry w uuid -> item ∈ processes w.
Proof.
  unfold withoutEntry. destruct (getProcessIndex w uuid); [|done].
  apply list_elem_of_delete_inv.
Qed.

Lemma emitFinished_spec w a wr code :
  wellFormed w = true ->
  wrappers w !! a = Some wr ->
  exists w' evs,
    emitFinished a code w = (Ret tt, w')
    /\ finishRel w w'
    /\ wellFormed w' = true
    /\ trace w' = trace w ++ SigFinished (procuuid wr) code :: evs
    /\ forallb (fun e => negb (isFinished e)) evs = true
    /\ processes w'
       = (if finishedSlot wr then withoutEntry w (procuuid wr) else processes w)
    /\ (forall i item wr0 c,
          finishedSlot wr = true ->
          getProcessIndex w (procuuid wr) = Some i ->
          processes w !! i = Some item ->
          wrappers w !! procWrapper item = Some wr0 ->
          redirected wr0 = true -> widget item = Some c ->
          code <> KILLED -> code <> DISCONNECTED ->
          exists wr', wrappers w' !! procWrapper item = Some wr'
            /\ clientSocket wr' = None).
Proof.
  intros Hwf Ha. unfold emitFinished. msteps.
  destruct (finishedSlot wr).
  - set (w1 := setTrace _ w).
    assert (Hwf1 : wellFormed w1 = true) by done.
    destruct (onProcessFinished_spec w1 (procuuid wr) code Hwf1)
      as (w' & evs & Hrun & Hf & Ht & Hq & Hp & Hx).
    exists w', evs. split; [done|]. split; [|split; [|split; [|split; [|split]]]].
    6:{ intros i item wr0 c _ Hgi Hi Hwr0 Hrd Hw Hk Hd.
        destruct (Hx i item wr0 c Hgi Hi Hwr0 Hrd Hw) as [_ Hy].
        by destruct (Hy Hk Hd) as [Hz _]. }
    + destruct Hf as (S & Mr & G). done.
    + destruct Hf as ((L & _) & _ & (Lc & _)).
      apply (wellFormed_mono w1); try done.
      rewrite Hp. apply (withoutEntry_sub w1).
    + rewrite Ht. unfold w1. fields. by rewrite <- app_assoc.
    + done.
    + done.
  - exists (setTrace (trace w ++ [SigFinished (procuuid wr) code]) w), [].
    split; [done|]. split; [|by repeat (split; [done|])].
    split; [|split; [done|]].
    + split; [done|]. split; [exact (socketsShrink_refl w)|].
      intros b wr0 Hb. exists wr0. split; [done|]. split; [done|]. by left.
    + exact (consolesGrow_refl w).
Qed.

Lemma steady_noSocket w w' a wr :
  steady w w' -> wrappers w !! a = Some wr -> clientSocket wr = None ->
  exists wr', wrappers w' !! a = Some wr' /\ clientSocket wr' = None.
Proof.
  intros (_ & _ & W) Ha Hn. destruct (W a wr Ha) as (wr' & Ha' & _ & Hs).
  exists wr'. split; [done|]. destruct Hs as [Hs|[Hs _]]; congruence.
Qed.

Lemma steady_closed w w' s sk' :
  steady w w' ->
  (forall sk, sockets w !! s = Some sk -> s_open sk = false) ->
  sockets w' !! s = Some sk' -> s_open sk' = false.
Proof.
  intros (_ & (Hlen & Hsh) & _) Hcl Hs'.
  destruct (sockets w !! s) as [sk|] eqn:E.
  - destruct (Hsh s sk sk' E Hs') as (Hop & _).
    destruct (s_open sk') eqn:Ho; [|done].
    rewrite (Hcl sk eq_refl) in Hop. by specialize (Hop eq_refl).
  - apply lookup_ge_None in E. apply lookup_lt_Some in Hs'. lia.
Qed.

(** What [stop] does to a sound store: it returns, the wrapper has lost
    its socket and its process, the one finished event with the code
    [KILLED] is in the trace, and the slot of the run manager, if it is
    connected, has taken the entry of the id out of the registry. *)
Lemma stop_spec w a wr :
  wellFormed w = true ->
  wrappers w !! a = Some wr ->
  exists w' evs,
    stop a w = (Ret tt, w')
    /\ finishRel w w'
    /\ wellFormed w' = true
    /\ trace w' = trace w ++ SigFinished (procuuid wr) KILLED :: evs
    /\ forallb (fun e => negb (isFinished e)) evs = true
    /\ processes w'
       = (if finishedSlot wr then withoutEntry w (procuuid wr) else processes w)
    /\ (forall s sk', clientSocket wr = Some s ->
          sockets w' !! s = Some sk' -> s_open sk' = false)
    /\ (exists wr', wrappers w' !! a = Some wr' /\ clientSocket wr' = None).
Proof.
  intros Hwf Ha. unfold stop.
  destruct (disconnectSocket_steady a w (ex_intro _ wr Ha))
    as (w1 & Hrun1 & Hq1 & Hs1 & Hw1).
  rewrite (bind_Ret _ _ _ _ _ Hrun1).
  assert (Ha1 : wrappers w1 !! a = Some wr) by (by rewrite Hw1).
  destruct (kill_steady a w1 wr Ha1) as (w2 & Hrun2 & Hq2 & Hs2 & Ha2 & Hcl).
  rewrite (bind_Ret _ _ _ _ _ Hrun2).
  pose proof (quietRel_trans _ _ _ _ Hq1 Hq2) as Hq.
  pose proof (quietRel_wellFormed _ _ _ Hq Hwf) as Hwf2.
  destruct (emitFinished_spec w2 a (wcore wr) KILLED Hwf2 Ha2)
    as (w3 & evs & Hrun3 & Hf3 & Hwf3 & Ht3 & Hq3 & Hp3 & _).
  exists w3, evs. split; [done|].
  pose proof Hq as (V & _). injection V as Hp _ _ _ _ _ Ht.
  split; [|split; [done|split; [|split; [done|split; [|split]]]]].
  - eapply finishRel_trans; [|exact Hf3].
    apply (quietRel_finishRel a); [done|]. by eapply steady_trans.
  - rewrite Ht3, Ht. by destruct wr.
  - rewrite Hp3. replace (finishedSlot (wcore wr)) with (finishedSlot wr)
      by (by destruct wr).
    replace (procuuid (wcore wr)) with (procuuid wr) by (by destruct wr).
    destruct (finishedSlot wr); [|done].
    unfold withoutEntry. by rewrite (quietRel_getProcessIndex a w w2), Hp.
  - intros s sk3 Hcs Hs3.
    apply (steady_closed w2 w3 s sk3); [apply Hf3| |done].
    intros sk2. by apply Hcl.
  - apply (steady_noSocket w2 w3 a (wcore wr)); [apply Hf3|done|by destruct wr].
Qed.
(** ** stop, called again and again *)

Lemma finishRel_wrapper w w' a wr :
  finishRel w w' -> wrappers w !! a = Some wr ->
  exists wr', wrappers w' !! a = Some wr' /\ wcore wr' = wcore wr.
Proof.
  intros ((_ & _ & W) & _) Ha.
  destruct (W a wr Ha) as (wr' & Ha' & Hc & _). by exists wr'.
Qed.

Lemma wcore_procuuid wr wr' : wcore wr' = wcore wr -> procuuid wr' = procuuid wr.
Proof. destruct wr, wr'. by intros [=]. Qed.

Lemma wcore_redirected wr wr' :
  wcore wr' = wcore wr -> redirected wr' = redirected wr.
Proof. destruct wr, wr'. by intros [=]. Qed.

Lemma wcore_finishedSlot wr wr' :
  wcore wr' = wcore wr -> finishedSlot wr' = finishedSlot wr.
Proof. destruct wr, wr'. by intros [=]. Qed.

Lemma wcore_state wr wr' : wcore wr' = wcore wr -> state wr' = state wr.
Proof. destruct wr, wr'. by intros [=]. Qed.

Lemma finishedOf_emitted u code evs :
  forallb (fun e => negb (isFinished e)) evs = true ->
  finishedOf u (SigFinished u code :: evs) = [code].
Proof.
  intros H. change (SigFinished u code :: evs) with ([SigFinished u code] ++ evs).
  rewrite finishedOf_app, (finishedOf_quiet _ _ H), app_nil_r.
  unfold finishedOf. cbn. by rewrite bool_decide_eq_true_2.
Qed.

(** C2, as the code has it: [stop] has no memory of an earlier call.
    Every call returns and emits the finished event with the code
    [KILLED] once more, so that [n] calls on one wrapper emit it [n]
    times, whatever the state of the child process. *)
Theorem stop_emits_on_every_call (n : nat) (w : World) (a : nat) (wr : Wrapper) :
  wellFormed w = true ->
  wrappers w !! a = Some wr ->
  exists w',
    stopTimes n a w = (Ret tt, w')
    /\ finishedOf (procuuid wr) (trace w')
       = finishedOf (procuuid wr) (trace w) ++ replicate n KILLED.
Proof.
  revert w wr. induction n as [|n IH]; intros w wr Hwf Ha.
  - exists w. by rewrite app_nil_r.
  - cbn [stopTimes].
    destruct (stop_spec w a wr Hwf Ha)
      as (w1 & evs & Hrun & Hf & Hwf1 & Ht & Hq & _).
    rewrite (bind_Ret _ _ _ _ _ Hrun).
    destruct (finishRel_wrapper _ _ _ _ Hf Ha) as (wr1 & Ha1 & Hc).
    destruct (IH w1 wr1 Hwf1 Ha1) as (w' & Hrun' & Ht').
    exists w'. split; [done|].
    rewrite (wcore_procuuid _ _ Hc) in Ht'.
    rewrite Ht', Ht, finishedOf_app, (finishedOf_emitted _ _ _ Hq).
    by rewrite <- app_assoc.
Qed.
(** ** The registry as [run] builds it *)

Lemma entryOk_statics w w' item :
  statics w' = statics w -> entryOk w' item = entryOk w item.
Proof.
  intros Hs. unfold entryOk.
  assert (E : statics w' !! procWrapper item = statics w !! procWrapper item)
    by congruence.
  unfold statics in E. rewrite !list_lookup_fmap in E.
  destruct (wrappers w' !! procWrapper item) as [wr'|],
           (wrappers w !! procWrapper item) as [wr|]; try done.
  cbn in E. injection E as E _ E0 E1 _ E3 _. by rewrite E0, E1, E3.
Qed.

Lemma itemUuid_ext w w' item :
  statics w' = statics w -> itemUuid w' item = itemUuid w item.
Proof. intros Hs. by rewrite !itemUuid_statics, Hs. Qed.

Lemma fmap_itemUuid_ext w w' (l : list RemoteProcess) :
  statics w' = statics w -> itemUuid w' <$> l = itemUuid w <$> l.
Proof.
  intros Hs. apply list_eq. intros i. rewrite !list_lookup_fmap.
  destruct (l !! i); [|done]. cbn. f_equal. by apply itemUuid_ext.
Qed.

Lemma uniqueIds_index w i item u :
  uniqueIds w -> processes w !! i = Some item -> itemUuid w item = Some u ->
  getProcessIndex w u = Some i.
Proof.
  intros Hnd Hi Hu. unfold getProcessIndex.
  apply fmap_Some. exists (i, item). split; [|done].
  apply list_find_Some. split; [done|]. split; [done|].
  intros j item' Hj Hlt Hu'.
  assert (Hi' : (itemUuid w <$> processes w) !! i = Some (Some u))
    by (by rewrite list_lookup_fmap, Hi; cbn; rewrite Hu).
  assert (Hj' : (itemUuid w <$> processes w) !! j = Some (Some u))
    by (by rewrite list_lookup_fmap, Hj; cbn; rewrite Hu').
  pose proof (NoDup_lookup _ _ _ _ Hnd Hi' Hj'). lia.
Qed.

Lemma registryOk_delete w w' i :
  registryOk w ->
  statics w' = statics w ->
  length (consoles w') = length (consoles w) ->
  processes w' = delete i (processes w) ->
  registryOk w'.
Proof.
  intros (Hwf & Hnd & Hok) Hs Hc Hp. split; [|split].
  - apply (wellFormed_mono w); [done| |done|].
    + assert (length (statics w') = length (statics w)) by congruence.
      unfold statics in *. by rewrite !length_fmap in *.
    + rewrite Hp. intros item. apply list_elem_of_delete_inv.
  - unfold uniqueIds in *. rewrite Hp.
    rewrite (fmap_itemUuid_ext w w') by done.
    rewrite list_fmap_delete. eapply sublist_NoDup; [done|]. apply sublist_delete.
  - rewrite forallb_forall in *. intros item Hin. rewrite Hp in Hin.
    apply list_elem_of_In, list_elem_of_delete_inv, list_elem_of_In in Hin.
    rewrite (entryOk_statics w w') by done. by apply Hok.
Qed.

Lemma registryOk_same w w' :
  registryOk w ->
  statics w' = statics w ->
  length (consoles w') = length (consoles w) ->
  processes w' = processes w ->
  registryOk w'.
Proof.
  intros (Hwf & Hnd & Hok) Hs Hc Hp. split; [|split].
  - apply (wellFormed_mono w); [done| |done|].
    + assert (length (statics w') = length (statics w)) by congruence.
      unfold statics in *. by rewrite !length_fmap in *.
    + by rewrite Hp.
  - unfold uniqueIds in *. rewrite Hp.
    by rewrite (fmap_itemUuid_ext w w') by done.
  - rewrite forallb_forall in *. intros item Hin. rewrite Hp in Hin.
    rewrite (entryOk_statics w w') by done. by apply Hok.
Qed.

Lemma registryOk_entry w i item :
  registryOk w -> processes w !! i = Some item ->
  exists wr, wrappers w !! procWrapper item = Some wr
    /\ finishedSlot wr = true
    /\ itemUuid w item = Some (procuuid wr)
    /\ getProcessIndex w (procuuid wr) = Some i
    /\ (redirected wr = true ->
        exists c cs, widget item = Some c /\ consoles w !! c = Some cs)
    /\ (state wr = Some STATE_PROLOGUE -> redirected wr = true).
Proof.
  intros (Hwf & Hnd & Hok) Hi.
  destruct (wellFormed_item _ _ _ Hwf Hi) as ([wr Hwr] & Hwid).
  rewrite forallb_forall in Hok.
  assert (Hin : In item (processes w))
    by (apply list_elem_of_In, list_elem_of_lookup; eauto).
  specialize (Hok item Hin). unfold entryOk in Hok. rewrite Hwr in Hok.
  apply andb_prop in Hok as [[Hfs Hrw]%andb_prop Hst].
  assert (Hu : itemUuid w item = Some (procuuid wr))
    by (unfold itemUuid; by rewrite Hwr).
  exists wr. split; [done|]. split; [done|]. split; [done|].
  split; [by eapply uniqueIds_index|]. split.
  - intros Hrd. rewrite Hrd in Hrw. cbn in Hrw.
    apply bool_decide_eq_true_1 in Hrw as [c Hc].
    destruct (Hwid c Hc) as [cs Hcs]. by exists c, cs.
  - intros Hp. by rewrite bool_decide_eq_true_2 in Hst by done.
Qed.

(** [stop] on the wrapper of a tracked entry. *)
Lemma stop_tracked w i item :
  registryOk w -> processes w !! i = Some item ->
  exists wr w' evs,
    wrappers w !! procWrapper item = Some wr
    /\ stop (procWrapper item) w = (Ret tt, w')
    /\ finishRel w w'
    /\ registryOk w'
    /\ trace w' = trace w ++ SigFinished (procuuid wr) KILLED :: evs
    /\ forallb (fun e => negb (isFinished e)) evs = true
    /\ processes w' = delete i (processes w)
    /\ (forall s sk', clientSocket wr = Some s ->
          sockets w' !! s = Some sk' -> s_open sk' = false)
    /\ (exists wr', wrappers w' !! procWrapper item = Some wr'
          /\ clientSocket wr' = None).
Proof.
  intros Hok Hi.
  destruct (registryOk_entry _ _ _ Hok Hi) as (wr & Hwr & Hfs & Hu & Hidx & _).
  destruct (stop_spec w _ wr (proj1 Hok) Hwr)
    as (w' & evs & Hrun & Hf & Hwf' & Ht & Hq & Hp & Hcl & Hns).
  rewrite Hfs in Hp. unfold withoutEntry in Hp. rewrite Hidx in Hp.
  exists wr, w', evs. split; [done|]. split; [done|]. split; [done|].
  split; [|done].
  apply (registryOk_delete w w' i); try done.
  - apply steady_statics, Hf.
  - apply Hf.
Qed.
(** ** killAll *)

Lemma isRedirected_statics w w' item :
  statics w' = statics w -> isRedirected w' item = isRedirected w item.
Proof.
  intros Hs. unfold isRedirected.
  assert (E : statics w' !! procWrapper item = statics w !! procWrapper item)
    by congruence.
  unfold statics in E. rewrite !list_lookup_fmap in E.
  destruct (wrappers w' !! procWrapper item) as [wr'|],
           (wrappers w !! procWrapper item) as [wr|]; try done.
  cbn in E. by injection E as _ _ E0 _ _ _ _.
Qed.

Lemma filter_ext_statics w w' (l : list RemoteProcess) :
  statics w' = statics w ->
  List.filter (fun item => negb (isRedirected w' item)) l
  = List.filter (fun item => negb (isRedirected w item)) l.
Proof.
  intros Hs. apply List.filter_ext. intros item.
  by rewrite (isRedirected_statics w w').
Qed.

Lemma killedIn_statics w w' u l :
  statics w' = statics w -> killedIn w' u l = killedIn w u l.
Proof.
  intros Hs. unfold killedIn. f_equal. apply List.filter_ext. intros item.
  by rewrite (isRedirected_statics w w'), (itemUuid_ext w w').
Qed.

Lemma dropped_steady w w' wr a :
  steady w w' -> dropped w wr a -> dropped w' wr a.
Proof.
  intros Hs [(wr1 & Ha & Hn) Hcl]. split.
  - by eapply steady_noSocket.
  - intros s sk' Hcs Hs'. eapply steady_closed; [done| |done].
    intros sk. by apply Hcl.
Qed.

Lemma stopLoop_spec (pre : list RemoteProcess) : forall tail w,
  processes w = pre ++ tail ->
  registryOk w ->
  exists w',
    stopLoop (length pre) w = (Ret tt, w')
    /\ finishRel w w'
    /\ registryOk w'
    /\ processes w' = List.filter (fun item => negb (isRedirected w item)) pre ++ tail
    /\ (forall u, finishedOf u (trace w')
                  = finishedOf u (trace w) ++ replicate (killedIn w u pre) KILLED)
    /\ (forall item wr, item ∈ pre ->
          wrappers w !! procWrapper item = Some wr -> redirected wr = true ->
          dropped w' wr (procWrapper item)).
Proof.
  induction pre as [|x pre IH] using rev_ind; intros tail w Hp Hok.
  - exists w. split; [done|]. split; [apply finishRel_refl|]. split; [done|].
    split; [done|]. split.
    + intros u. by rewrite app_nil_r.
    + intros item wr Hin. by apply elem_of_nil in Hin.
  - rewrite length_app, Nat.add_1_r. cbn [stopLoop].
    assert (Hidx : processes w !! length pre = Some x).
    { rewrite Hp, <- app_assoc. cbn. by rewrite list_lookup_middle. }
    destruct (registryOk_entry _ _ _ Hok Hidx) as (wr & Hwr & Hfs & Hu & Hgi & _).
    msteps.
    assert (Hdel : delete (length pre) (processes w) = pre ++ tail).
    { rewrite Hp, <- app_assoc. cbn. by rewrite (delete_middle pre tail x). }
    assert (Hstep : exists w1,
      (if redirected wr then stop (procWrapper x) else ret tt) w = (Ret tt, w1)
      /\ finishRel w w1 /\ registryOk w1
      /\ processes w1 = (if redirected wr then pre ++ tail else pre ++ [x] ++ tail)
      /\ (forall u, finishedOf u (trace w1)
                    = finishedOf u (trace w) ++ replicate (killedIn w u [x]) KILLED)
      /\ (redirected wr = true -> dropped w1 wr (procWrapper x))).
    { destruct (redirected wr) eqn:Hrd.
      - destruct (stop_tracked _ _ _ Hok Hidx)
          as (wr0 & w1 & evs & Hwr0 & Hrun & Hf & Hok1 & Ht & Hq & Hp1 & Hcl & Hns).
        rewrite Hwr in Hwr0. injection Hwr0 as <-.
        exists w1. split; [done|]. split; [done|]. split; [done|].
        split; [by rewrite Hp1|]. split; [|by intros _; split].
        intros u. rewrite Ht, finishedOf_app. f_equal.
        unfold killedIn. cbn. unfold isRedirected. rewrite Hwr, Hrd, Hu. cbn.
        pose proof (finishedOf_quiet u _ Hq) as Hq'. unfold finishedOf in Hq'.
        rewrite Hq'.
        destruct (decide (procuuid wr = u)) as [->|Hne].
        + by rewrite !bool_decide_eq_true_2.
        + rewrite !bool_decide_eq_false_2; [done| |done]. congruence.
      - exists w. split; [done|]. split; [apply finishRel_refl|]. split; [done|].
        split; [by rewrite Hp, <- app_assoc|]. split; [|done].
        intros u. unfold killedIn. cbn. unfold isRedirected. rewrite Hwr, Hrd.
        cbn. by rewrite app_nil_r. }
    destruct Hstep as (w1 & Hrun1 & Hf1 & Hok1 & Hp1 & Ht1 & Hd1).
    rewrite (bind_Ret _ _ _ _ _ Hrun1).
    pose proof (steady_statics _ _ (proj1 Hf1)) as Hs1.
    destruct (IH (if redirected wr then tail else [x] ++ tail) w1)
      as (w' & Hrun' & Hf' & Hok' & Hp' & Ht' & Hd'); [|done|].
    { rewrite Hp1. by destruct (redirected wr). }
    exists w'. split; [done|]. split; [by eapply finishRel_trans|].
    split; [done|]. split; [|split].
    + rewrite Hp', (filter_ext_statics w w1) by done.
      rewrite List.filter_app. cbn. unfold isRedirected at 3. rewrite Hwr.
      destruct (redirected wr); cbn; by rewrite <- app_assoc.
    + intros u. rewrite Ht', Ht1, <- app_assoc. f_equal.
      rewrite (killedIn_statics w w1) by done.
      rewrite <- replicate_add. f_equal. unfold killedIn.
      rewrite List.filter_app, length_app. lia.
    + intros item wr0 Hin Hwr0 Hrd0.
      apply elem_of_app in Hin as [Hin|Hin].
      * destruct (finishRel_wrapper _ _ _ _ Hf1 Hwr0) as (wr1 & Hwr1 & Hc1).
        pose proof (Hd' item wr1 Hin Hwr1) as Hd.
        rewrite (wcore_redirected _ _ Hc1) in Hd. specialize (Hd Hrd0).
        destruct Hd as [Hns Hcl]. split; [done|].
        intros s sk' Hcs Hs'.
        destruct Hf1 as ((_ & _ & W) & _).
        destruct (W _ _ Hwr0) as (wr1' & Hwr1' & _ & Hcs1).
        rewrite Hwr1 in Hwr1'. injection Hwr1' as <-.
        destruct Hcs1 as [Hcs1|[_ Hcl1]].
        -- apply (Hcl s sk'); congruence.
        -- eapply steady_closed; [apply Hf'| |done].
           intros sk1. by apply Hcl1.
      * apply list_elem_of_singleton in Hin as ->.
        rewrite Hwr in Hwr0. injection Hwr0 as <-.
        eapply dropped_steady; [apply Hf'|]. by apply Hd1.
Qed.
Lemma detachedCountLoop_spec (pre : list RemoteProcess) : forall tail count w,
  processes w = pre ++ tail ->
  forallb (itemOk w) pre = true ->
  detachedCountLoop (length pre) count w
  = (Ret (count + length (List.filter (isRedirected w) pre))%nat, w).
Proof.
  induction pre as [|x pre IH] using rev_ind; intros tail count w Hp Hok.
  - cbn. by rewrite Nat.add_0_r.
  - rewrite forallb_app in Hok. apply andb_prop in Hok as [Hpre Hx].
    cbn in Hx. rewrite andb_true_r in Hx.
    destruct (itemOk_wrapper _ _ Hx) as [wr Hwr].
    rewrite length_app, Nat.add_1_r. cbn [detachedCountLoop].
    assert (Hidx : processes w !! length pre = Some x).
    { rewrite Hp, <- app_assoc. cbn. by rewrite list_lookup_middle. }
    msteps.
    rewrite (IH ([x] ++ tail)); [|by rewrite Hp, <- app_assoc|done].
    f_equal. f_equal. rewrite List.filter_app, length_app.
    cbn [List.filter]. unfold isRedirected at 3. rewrite Hwr.
    destruct (redirected wr); cbn [length]; lia.
Qed.

Lemma getDetachedCount_eq w :
  wellFormed w = true ->
  getDetachedCount w
  = (Ret (length (List.filter (isRedirected w) (processes w))), w).
Proof.
  intros Hwf. unfold getDetachedCount.
  by rewrite (detachedCountLoop_spec (processes w) [] 0 w (eq_sym (app_nil_r _)) Hwf).
Qed.

Lemma filter_filter_neg {A} (f : A -> bool) (l : list A) :
  List.filter f (List.filter (fun x => negb (f x)) l) = [].
Proof.
  induction l as [|x l IH]; [done|]. cbn.
  destruct (f x) eqn:E; cbn; [done|]. by rewrite E.
Qed.

Lemma killedIn_unique w u (l : list RemoteProcess) i item :
  NoDup (itemUuid w <$> l) ->
  l !! i = Some item ->
  isRedirected w item = true -> itemUuid w item = Some u ->
  killedIn w u l = 1%nat.
Proof.
  unfold killedIn. revert i. induction l as [|x l IH]; intros i Hnd Hi Hrd Hu; [done|].
  cbn in Hnd. apply NoDup_cons in Hnd as [Hx Hnd]. cbn.
  destruct i as [|i]; cbn in Hi.
  - injection Hi as ->. rewrite Hrd, Hu, bool_decide_eq_true_2 by done. cbn.
    f_equal. rewrite (List.filter_ext_in _ (fun _ => false));
      [by rewrite List.filter_false|].
    intros y Hy. apply andb_false_intro2.
    apply bool_decide_eq_false_2. intros Hy'.
    apply Hx. apply list_elem_of_fmap.
    exists y. split; [congruence|]. by apply list_elem_of_In.
  - destruct (isRedirected w x && bool_decide (itemUuid w x = Some u)) eqn:E.
    + apply andb_prop in E as [_ E]. apply bool_decide_eq_true_1 in E.
      exfalso. apply Hx. apply list_elem_of_fmap.
      exists item. split; [congruence|]. by eapply list_elem_of_lookup_2.
    + by eapply IH.
Qed.

(** [killAll] on a registry as [run] builds it (sound entries, pairwise
    different ids, [sigFinished] connected): it returns whatever the
    number of rounds granted to its drain loop, even none, with every
    redirected entry stopped and out of the registry, its wrapper without
    socket and the socket it had closed. *)
Lemma killAll_drains (rounds : nat) (w : World) :
  registryOk w ->
  exists w',
    killAll rounds w = Some (Ret tt, w')
    /\ getDetachedCount w' = (Ret 0%nat, w')
    /\ processes w'
       = List.filter (fun item => negb (isRedirected w item)) (processes w)
    /\ forall i item wr,
         processes w !! i = Some item ->
         wrappers w !! procWrapper item = Some wr ->
         redirected wr = true ->
         finishedOf (procuuid wr) (trace w')
         = finishedOf (procuuid wr) (trace w) ++ [KILLED]
         /\ getProcessIndex w' (procuuid wr) = None
         /\ dropped w' wr (procWrapper item).
Proof.
  intros Hok. unfold killAll.
  destruct (stopLoop_spec (processes w) [] w (eq_sym (app_nil_r _)) Hok)
    as (w' & Hrun & Hf & Hok' & Hp & Ht & Hd).
  rewrite Hrun. rewrite app_nil_r in Hp.
  pose proof (steady_statics _ _ (proj1 Hf)) as Hs.
  assert (Hcount : getDetachedCount w' = (Ret 0%nat, w')).
  { rewrite (getDetachedCount_eq _ (proj1 Hok')), Hp.
    rewrite (List.filter_ext _ (isRedirected w))
      by (intros; by apply isRedirected_statics).
    by rewrite filter_filter_neg. }
  exists w'. split.
  { destruct rounds; cbn [drainLoop]; by rewrite Hcount. }
  split; [done|]. split; [done|].
  intros i item wr Hi Hwr Hrd.
  assert (Hu : itemUuid w item = Some (procuuid wr))
    by (unfold itemUuid; by rewrite Hwr).
  assert (Hir : isRedirected w item = true)
    by (unfold isRedirected; by rewrite Hwr).
  split; [|split].
  - rewrite Ht. f_equal.
    by rewrite (killedIn_unique w _ _ i item (proj1 (proj2 Hok)) Hi Hir Hu).
  - unfold getProcessIndex. apply fmap_None, list_find_None.
    rewrite Hp. apply Forall_forall. intros y Hy Hyu.
    apply list_elem_of_In, List.filter_In in Hy as [Hy Hyr].
    rewrite (itemUuid_ext w w') in Hyu by done.
    apply list_elem_of_In, list_elem_of_lookup in Hy as [j Hj].
    assert (Hi' : (itemUuid w <$> processes w) !! i = Some (Some (procuuid wr)))
      by (by rewrite list_lookup_fmap, Hi; cbn; rewrite Hu).
    assert (Hj' : (itemUuid w <$> processes w) !! j = Some (Some (procuuid wr)))
      by (by rewrite list_lookup_fmap, Hj; cbn; rewrite Hyu).
    pose proof (NoDup_lookup _ _ _ _ (proj1 (proj2 Hok)) Hi' Hj') as ->.
    rewrite Hi in Hj. injection Hj as ->. by rewrite Hir in Hyr.
  - apply (Hd item wr); [|done|done]. by eapply list_elem_of_lookup_2.
Qed.
(** ** At most one finished event per tracked id *)

Lemma emitsOnce_refl w : emitsOnce w w.
Proof. intros u. split; [done|by left]. Qed.

Lemma emitsOnce_trans w1 w2 w3 :
  emitsOnce w1 w2 -> emitsOnce w2 w3 -> emitsOnce w1 w3.
Proof.
  intros H1 H2 u. destruct (H1 u) as [N1 E1], (H2 u) as [N2 E2].
  split; [auto|].
  destruct E1 as [E1|(R1 & U1 & c1 & G1 & E1)].
  - destruct E2 as [E2|(R2 & U2 & c2 & G2 & E2)].
    + left. congruence.
    + right. split.
      * destruct (getProcessIndex w1 u) eqn:E; [done|].
        rewrite (N1 eq_refl) in R2. by destruct R2.
      * split; [done|]. exists c2. split; [done|]. congruence.
  - destruct E2 as [E2|(R2 & U2 & c2 & G2 & E2)].
    + right. split; [done|]. split; [auto|]. exists c1. split; [done|]. congruence.
    + rewrite U1 in R2. by destruct R2.
Qed.

Lemma getProcessIndex_None w u :
  getProcessIndex w u = None <->
  forall item, item ∈ processes w -> itemUuid w item <> Some u.
Proof.
  unfold getProcessIndex. rewrite fmap_None, list_find_None, Forall_forall.
  done.
Qed.

Lemma getProcessIndex_sub w w' u :
  statics w' = statics w ->
  (forall item, item ∈ processes w' -> item ∈ processes w) ->
  getProcessIndex w u = None -> getProcessIndex w' u = None.
Proof.
  intros Hs Hsub. rewrite !getProcessIndex_None. intros H item Hin.
  rewrite (itemUuid_ext w w') by done. by apply H, Hsub.
Qed.

Lemma getProcessIndex_deleted w w' i item u :
  uniqueIds w -> processes w !! i = Some item -> itemUuid w item = Some u ->
  statics w' = statics w -> processes w' = delete i (processes w) ->
  getProcessIndex w' u = None.
Proof.
  intros Hnd Hi Hu Hs Hp. apply getProcessIndex_None. intros y Hy Hyu.
  rewrite Hp in Hy. rewrite (itemUuid_ext w w') in Hyu by done.
  apply list_elem_of_lookup in Hy as [j Hj].
  rewrite list_lookup_delete in Hj.
  assert (Hi' : (itemUuid w <$> processes w) !! i = Some (Some u))
    by (by rewrite list_lookup_fmap, Hi; cbn; rewrite Hu).
  destruct (decide (j < i)%nat).
  - assert (Hj' : (itemUuid w <$> processes w) !! j = Some (Some u))
      by (by rewrite list_lookup_fmap, Hj; cbn; rewrite Hyu).
    pose proof (NoDup_lookup _ _ _ _ Hnd Hi' Hj'). lia.
  - assert (Hj' : (itemUuid w <$> processes w) !! S j = Some (Some u))
      by (by rewrite list_lookup_fmap, Hj; cbn; rewrite Hyu).
    pose proof (NoDup_lookup _ _ _ _ Hnd Hi' Hj'). lia.
Qed.

Lemma stop_tracked_emits w i item :
  registryOk w -> processes w !! i = Some item ->
  exists wr w' evs,
    wrappers w !! procWrapper item = Some wr
    /\ stop (procWrapper item) w = (Ret tt, w')
    /\ finishRel w w'
    /\ registryOk w'
    /\ emitsOnce w w'
    /\ trace w' = trace w ++ SigFinished (procuuid wr) KILLED :: evs
    /\ forallb (fun e => negb (isFinished e)) evs = true
    /\ processes w' = delete i (processes w)
    /\ getProcessIndex w' (procuuid wr) = None
    /\ dropped w' wr (procWrapper item).
Proof.
  intros Hok Hi.
  destruct (stop_tracked _ _ _ Hok Hi)
    as (wr & w' & evs & Hwr & Hrun & Hf & Hok' & Ht & Hq & Hp & Hcl & Hns).
  destruct (registryOk_entry _ _ _ Hok Hi) as (wr0 & Hwr0 & Hfs & Hu & Hidx & _).
  rewrite Hwr in Hwr0. injection Hwr0 as <-.
  pose proof (steady_statics _ _ (proj1 Hf)) as Hs.
  assert (Hgone : getProcessIndex w' (procuuid wr) = None)
    by (by eapply getProcessIndex_deleted; [apply Hok|..]).
  exists wr, w', evs. do 4 (split; [done|]).
  split; [|by repeat (split; [done|])].
  intros u. split.
  - apply getProcessIndex_sub; [done|].
    rewrite Hp. intros y. apply list_elem_of_delete_inv.
  - rewrite Ht, finishedOf_app.
    destruct (decide (procuuid wr = u)) as [<-|Hne].
    + right. rewrite Hidx. split; [done|]. split; [done|].
      exists KILLED. split; [by left|]. by rewrite (finishedOf_emitted _ _ _ Hq).
    + left. change (SigFinished (procuuid wr) KILLED :: evs)
        with ([SigFinished (procuuid wr) KILLED] ++ evs).
      rewrite finishedOf_app, (finishedOf_quiet _ _ Hq).
      unfold finishedOf. cbn. rewrite bool_decide_eq_false_2 by done.
      by rewrite !app_nil_r.
Qed.
(** ** The prologue timer *)

Lemma bind_getPrologue {B} i entry (k : string * Q -> M B) w :
  prologueProcesses w !! i = Some entry -> bind (getPrologue i) k w = k entry w.
Proof. intros H. unfold bind, getPrologue. by rewrite H. Qed.

Lemma delPrologue_lt i w :
  (i < length (prologueProcesses w))%nat ->
  delPrologue i w
  = (Ret tt, setPrologueProcesses (delete i (prologueProcesses w)) w).
Proof. intros H. unfold delPrologue. by rewrite bool_decide_eq_true_2. Qed.

Lemma registryOk_prologue w pp :
  registryOk w -> registryOk (setPrologueProcesses pp w).
Proof. intros H. by apply (registryOk_same w). Qed.

Lemma registryOk_console w c cs text :
  registryOk w -> consoles w !! c = Some cs ->
  registryOk (setConsoles
                (<[c := withContent (c_content cs ++ [IDEMessage text]) cs]>
                   (consoles w)) w).
Proof.
  intros H Hc. apply (registryOk_same w); try done.
  cbn. by rewrite length_insert.
Qed.

Lemma steady_fields w w' :
  wrappers w' = wrappers w -> sockets w' = sockets w -> steady w w'.
Proof.
  intros Hw Hs. split; [by rewrite Hw|]. split.
  - split; [by rewrite Hs|]. intros s sk sk' H1 H2. rewrite Hs, H1 in H2.
    injection H2 as <-. apply shrinkSock_refl.
  - intros b wr Hb. rewrite Hw. exists wr. split; [done|]. split; [done|].
    by left.
Qed.

Lemma emitsOnce_fields w w' :
  wrappers w' = wrappers w -> processes w' = processes w ->
  trace w' = trace w -> emitsOnce w w'.
Proof.
  intros Hw Hp Ht u.
  assert (E : getProcessIndex w' u = getProcessIndex w u)
    by (apply getProcessIndex_ext; [unfold statics; by rewrite Hw|done]).
  split; [by rewrite E|]. left. by rewrite Ht.
Qed.

(** Any number of rounds of the loop of [__onPrologueTimer] on a
    registry as [run] builds it. *)
Lemma prologueLoop_spec now n : forall need w,
  registryOk w ->
  (n <= length (prologueProcesses w))%nat ->
  exists need' w',
    prologueLoop now n need w = (Ret need', w')
    /\ steady w w' /\ consolesGrow w w'
    /\ registryOk w' /\ emitsOnce w w'.
Proof.
  induction n as [|index IH]; intros need w Hok Hn.
  - exists need, w. split; [done|]. split; [apply steady_refl|].
    split; [apply consolesGrow_refl|]. split; [done|apply emitsOnce_refl].
  - cbn [prologueLoop].
    destruct (lookup_lt_is_Some_2 (prologueProcesses w) index) as [entry He]; [lia|].
    erewrite bind_getPrologue by done.
    assert (Hdel : exists need' w',
      (delPrologue index ;; prologueLoop now index need) w = (Ret need', w')
      /\ steady w w' /\ consolesGrow w w'
      /\ registryOk w' /\ emitsOnce w w').
    { rewrite (bind_Ret _ _ _ _ _ (delPrologue_lt index w ltac:(lia))).
      destruct (IH need (setPrologueProcesses (delete index (prologueProcesses w)) w))
        as (need' & w' & Hrun & Hs & Hc & Hok' & He').
      { by apply registryOk_prologue. }
      { cbn. rewrite length_delete by (eexists; exact He). lia. }
      exists need', w'. split; [exact Hrun|]. split; [exact Hs|].
      split; [exact Hc|]. split; [done|exact He']. }
    destruct (getProcessIndex w entry.1) as [procIndex|] eqn:Hidx; [|done].
    destruct (getProcessIndex_Some _ _ _ Hidx) as (item & Hi & Hu & _).
    destruct (registryOk_entry _ _ _ Hok Hi)
      as (wr & Hwr & Hfs & Hu' & Hgi & Hwid & Hst).
    msteps.
    case_bool_decide as Hstate; cbn [negb]; [|done].
    destruct (waitedTooLong now entry.2).
    + destruct (Hwid (Hst Hstate)) as (c & cs & Hw & Hcs).
      rewrite Hw. msteps.
      set (w0 := setConsoles _ w).
      assert (Hok0 : registryOk w0) by (by apply registryOk_console).
      destruct (stop_tracked_emits w0 procIndex item Hok0 Hi)
        as (wr0 & w1 & evs & Hwr0 & Hrun1 & Hf1 & Hok1 & He1 & _).
      rewrite (bind_Ret _ _ _ _ _ Hrun1).
      destruct (IH need w1) as (need' & w' & Hrun & Hs & Hc & Hok' & He'); [done| |].
      { destruct Hf1 as (_ & Hm & _). injection Hm as -> _ _ _. cbn. lia. }
      exists need', w'. split; [done|].
      assert (Hs0 : steady w w0) by (by apply steady_fields).
      assert (Hc0 : consolesGrow w w0).
      { apply (consolesGrow_insert w c cs [IDEMessage didNotStart] (c_finished cs) Hcs). }
      assert (He0 : emitsOnce w w0) by (by apply emitsOnce_fields).
      split; [exact (steady_trans _ _ _ Hs0 (steady_trans _ _ _ (proj1 Hf1) Hs))|].
      split; [exact (consolesGrow_trans _ _ _ Hc0
                       (consolesGrow_trans _ _ _ (proj2 (proj2 Hf1)) Hc))|].
      split; [done|].
      exact (emitsOnce_trans _ _ _ He0 (emitsOnce_trans _ _ _ He1 He')).
    + destruct (IH true w) as (need' & w' & Hrun & Hs & Hc & Hok' & He'); [done|lia|].
      exists need', w'. by repeat (split; [done|]).
Qed.
Lemma lookup_delete_other {A} (l : list A) i k x :
  l !! i = Some x -> i <> k -> exists i', delete k l !! i' = Some x.
Proof.
  intros Hi Hne. destruct (decide (i < k)%nat).
  - exists i. by rewrite list_lookup_delete_lt.
  - exists (i - 1)%nat. rewrite list_lookup_delete_ge by lia.
    by replace (S (i - 1)) with i by lia.
Qed.

Lemma awaiting_survives w w' u c content k itemk :
  registryOk w ->
  awaiting w u c content ->
  processes w !! k = Some itemk ->
  itemUuid w itemk <> Some u ->
  steady w w' -> consolesGrow w w' ->
  processes w' = delete k (processes w) ->
  awaiting w' u c content.
Proof.
  intros Hok (i & item & wr & cs & Hi & Hwr & Hu & Hst & Hw & Hcs & more & Hmore)
    Hk Hne Hs Hg Hp.
  assert (Hik : i <> k).
  { intros ->. rewrite Hk in Hi. injection Hi as ->.
    apply Hne. unfold itemUuid. by rewrite Hwr; cbn; rewrite Hu. }
  destruct (lookup_delete_other _ _ _ _ Hi Hik) as [i' Hi'].
  destruct Hs as (_ & _ & W). destruct (W _ _ Hwr) as (wr' & Hwr' & Hc & _).
  destruct Hg as [_ G]. destruct (G c cs Hcs) as (cs' & more' & Hcs' & Hm' & _).
  exists i', item, wr', cs'. rewrite Hp. split; [done|]. split; [done|].
  split; [by rewrite (wcore_procuuid _ _ Hc)|].
  split; [by rewrite (wcore_state _ _ Hc)|]. split; [done|]. split; [done|].
  exists (more ++ more'). by rewrite Hm', Hmore, <- app_assoc.
Qed.

Lemma awaiting_tracked w u c content :
  registryOk w -> awaiting w u c content ->
  exists i item wr,
    getProcessIndex w u = Some i /\ processes w !! i = Some item
    /\ wrappers w !! procWrapper item = Some wr
    /\ procuuid wr = u /\ state wr = Some STATE_PROLOGUE /\ widget item = Some c
    /\ exists cs more, consoles w !! c = Some cs /\ c_content cs = content ++ more.
Proof.
  intros Hok (i & item & wr & cs & Hi & Hwr & Hu & Hst & Hw & Hcs & more & Hm).
  destruct (registryOk_entry _ _ _ Hok Hi) as (wr0 & Hwr0 & _ & _ & Hgi & _).
  rewrite Hwr in Hwr0. injection Hwr0 as <-. rewrite Hu in Hgi.
  exists i, item, wr. do 6 (split; [done|]). by exists cs, more.
Qed.

Lemma finishedOf_other u v code evs :
  v <> u ->
  forallb (fun e => negb (isFinished e)) evs = true ->
  finishedOf u (SigFinished v code :: evs) = [].
Proof.
  intros Hne H. change (SigFinished v code :: evs) with ([SigFinished v code] ++ evs).
  rewrite finishedOf_app, (finishedOf_quiet _ _ H), app_nil_r.
  unfold finishedOf. cbn. by rewrite bool_decide_eq_false_2.
Qed.

Lemma prologueLoop_target now u c content n : forall need w j t0,
  registryOk w ->
  (n <= length (prologueProcesses w))%nat ->
  awaiting w u c content ->
  (j < n)%nat ->
  prologueProcesses w !! j = Some (u, t0) ->
  waitedTooLong now t0 = true ->
  exists need' w',
    prologueLoop now n need w = (Ret need', w')
    /\ finishedOf u (trace w') = finishedOf u (trace w) ++ [KILLED]
    /\ getProcessIndex w' u = None
    /\ exists cs' more,
         consoles w' !! c = Some cs'
         /\ c_content cs' = content ++ more
         /\ IDEMessage didNotStart ∈ more.
Proof.
  induction n as [|index IH]; intros need w j t0 Hok Hn Haw Hj Hpj Hlate; [lia|].
  cbn [prologueLoop].
  destruct (lookup_lt_is_Some_2 (prologueProcesses w) index) as [[v t] He]; [lia|].
  erewrite bind_getPrologue by done. cbn [fst snd].
  destruct (awaiting_tracked _ _ _ _ Hok Haw)
    as (i & item & wr & Hgi & Hi & Hwr & Hu & Hst & Hw & cs & more & Hcs & Hmore).
  assert (Hdel : v <> u ->
    exists need' w',
      (delPrologue index ;; prologueLoop now index need) w = (Ret need', w')
      /\ finishedOf u (trace w') = finishedOf u (trace w) ++ [KILLED]
      /\ getProcessIndex w' u = None
      /\ exists cs' more,
           consoles w' !! c = Some cs'
           /\ c_content cs' = content ++ more
           /\ IDEMessage didNotStart ∈ more).
  { intros Hvu.
    rewrite (bind_Ret _ _ _ _ _ (delPrologue_lt index w ltac:(lia))).
    assert (Hji : (j < index)%nat).
    { destruct (decide (j = index)) as [->|]; [|lia]. congruence. }
    apply (IH need (setPrologueProcesses (delete index (prologueProcesses w)) w) j t0).
    - by apply registryOk_prologue.
    - cbn. rewrite length_delete by (eexists; exact He). lia.
    - exact Haw.
    - done.
    - cbn. by rewrite list_lookup_delete_lt.
    - done. }
  destruct (getProcessIndex w v) as [procIndex|] eqn:Hidx.
  2:{ apply Hdel. intros ->. congruence. }
  destruct (getProcessIndex_Some _ _ _ Hidx) as (itemv & Hiv & Huv & _).
  destruct (registryOk_entry _ _ _ Hok Hiv)
    as (wrv & Hwrv & Hfsv & Huv' & Hgiv & Hwidv & Hstv).
  assert (Hvid : procuuid wrv = v) by congruence.
  msteps.
  case_bool_decide as Hstate; cbn [negb].
  2:{ apply Hdel. intros ->. rewrite Hgi in Hidx. injection Hidx as <-.
      rewrite Hi in Hiv. injection Hiv as <-. congruence. }
  destruct (waitedTooLong now t) eqn:Hlt.
  - destruct (Hwidv (Hstv Hstate)) as (cv & csv & Hwv & Hcsv).
    rewrite Hwv. msteps.
    set (w0 := setConsoles _ w).
    assert (Hok0 : registryOk w0) by (by apply registryOk_console).
    assert (Hs0 : steady w w0) by (by apply steady_fields).
    assert (Hc0 : consolesGrow w w0).
    { apply (consolesGrow_insert w cv csv [IDEMessage didNotStart] (c_finished csv) Hcsv). }
    destruct (stop_tracked_emits w0 procIndex itemv Hok0 Hiv)
      as (wr0 & w1 & evs & Hwr0 & Hrun1 & Hf1 & Hok1 & He1 & Ht1 & Hq1 & Hp1 & Hg1 & _).
    change (wrappers w0) with (wrappers w) in Hwr0.
    rewrite Hwrv in Hwr0. injection Hwr0 as <-.
    rewrite (bind_Ret _ _ _ _ _ Hrun1).
    assert (Hn1 : (index <= length (prologueProcesses w1))%nat).
    { destruct Hf1 as (_ & Hm & _). injection Hm as -> _ _ _. cbn. lia. }
    destruct (decide (v = u)) as [->|Hvu].
    + (* the launch itself *)
      rewrite Hgi in Hidx. injection Hidx as <-.
      rewrite Hi in Hiv. injection Hiv as <-.
      rewrite Hw in Hwv. injection Hwv as <-.
      destruct (prologueLoop_spec now index need w1 Hok1 Hn1)
        as (need' & w' & Hrun & Hs & Hc & Hok' & He').
      exists need', w'. split; [done|].
      destruct (He' u) as [Hnone Hev]. rewrite Hvid in Hg1.
      split.
      { destruct Hev as [Hev|(Hreg & _)]; [|rewrite Hg1 in Hreg; by destruct Hreg].
        rewrite Hev, Ht1, finishedOf_app, Hvid.
        by rewrite (finishedOf_emitted _ _ _ Hq1). }
      split; [auto|].
      rewrite Hcs in Hcsv. injection Hcsv as <-.
      assert (Hc0' : consoles w0 !! c
                     = Some (withContent (c_content cs ++ [IDEMessage didNotStart]) cs)).
      { unfold w0. by lookup. }
      destruct (consolesGrow_trans _ _ _ (proj2 (proj2 Hf1)) Hc) as [_ G].
      destruct (G c _ Hc0') as (cs' & more' & Hcs' & Hm' & _).
      exists cs', (more ++ [IDEMessage didNotStart] ++ more').
      split; [done|]. split.
      * rewrite Hm'. cbn. rewrite Hmore. by rewrite <- !app_assoc.
      * apply elem_of_app. right. apply elem_of_app. left.
        by apply list_elem_of_singleton.
    + (* another launch *)
      assert (Hji : (j < index)%nat).
      { destruct (decide (j = index)) as [->|]; [|lia]. congruence. }
      assert (Haw1 : awaiting w1 u c content).
      { apply (awaiting_survives w w1 u c content procIndex itemv); try done.
        - congruence.
        - exact (steady_trans _ _ _ Hs0 (proj1 Hf1)).
        - exact (consolesGrow_trans _ _ _ Hc0 (proj2 (proj2 Hf1))). }
      assert (Hpp1 : prologueProcesses w1 = prologueProcesses w).
      { destruct Hf1 as (_ & Hm & _). by injection Hm as -> _ _ _. }
      destruct (IH need w1 j t0 Hok1 Hn1 Haw1 Hji) as (need' & w' & Hrun & Ht & Hrest);
        [by rewrite Hpp1|done|].
      exists need', w'. split; [done|]. split; [|done].
      rewrite Ht, Ht1, finishedOf_app, Hvid.
      by rewrite (finishedOf_other _ _ _ _ Hvu Hq1), app_nil_r.
  - assert (Hji : (j < index)%nat).
    { destruct (decide (j = index)) as [->|]; [|lia]. congruence. }
    apply (IH true w j t0); try done. lia.
Qed.
Lemma waitedTooLong_lt now startTime :
  (HANDSHAKE_TIMEOUT < now - startTime)%Q -> waitedTooLong now startTime = true.
Proof.
  intros H. unfold waitedTooLong.
  destruct (Qle_bool (now - startTime) HANDSHAKE_TIMEOUT) eqn:E; [|done].
  apply Qle_bool_iff in E. by apply Qlt_not_le in H.
Qed.

(** C8. A redirected launch is tracked, still in the state Prologue (its
    child has not connected back) and on the prologue watch list with the
    time of its launch. When the prologue timer fires more than 15
    seconds after that time, [__onPrologueTimer] returns, the console of
    the launch has gained the message that the process did not start, the
    finished event of its id with the code [KILLED] has been emitted
    once, and the entry is out of the registry. *)
Theorem prologue_timeout_kills (now : Q) (w : World) (i : nat)
    (item : RemoteProcess) (wr : Wrapper) (c : nat) (cs : Console)
    (j : nat) (startTime : Q) :
  registryOk w ->
  processes w !! i = Some item ->
  wrappers w !! procWrapper item = Some wr ->
  state wr = Some STATE_PROLOGUE ->
  widget item = Some c ->
  consoles w !! c = Some cs ->
  prologueProcesses w !! j = Some (procuuid wr, startTime) ->
  (HANDSHAKE_TIMEOUT < now - startTime)%Q ->
  exists w',
    onPrologueTimer now w = (Ret tt, w')
    /\ finishedOf (procuuid wr) (trace w')
       = finishedOf (procuuid wr) (trace w) ++ [KILLED]
    /\ getProcessIndex w' (procuuid wr) = None
    /\ exists cs' more,
         consoles w' !! c = Some cs'
         /\ c_content cs' = c_content cs ++ more
         /\ IDEMessage didNotStart ∈ more
         /\ contains "did not start" didNotStart = true.
Proof.
  intros Hok Hi Hwr Hst Hw Hcs Hj Hlate.
  assert (Haw : awaiting w (procuuid wr) c (c_content cs)).
  { exists i, item, wr, cs. do 6 (split; [done|]). exists []. by rewrite app_nil_r. }
  destruct (prologueLoop_target now (procuuid wr) c (c_content cs)
              (length (prologueProcesses w)) false w j startTime Hok
              (Nat.le_refl _) Haw (lookup_lt_Some _ _ _ Hj) Hj
              (waitedTooLong_lt _ _ Hlate))
    as (need' & w' & Hrun & Ht & Hg & cs' & more & Hcs' & Hm & Hin).
  unfold onPrologueTimer. rewrite (bind_Ret _ _ _ _ _ Hrun).
  destruct need'.
  - eexists. split; [reflexivity|]. split; [done|]. split; [done|].
    exists cs', more. by repeat (split; [done|]).
  - exists w'. split; [done|]. split; [done|]. split; [done|].
    exists cs', more. by repeat (split; [done|]).
Qed.
(** ** Sample runs *)

Example launched_registry :
  processes launched = [mkRemoteProcess 0 (Some 0%nat) (Some RUN)]
  /\ prologueProcesses launched = [("c1", 0 # 1)]
  /\ prologueTimer launched = true.
Proof. by vm_compute. Qed.

Example connected_running :
  (state <$> wrappers connected !! 0%nat) = Some (Some STATE_RUNNING)
  /\ (s_outbox <$> sockets connected !! 0%nat)
     = Some [mkCommand METHOD_PROLOGUE_CONTINUE "c1" PNone].
Proof. by vm_compute. Qed.

Lemma registryOk_launched : registryOk launched.
Proof.
  split; [by vm_compute|]. split; [|by vm_compute].
  unfold uniqueIds. vm_compute. apply NoDup_singleton.
Qed.

Lemma registryOk_connected : registryOk connected.
Proof.
  split; [by vm_compute|]. split; [|by vm_compute].
  unfold uniqueIds. vm_compute. apply NoDup_singleton.
Qed.

(** C2, refuted as stated: two calls of [stop] on the wrapper of a
    launch whose child has already exited emit the finished event with
    [KILLED] twice. *)
Lemma stop_twice_emits_twice :
  let w := setWrappers
             (<[0%nat := mkWrapper "c1" "script.py" true (Some STATE_PROLOGUE)
                           (Some 4242) None (Some (mkPopen false 0 false))
                           true [0%nat]]> (wrappers launched)) launched in
  (stopTimes 2 0 w).1 = Ret tt
  /\ finishedOf "c1" (trace w) = []
  /\ finishedOf "c1" (trace (stopTimes 2 0 w).2) = [KILLED; KILLED].
Proof. by vm_compute. Qed.

Lemma stop_emits_on_every_call_witness :
  exists w',
    stopTimes 3 0 launched = (Ret tt, w')
    /\ finishedOf "c1" (trace w')
       = finishedOf "c1" (trace launched) ++ replicate 3 KILLED.
Proof.
  apply (stop_emits_on_every_call 3 launched 0
           (mkWrapper "c1" "script.py" true (Some STATE_PROLOGUE) (Some 4242)
              None (Some (mkPopen true 0 false)) true [0%nat])).
  - by vm_compute.
  - by vm_compute.
Defined.

(** C3, refuted as stated: the wrapper of [connected] is in the state
    Running and has its socket; a second [setSocket], with another
    socket, is not rejected. *)
Lemma setSocket_second_call_accepted :
  let w := setSockets (sockets connected ++ [mkSocket true [] [] [] []]) connected in
  (state <$> wrappers w !! 0%nat) = Some (Some STATE_RUNNING)
  /\ (clientSocket <$> wrappers w !! 0%nat) = Some (Some 0%nat)
  /\ (setSocket 0 1 w).1 = Ret tt
  /\ (clientSocket <$> wrappers (setSocket 0 1 w).2 !! 0%nat) = Some (Some 1%nat).
Proof. by vm_compute. Qed.

Lemma setSocket_attaches_in_any_state_witness :
  let w := setSockets (sockets connected ++ [mkSocket true [] [] [] []]) connected in
  exists w' wr' sk',
    setSocket 0 1 w = (Ret tt, w')
    /\ wrappers w' !! 0%nat = Some wr'
    /\ state wr' = Some STATE_RUNNING
    /\ clientSocket wr' = Some 1%nat
    /\ sockets w' !! 1%nat = Some sk'
    /\ s_outbox sk' = [] ++ [mkCommand METHOD_PROLOGUE_CONTINUE "c1" PNone]
    /\ s_readyRead sk' = [] ++ [0%nat]
    /\ s_disconnected sk' = [] ++ [0%nat]
    /\ processes w' = processes w
    /\ trace w' = trace w.
Proof.
  intros w.
  apply (setSocket_attaches_in_any_state w 0
           (mkWrapper "c1" "script.py" true (Some STATE_RUNNING) (Some 4242)
              (Some 0%nat) (Some (mkPopen true 0 false)) true [0%nat])
           1 (mkSocket true [] [] [] [])).
  - by vm_compute.
  - by vm_compute.
  - done.
  - done.
Defined.

(** C5, refuted as stated: a redirected launch whose spawn fails leaves
    the prologue timer armed and its id on the prologue watch list. *)
Lemma failed_spawn_leaves_prologue_watch :
  let w := freshManager REUSE in
  let w' := (run (failingLaunch "c1" true (0 # 1)) w).2 in
  prologueTimer w = false /\ prologueProcesses w = []
  /\ processes w' = []
  /\ prologueTimer w' = true /\ prologueProcesses w' = [("c1", 0 # 1)].
Proof. by vm_compute. Qed.

Lemma run_spawn_failure_witness :
  exists w',
    run (failingLaunch "c1" true (0 # 1)) (freshManager REUSE) = (Ret tt, w')
    /\ processes w' = []
    /\ waitTimer w' = false
    /\ (true = false ->
          prologueProcesses w' = []
          /\ prologueTimer w' = false
          /\ consoles w' = []
          /\ trace w' = [] ++ [LogError (exnText OSError)])
    /\ (true = true ->
          prologueProcesses w' = [] ++ [("c1", 0 # 1)]
          /\ prologueTimer w' = true
          /\ exists c cs items,
               consoles w' !! c = Some cs
               /\ c_content cs
                  = items ++ [IDEMessage ("Starting " +:+ "script.py" +:+ "...");
                              IDEMessage ("Failed to start: " +:+ exnText OSError)]).
Proof.
  apply (run_spawn_failure (freshManager REUSE) (failingLaunch "c1" true (0 # 1)) OSError).
  - done.
  - done.
Defined.
Lemma parseClientLine_raises_KeyError_witness :
  exists w', parseClientLine 0 missingText = (Raise KeyError, w')
    /\ isTypeOrValueError KeyError = false
    /\ sockets w' !! 0%nat
       = Some (withInbox []
                 (mkSocket true [Parsed (PStr METHOD_STDOUT) (PStr "c1") (PDict [])]
                    [mkCommand METHOD_PROLOGUE_CONTINUE "c1" PNone] [0%nat] [0%nat]))
    /\ trace w' = trace missingText.
Proof.
  apply (parseClientLine_raises_KeyError missingText 0
           (mkWrapper "c1" "script.py" true (Some STATE_RUNNING) (Some 4242)
              (Some 0%nat) (Some (mkPopen true 0 false)) true [0%nat])
           0 _ (PStr "c1") []).
  - by vm_compute.
  - done.
  - by vm_compute.
  - done.
Defined.

Lemma prologue_timeout_kills_witness :
  exists w',
    onPrologueTimer (16 # 1) launched = (Ret tt, w')
    /\ finishedOf "c1" (trace w') = finishedOf "c1" (trace launched) ++ [KILLED]
    /\ getProcessIndex w' "c1" = None
    /\ exists cs' more,
         consoles w' !! 0%nat = Some cs'
         /\ c_content cs' = [IDEMessage "Starting script.py..."] ++ more
         /\ IDEMessage didNotStart ∈ more
         /\ contains "did not start" didNotStart = true.
Proof.
  apply (prologue_timeout_kills (16 # 1) launched 0
           (mkRemoteProcess 0 (Some 0%nat) (Some RUN))
           (mkWrapper "c1" "script.py" true (Some STATE_PROLOGUE) (Some 4242)
              None (Some (mkPopen true 0 false)) true [0%nat])
           0 (mkConsole "c1" RUN [IDEMessage "Starting script.py..."] false)
           0 (0 # 1)).
  - apply registryOk_launched.
  - by vm_compute.
  - by vm_compute.
  - done.
  - done.
  - by vm_compute.
  - by vm_compute.
  - by vm_compute.
Defined.

Lemma killAll_drains_connected :
  exists w',
    killAll 0 connected = Some (Ret tt, w')
    /\ getDetachedCount w' = (Ret 0%nat, w')
    /\ processes w'
       = List.filter (fun item => negb (isRedirected connected item))
           (processes connected)
    /\ forall i item wr,
         processes connected !! i = Some item ->
         wrappers connected !! procWrapper item = Some wr ->
         redirected wr = true ->
         finishedOf (procuuid wr) (trace w')
         = finishedOf (procuuid wr) (trace connected) ++ [KILLED]
         /\ getProcessIndex w' (procuuid wr) = None
         /\ dropped w' wr (procWrapper item).
Proof. apply (killAll_drains 0 connected registryOk_connected). Defined.

Lemma waitDetached_true_unless_running_witness :
  let wr := mkWrapper "d1" "script.py" false None (Some 4242) None
              (Some (mkPopen false 3 false)) true [] in
  (exists b, waitDetached 0 exited = (Ret b, exited)
     /\ (proc wr = None -> b = true)
     /\ (forall p, proc wr = Some p -> p_broken p = true -> b = true)
     /\ (forall p, proc wr = Some p -> p_running p = false -> b = true)
     /\ (forall p, proc wr = Some p -> p_broken p = false ->
           p_running p = true -> b = false))
  /\ (wellFormed exited = true ->
      exists w', onWaitTimer exited = (Ret tt, w')
        /\ processes w' = List.filter (kept exited) (processes exited)
        /\ wrappers w' = wrappers exited
        /\ (forall item, redirected wr = false -> gone wr = true ->
              procWrapper item = 0%nat -> item ∉ processes w')
        /\ waitTimer w' = (existsb (awaited exited) (processes exited) || waitTimer exited)).
Proof.
  intros wr. apply (waitDetached_true_unless_running exited 0 wr). by vm_compute.
Defined.

Example exited_reaped :
  processes exited = [mkRemoteProcess 0 None (Some RUN)]
  /\ processes (onWaitTimer exited).2 = [].
Proof. by vm_compute. Qed.

(** ** The invariant of the event loop *)

Lemma forallb_sublist {A} (f : A -> bool) (l l' : list A) :
  l' `sublist_of` l -> forallb f l = true -> forallb f l' = true.
Proof.
  induction 1 as [|x l1 l2 _ IH|x l1 l2 _ IH]; cbn; [done| |].
  - intros [-> H]%andb_prop. by rewrite IH.
  - intros [_ H]%andb_prop. by apply IH.
Qed.

Lemma procuuid_statics w :
  procuuid <$> wrappers w = procuuid <$> statics w.
Proof.
  unfold statics. rewrite <- list_fmap_compose. apply list_fmap_ext.
  intros i wr _. by destruct wr.
Qed.

Lemma finishStep_refl w : registryOk w -> finishStep w w.
Proof.
  intros Hok. split; [apply steady_refl|]. split; [done|].
  split; [apply emitsOnce_refl|]. split; [done|]. by intros a H1 H2.
Qed.

Lemma finishStep_trans w1 w2 w3 :
  finishStep w1 w2 -> finishStep w2 w3 -> finishStep w1 w3.
Proof.
  intros (S1 & O1 & E1 & R1 & D1) (S2 & O2 & E2 & R2 & D2).
  split; [by eapply steady_trans|]. split; [done|].
  split; [by eapply emitsOnce_trans|]. split; [auto|].
  intros a Hr1 Hr3.
  destruct (decide (registered w2 a)) as [Hr2|Hr2].
  - by apply D2.
  - destruct (D1 a Hr1 Hr2) as (wr2 & Ha2 & Hn2).
    by eapply steady_noSocket.
Qed.

Lemma Inv_finishStep w w' : Inv w -> finishStep w w' -> Inv w'.
Proof.
  intros [Hreg Hst Hat Hli Hsl Hin Htr Hso] (S & O & E & R & D).
  pose proof (steady_statics _ _ S) as Hs.
  destruct S as (L & (Lk & Sk) & W).
  split.
  - done.
  - by rewrite procuuid_statics, Hs, <- procuuid_statics.
  - intros a wr' s Ha' Hcs'.
    assert (Hlt : is_Some (wrappers w !! a)).
    { apply lookup_lt_is_Some. apply lookup_lt_Some in Ha'. lia. }
    destruct Hlt as [wr Ha].
    destruct (W a wr Ha) as (wr0 & Ha0 & Hc & Hs0).
    rewrite Ha' in Ha0. injection Ha0 as <-.
    destruct Hs0 as [Hs0|[Hs0 _]]; [|congruence].
    destruct (Hat a wr s Ha) as (Hr & Hrd & Hstate); [congruence|].
    split; [|split].
    + destruct (decide (registered w' a)) as [|Hn]; [done|].
      destruct (D a Hr Hn) as (wr1 & Ha1 & Hn1). congruence.
    + by rewrite (wcore_redirected _ _ Hc).
    + by rewrite (wcore_state _ _ Hc).
  - intros s sk' a Hs' Hop' Hl'.
    assert (Hlt : is_Some (sockets w !! s)).
    { apply lookup_lt_is_Some. apply lookup_lt_Some in Hs'. lia. }
    destruct Hlt as [sk Hsk].
    destruct (Sk s sk sk' Hsk Hs') as (Ho & Hrr & Hdd & _).
    destruct (Hli s sk a Hsk (Ho Hop')) as (wr & Ha & Hcs).
    { destruct Hl' as [Hl'|Hl']; [left|right]; by eapply elem_of_sublist. }
    destruct (W a wr Ha) as (wr' & Ha' & _ & Hs0).
    exists wr'. split; [done|].
    destruct Hs0 as [Hs0|[_ Hcl]]; [congruence|].
    rewrite (Hcl s sk' Hcs Hs') in Hop'. done.
  - intros s sk' Hs'.
    assert (Hlt : is_Some (sockets w !! s)).
    { apply lookup_lt_is_Some. apply lookup_lt_Some in Hs'. lia. }
    destruct Hlt as [sk Hsk].
    destruct (Sk s sk sk' Hsk Hs') as (_ & _ & Hdd & _).
    apply sublist_length in Hdd. pose proof (Hsl s sk Hsk). lia.
  - intros s sk' Hs'.
    assert (Hlt : is_Some (sockets w !! s)).
    { apply lookup_lt_is_Some. apply lookup_lt_Some in Hs'. lia. }
    destruct Hlt as [sk Hsk].
    destruct (Sk s sk sk' Hsk Hs') as (_ & _ & _ & Hib).
    eapply forallb_sublist; [done|]. by eapply Hin.
  - intros u. destruct (Htr u) as (Hlen & Hnone & Hmem & Hcodes).
    destruct (E u) as [Hn [He|(Hr & Hu & code & Hgood & He)]].
    + rewrite He. split; [done|]. split; [|split; [|done]].
      * intros Hr'. apply Hnone.
        destruct (getProcessIndex w u) eqn:E0; [done|].
        rewrite (Hn eq_refl) in Hr'. by destruct Hr'.
      * intros Hne. rewrite procuuid_statics, Hs, <- procuuid_statics. auto.
    + rewrite He, (Hnone Hr). cbn. split; [done|]. split; [|split].
      * rewrite Hu. by intros [? ?].
      * intros _. rewrite procuuid_statics, Hs, <- procuuid_statics.
        destruct Hr as [i Hi].
        destruct (getProcessIndex_Some _ _ _ Hi) as (item & _ & Hiu & _).
        unfold itemUuid in Hiu.
        destruct (wrappers w !! procWrapper item) as [wr|] eqn:Hwr; [|done].
        cbn in Hiu. injection Hiu as <-.
        apply list_elem_of_fmap. exists wr. split; [done|].
        by eapply list_elem_of_lookup_2.
      * by apply Forall_singleton.
  - intros a wr' s Ha' Hcs'.
    assert (Hlt : is_Some (wrappers w !! a)).
    { apply lookup_lt_is_Some. apply lookup_lt_Some in Ha'. lia. }
    destruct Hlt as [wr Ha].
    destruct (W a wr Ha) as (wr0 & Ha0 & _ & Hs0).
    rewrite Ha' in Ha0. injection Ha0 as <-.
    destruct Hs0 as [Hs0|[Hs0 _]]; [|congruence].
    rewrite Hcs' in Hs0. symmetry in Hs0.
    apply lookup_lt_is_Some. rewrite Lk.
    apply lookup_lt_is_Some. by eapply Hso.
Qed.
Lemma emitsOnce_same w w' :
  statics w' = statics w -> processes w' = processes w ->
  (forall u, finishedOf u (trace w') = finishedOf u (trace w)) ->
  emitsOnce w w'.
Proof.
  intros Hs Hp Ht u.
  rewrite (getProcessIndex_ext w w') by done. split; [done|]. left. apply Ht.
Qed.

(** A step that leaves the registry and the finished events as they
    are. *)
Lemma finishStep_same w w' :
  registryOk w -> steady w w' ->
  processes w' = processes w ->
  length (consoles w') = length (consoles w) ->
  (forall u, finishedOf u (trace w') = finishedOf u (trace w)) ->
  finishStep w w'.
Proof.
  intros Hok S Hp Hc Ht. pose proof (steady_statics _ _ S) as Hs.
  split; [done|]. split; [by apply (registryOk_same w)|].
  split; [by apply emitsOnce_same|].
  unfold registered. rewrite Hp. split; [done|]. by intros a H1 H2.
Qed.

Lemma quietRel_finishStep a w w' :
  registryOk w -> quietRel a w w' -> steady w w' -> finishStep w w'.
Proof.
  intros Hok (V & _) S. injection V as Hp _ _ _ _ Hc Ht.
  apply finishStep_same; try done; congruence.
Qed.

Lemma registered_lookup w a :
  registered w a <-> exists i item, processes w !! i = Some item /\ procWrapper item = a.
Proof.
  unfold registered. rewrite list_elem_of_fmap. split.
  - intros (item & -> & Hin). apply list_elem_of_lookup in Hin as [i Hi].
    by exists i, item.
  - intros (i & item & Hi & <-). exists item. split; [done|].
    by eapply list_elem_of_lookup_2.
Qed.

Lemma registryOk_address w i j item item' :
  registryOk w ->
  processes w !! i = Some item -> processes w !! j = Some item' ->
  procWrapper item = procWrapper item' -> i = j.
Proof.
  intros Hok Hi Hj Ha.
  destruct (registryOk_entry _ _ _ Hok Hi) as (wr & Hwr & _ & Hu & _).
  destruct (registryOk_entry _ _ _ Hok Hj) as (wr' & Hwr' & _ & Hu' & _).
  rewrite Ha, Hwr' in Hwr. injection Hwr as <-.
  destruct Hok as (_ & Hnd & _).
  eapply (NoDup_lookup _ i j (Some (procuuid wr'))); [exact Hnd| |].
  - by rewrite list_lookup_fmap, Hi; cbn; rewrite Hu.
  - by rewrite list_lookup_fmap, Hj; cbn; rewrite Hu'.
Qed.

Lemma registered_delete w i item a :
  registryOk w -> processes w !! i = Some item ->
  a ∈ procWrapper <$> delete i (processes w) <->
  registered w a /\ a <> procWrapper item.
Proof.
  intros Hok Hi. rewrite registered_lookup. rewrite list_elem_of_fmap. split.
  - intros (y & -> & Hin). apply list_elem_of_lookup in Hin as [j Hj].
    rewrite list_lookup_delete in Hj. split; [by eexists _, y|].
    intros Heq. pose proof (registryOk_address _ _ _ _ _ Hok Hj Hi Heq).
    destruct (decide (j < i)%nat); lia.
  - intros ((j & y & Hj & <-) & Hne).
    assert (Hji : j <> i) by (intros ->; congruence).
    destruct (lookup_delete_other _ _ _ _ Hj Hji) as [j' Hj'].
    exists y. split; [done|]. by eapply list_elem_of_lookup_2.
Qed.

(** A finished event of the wrapper of a tracked entry: the slot of the
    run manager takes the entry out of the registry. The socket of the
    wrapper is gone by then, or goes in the slot when the code is an exit
    code. *)
Lemma emitFinished_finishStep w a wr code :
  Inv w ->
  wrappers w !! a = Some wr ->
  registered w a ->
  finishCode code ->
  clientSocket wr = None \/ (code <> KILLED /\ code <> DISCONNECTED) ->
  exists w',
    emitFinished a code w = (Ret tt, w')
    /\ finishStep w w'
    /\ ~ registered w' a
    /\ managerRest w' = managerRest w
    /\ consolesGrow w w'
    /\ S (length (processes w')) = length (processes w).
Proof.
  intros HI Ha Hr Hcode Hsock. pose proof (inv_registry _ HI) as Hok.
  apply registered_lookup in Hr as (i & item & Hi & Hia).
  destruct (registryOk_entry _ _ _ Hok Hi) as (wr0 & Hwr0 & Hfs & Hu & Hgi & Hwid & _).
  rewrite Hia, Ha in Hwr0. injection Hwr0 as <-.
  destruct (emitFinished_spec w a wr code (proj1 Hok) Ha)
    as (w' & evs & Hrun & Hf & Hwf' & Ht & Hq & Hp & Hx).
  rewrite Hfs in Hp. unfold withoutEntry in Hp. rewrite Hgi in Hp.
  pose proof (steady_statics _ _ (proj1 Hf)) as Hs.
  assert (Hgone : getProcessIndex w' (procuuid wr) = None)
    by (by eapply getProcessIndex_deleted; [apply Hok|..]).
  assert (Hnr : ~ registered w' a).
  { unfold registered. rewrite Hp, (registered_delete w i item) by done.
    intros [_ Hne]. congruence. }
  exists w'. split; [done|].
  split; [|split; [done|split; [apply Hf|split; [apply Hf|]]]].
  2:{ rewrite Hp, length_delete by (eexists; exact Hi).
      apply lookup_lt_Some in Hi. lia. }
  split; [apply Hf|].
  split; [apply (registryOk_delete w w' i); try done; apply Hf|].
  split; [|split].
  - intros u. split.
    + apply getProcessIndex_sub; [done|].
      rewrite Hp. intros y. apply list_elem_of_delete_inv.
    + rewrite Ht, finishedOf_app.
      destruct (decide (procuuid wr = u)) as [<-|Hne].
      * right. rewrite Hgi. split; [done|]. split; [done|].
        exists code. split; [done|]. by rewrite (finishedOf_emitted _ _ _ Hq).
      * left. by rewrite (finishedOf_other _ _ _ _ Hne Hq), app_nil_r.
  - intros b. unfold registered. rewrite Hp, (registered_delete w i item) by done.
    by intros [? _].
  - intros b Hb Hnb.
    assert (b = a) as ->.
    { destruct (decide (b = a)) as [|Hne]; [done|]. exfalso. apply Hnb.
      unfold registered. rewrite Hp, (registered_delete w i item) by done.
      split; [done|]. congruence. }
    destruct (clientSocket wr) as [s|] eqn:Hcs.
    + destruct Hsock as [|[Hk Hd]]; [done|].
      destruct (inv_attached _ HI a wr s Ha Hcs) as (_ & Hrd & _).
      destruct (Hwid Hrd) as (c & cs & Hw & _).
      rewrite <- Hia.
      apply (Hx i item wr c); try done. by rewrite Hia.
    + by eapply steady_noSocket; [apply Hf|..].
Qed.


Lemma quietRel_processes a w w' : quietRel a w w' -> processes w' = processes w.
Proof. intros (V & _). by injection V as Hp _ _ _ _ _ _. Qed.







(** ** Slots that start nothing *)

Lemma fin_pure {A} (m : M A) w : Inv w -> (m w).2 = w -> fin m w.
Proof. intros HI E. unfold fin. rewrite E. apply finishStep_refl, HI. Qed.

Lemma fin_bind {A B} (m : M A) (k : A -> M B) w :
  Inv w -> fin m w ->
  (forall a w1, m w = (Ret a, w1) -> Inv w1 -> fin (k a) w1) ->
  fin (bind m k) w.
Proof.
  unfold fin, bind. intros HI Hm Hk.
  destruct (m w) as [[a|e] w1] eqn:E; cbn in *; [|done].
  eapply finishStep_trans; [done|]. apply Hk; [done|]. by eapply Inv_finishStep.
Qed.

Lemma fin_tryExcept {A} (m : M A) catches (h : exn -> M A) w :
  Inv w -> fin m w ->
  (forall e w1, m w = (Raise e, w1) -> catches e = true -> Inv w1 -> fin (h e) w1) ->
  fin (tryExcept m catches h) w.
Proof.
  unfold fin, tryExcept. intros HI Hm Hh.
  destruct (m w) as [[a|e] w1] eqn:E; cbn in *; [done|].
  destruct (catches e) eqn:Hc; [|done].
  eapply finishStep_trans; [done|]. apply Hh; [done..|]. by eapply Inv_finishStep.
Qed.

Lemma fin_forEach {A} (l : list A) (f : A -> M unit) :
  (forall x w, Inv w -> fin (f x) w) ->
  forall w, Inv w -> fin (forEach l f) w.
Proof.
  intros Hf. induction l as [|x l IH]; intros w HI; cbn [forEach].
  - by apply fin_pure.
  - apply fin_bind; [done|by apply Hf|]. intros _ w1 _ HI1. by apply IH.
Qed.

Lemma fin_Inv {A} (m : M A) w : Inv w -> fin m w -> Inv (m w).2.
Proof. intros HI Hf. by eapply Inv_finishStep. Qed.

Lemma fin_ret {A} (a : A) w : Inv w -> fin (ret a) w.
Proof. intros HI. by apply fin_pure. Qed.

Lemma fin_raise {A} e w : Inv w -> fin (raise (A:=A) e) w.
Proof. intros HI. by apply fin_pure. Qed.

Lemma fin_liftRes {A} (r : res A) w : Inv w -> fin (liftRes r) w.
Proof. intros HI. by apply fin_pure. Qed.

Lemma fin_getWrapper a w : Inv w -> fin (getWrapper a) w.
Proof. intros HI. apply fin_pure; [done|]. unfold getWrapper. by destruct (_ !! _). Qed.

Lemma fin_getSocket s w : Inv w -> fin (getSocket s) w.
Proof. intros HI. apply fin_pure; [done|]. unfold getSocket. by destruct (_ !! _). Qed.




Lemma getSocket_Ret s w sk w1 :
  getSocket s w = (Ret sk, w1) -> w1 = w /\ sockets w !! s = Some sk.
Proof. unfold getSocket. destruct (_ !! _); [|done]. by intros [= -> ->]. Qed.


(** A change of the fields that neither the registry nor the wrappers
    and sockets depend on. *)
Lemma fin_modify (f : World -> World) w :
  Inv w ->
  wrappers (f w) = wrappers w -> sockets (f w) = sockets w ->
  processes (f w) = processes w ->
  length (consoles (f w)) = length (consoles w) ->
  (forall u, finishedOf u (trace (f w)) = finishedOf u (trace w)) ->
  fin (modify f) w.
Proof.
  intros HI Hw Hs Hp Hc Ht. unfold fin, modify; cbn.
  apply finishStep_same; [apply HI|by apply steady_fields|done..].
Qed.

Lemma fin_record e w : Inv w -> isFinished e = false -> fin (record e) w.
Proof.
  intros HI He. apply fin_modify; try done.
  intros u. change (trace (setTrace (trace w ++ [e]) w)) with (trace w ++ [e]).
  rewrite finishedOf_app. destruct e; cbn in *; try done; by rewrite app_nil_r.
Qed.

Lemma fin_onConsole c f w : Inv w -> fin (onConsole c f) w.
Proof.
  intros HI. unfold fin, onConsole.
  destruct (consoles w !! c) as [cs|] eqn:Hc; cbn; [|apply finishStep_refl, HI].
  apply finishStep_same; [apply HI|by apply steady_fields|done| |done].
  cbn. by rewrite length_insert.
Qed.

Lemma fin_putSocket s sk sk' w :
  Inv w -> sockets w !! s = Some sk -> shrinkSock sk sk' ->
  fin (putSocket s sk') w.
Proof.
  intros HI Hs Hsh. unfold fin, putSocket, modify; cbn.
  apply finishStep_same; [apply HI| |done..].
  split; [done|]. split; [by eapply socketsShrink_insert|].
  intros b wr Hb. exists wr. split; [done|]. split; [done|]. by left.
Qed.


Lemma fin_sendJSONCommand sock method uuid params w :
  Inv w -> fin (sendJSONCommand sock method uuid params) w.
Proof.
  intros HI. unfold sendJSONCommand. destruct sock as [s|]; [|by apply fin_raise].
  apply fin_bind; [done|by apply fin_getSocket|]. intros sk w1 Hsk _.
  apply getSocket_Ret in Hsk as [-> Hsk].
  destruct (s_open sk); [|by apply fin_ret].
  eapply fin_putSocket; [done..|]. by destruct sk.
Qed.

Lemma fin_quiet {A} (m : M A) a w w' r :
  Inv w -> m w = (r, w') -> quietRel a w w' -> steady w w' -> fin m w.
Proof.
  intros HI E Hq Hs. unfold fin. rewrite E. cbn.
  eapply quietRel_finishStep; [apply HI|done..].
Qed.

Lemma fin_disconnectSocket a w : Inv w -> fin (disconnectSocket a) w.
Proof.
  intros HI. destruct (wrappers w !! a) as [wr|] eqn:Ha.
  - destruct (disconnectSocket_steady a w (ex_intro _ wr Ha)) as (w' & E & Hq & Hs & _).
    by eapply fin_quiet.
  - apply fin_pure; [done|]. unfold disconnectSocket, bind, getWrapper. by rewrite Ha.
Qed.



(** An exit code that a child reports. *)
Lemma fin_emitFinished a code w :
  Inv w -> registered w a -> 0 <= code -> fin (emitFinished a code) w.
Proof.
  intros HI Hr Hcode. pose proof Hr as Hr'.
  apply registered_lookup in Hr' as (i & item & Hi & <-).
  destruct (registryOk_entry _ _ _ (inv_registry _ HI) Hi) as (wr & Hwr & _).
  destruct (emitFinished_finishStep w _ wr code HI Hwr Hr) as (w' & E & Hf & _).
  - right. by right.
  - right. unfold KILLED, DISCONNECTED. lia.
  - unfold fin. by rewrite E.
Qed.
(** ** The operations that start nothing *)
















(** ** The read loop of a wrapper *)

Lemma sendJSONCommand_processes sock method uuid params w :
  processes (sendJSONCommand sock method uuid params w).2 = processes w.
Proof.
  unfold sendJSONCommand. destruct sock as [s|]; [|done].
  unfold bind, getSocket. destruct (sockets w !! s) as [sk|]; [|done].
  by destruct (s_open sk).
Qed.

Lemma fin_sendExit a w : Inv w -> fin (sendExit a) w.
Proof.
  intros HI. unfold sendExit.
  apply fin_bind; [done|by apply fin_disconnectSocket|]. intros _ w1 _ HI1.
  apply fin_bind; [done|by apply fin_getWrapper|]. intros wr w2 _ HI2.
  by apply fin_sendJSONCommand.
Qed.

Lemma sendExit_processes a w : processes (sendExit a w).2 = processes w.
Proof.
  unfold sendExit.
  destruct (wrappers w !! a) as [wr|] eqn:Ha.
  - destruct (disconnectSocket_steady a w (ex_intro _ wr Ha)) as (w1 & E & Hq & _ & Hw).
    rewrite (bind_Ret _ _ _ _ _ E). rewrite <- Hw in Ha.
    rewrite (bind_Ret _ _ _ _ _ (getWrapper_Some _ _ _ Ha)).
    rewrite sendJSONCommand_processes. by eapply quietRel_processes.
  - unfold bind, disconnectSocket, bind, getWrapper. by rewrite Ha.
Qed.

Lemma fin_emitStdio a (event : string -> Event) item w :
  Inv w -> (forall u, isFinished (event u) = false) ->
  fin (emitStdio a event item) w.
Proof.
  intros HI He. unfold emitStdio.
  apply fin_bind; [done|by apply fin_getWrapper|]. intros wr w1 _ HI1.
  apply fin_bind; [done|by apply fin_record|]. intros _ w2 _ HI2.
  apply fin_forEach; [|done]. intros c w3 HI3. by apply fin_onConsole.
Qed.

Lemma liftRes_Ret {A} (r : res A) w a w1 :
  liftRes r w = (Ret a, w1) -> r = Ret a /\ w1 = w.
Proof. by intros [= -> ->]. Qed.

Lemma fin_handleLine a line w :
  Inv w -> registered w a -> lineOk line = true -> fin (handleLine a line) w.
Proof.
  intros HI Hr Hok. destruct line as [|e|method u params]; cbn [handleLine].
  { by apply fin_raise. }
  { by apply fin_raise. }
  cbn [lineOk] in Hok.
  destruct (pyEqStr method METHOD_EPILOGUE_EXIT_CODE).
  { apply fin_bind; [done|by apply fin_sendExit|]. intros [] w1 Hse HI1.
    assert (Hr1 : registered w1 a).
    { unfold registered. pose proof (sendExit_processes a w) as Hp.
      rewrite Hse in Hp. cbn in Hp. by rewrite Hp. }
    apply fin_bind; [done|by apply fin_liftRes|]. intros v w2 Hv _.
    apply liftRes_Ret in Hv as [Hv ->]. rewrite Hv in Hok.
    apply fin_bind; [done|by apply fin_liftRes|]. intros code w2 Hc _.
    apply liftRes_Ret in Hc as [Hc ->]. rewrite Hc in Hok.
    apply bool_decide_eq_true_1 in Hok.
    apply fin_bind; [done|by apply fin_emitFinished|]. intros _ w2 _ HI2.
    by apply fin_ret. }
  destruct (pyEqStr method METHOD_STDOUT).
  { apply fin_bind; [done|by apply fin_liftRes|]. intros v w1 _ HI1.
    apply fin_bind; [done|by apply fin_liftRes|]. intros text w2 _ HI2.
    apply fin_bind; [done|by apply fin_emitStdio|]. intros _ w3 _ HI3.
    by apply fin_ret. }
  destruct (pyEqStr method METHOD_STDERR).
  { apply fin_bind; [done|by apply fin_liftRes|]. intros v w1 _ HI1.
    apply fin_bind; [done|by apply fin_liftRes|]. intros text w2 _ HI2.
    apply fin_bind; [done|by apply fin_emitStdio|]. intros _ w3 _ HI3.
    by apply fin_ret. }
  destruct (pyEqStr method METHOD_STDIN); [|by apply fin_ret].
  apply fin_bind; [done|by apply fin_liftRes|]. intros vp w1 _ HI1.
  apply fin_bind; [done|by apply fin_liftRes|]. intros ve w2 _ HI2.
  apply fin_bind; [done|by apply fin_liftRes|]. intros prompt w3 _ HI3.
  apply fin_bind; [done|by apply fin_liftRes|]. intros echo w4 _ HI4.
  apply fin_bind; [done|by apply fin_emitStdio|]. intros _ w5 _ HI5.
  by apply fin_ret.
Qed.




(** ** The operations that start something *)

Lemma itemUuid_names w item :
  itemUuid w item = (procuuid <$> wrappers w) !! procWrapper item.
Proof. unfold itemUuid. by rewrite list_lookup_fmap. Qed.

Lemma getProcessIndex_names w w' uuid :
  procuuid <$> wrappers w' = procuuid <$> wrappers w ->
  processes w' = processes w ->
  getProcessIndex w' uuid = getProcessIndex w uuid.
Proof.
  intros Hs Hp. unfold getProcessIndex. rewrite Hp. f_equal.
  apply list_find_ext. intros item. by rewrite !itemUuid_names, Hs.
Qed.
















(** ** Every run of the event loop *)





(** *** Sample runs of the event loop *)


Example sampleRun_finished :
  finishedOf "c1" (trace (exec sampleRun (freshManager REUSE))) = [3].
Proof. by vm_compute. Qed.


(** Why the handshake is assumed to come once. [setSocket] takes any
    socket at any time, and the store never frees a wrapper: when a child
    identifies itself on two connections the wrapper stays connected to
    the first socket, which can call it after its entry has left the
    registry. *)
Example second_handshake_second_event :
  admissibleRun [OpRun (sampleLaunch "c1" true (0 # 1));
                 OpNewConnection [hello "c1"];
                 OpNewConnection [hello "c1"]] (freshManager REUSE) = false
  /\ finishedOf "c1"
       (trace (exec [OpRun (sampleLaunch "c1" true (0 # 1));
                     OpNewConnection [hello "c1"];
                     OpNewConnection [hello "c1"];
                     OpKill "c1";
                     OpDisconnected 0] (freshManager REUSE)))
     = [KILLED; DISCONNECTED].
Proof. by vm_compute. Qed.

(** ** The trace only grows *)

Lemma keeps_at {A} (m : M A) w : keeps m -> trace w `prefix_of` trace (m w).2.
Proof. intros H. apply H. Qed.

Lemma keeps_ret {A} (a : A) : keeps (ret a).
Proof. by intros w. Qed.

Lemma keeps_raise {A} e : keeps (raise (A:=A) e).
Proof. by intros w. Qed.

Lemma keeps_liftRes {A} (r : res A) : keeps (liftRes r).
Proof. by intros w. Qed.

Lemma keeps_getWrapper a : keeps (getWrapper a).
Proof. intros w. unfold getWrapper. by destruct (_ !! _). Qed.

Lemma keeps_getSocket s : keeps (getSocket s).
Proof. intros w. unfold getSocket. by destruct (_ !! _). Qed.

Lemma keeps_getItem i : keeps (getItem i).
Proof. intros w. unfold getItem. by destruct (_ !! _). Qed.

Lemma keeps_getPrologue i : keeps (getPrologue i).
Proof. intros w. unfold getPrologue. by destruct (_ !! _). Qed.

Lemma keeps_modify f : (forall w, trace (f w) = trace w) -> keeps (modify f).
Proof. intros H w. cbn. by rewrite H. Qed.

Lemma keeps_putWrapper a wr : keeps (putWrapper a wr).
Proof. by apply keeps_modify. Qed.

Lemma keeps_putSocket s sk : keeps (putSocket s sk).
Proof. by apply keeps_modify. Qed.

Lemma keeps_record e : keeps (record e).
Proof. intros w. cbn. by apply prefix_app_r. Qed.

Lemma keeps_onConsole c f : keeps (onConsole c f).
Proof. intros w. unfold onConsole. by destruct (_ !! _). Qed.

Lemma keeps_delItem i : keeps (delItem i).
Proof. intros w. unfold delItem. by case_bool_decide. Qed.

Lemma keeps_delPrologue i : keeps (delPrologue i).
Proof. intros w. unfold delPrologue. by case_bool_decide. Qed.

Lemma keeps_killProcess pid : keeps (killProcess pid).
Proof. intros w. unfold killProcess. by case_bool_decide. Qed.

Lemma keeps_bind {A B} (m : M A) (k : A -> M B) :
  keeps m -> (forall a, keeps (k a)) -> keeps (bind m k).
Proof.
  intros Hm Hk w. unfold bind. specialize (Hm w).
  destruct (m w) as [[a|e] w1]; cbn in *; [|done].
  etrans; [done|]. apply Hk.
Qed.

Lemma keeps_tryExcept {A} (m : M A) catches (h : exn -> M A) :
  keeps m -> (forall e, keeps (h e)) -> keeps (tryExcept m catches h).
Proof.
  intros Hm Hh w. unfold tryExcept. specialize (Hm w).
  destruct (m w) as [[a|e] w1]; cbn in *; [done|].
  destruct (catches e); [|done]. etrans; [done|]. apply Hh.
Qed.

Lemma keeps_forEach {A} (l : list A) (f : A -> M unit) :
  (forall x, keeps (f x)) -> keeps (forEach l f).
Proof.
  intros Hf. induction l as [|x l IH]; cbn [forEach]; [apply keeps_ret|].
  apply keeps_bind; [apply Hf|]. by intros _.
Qed.

Create HintDb keeps.
#[export] Hint Resolve keeps_ret keeps_raise keeps_liftRes keeps_getWrapper
  keeps_getSocket keeps_getItem keeps_getPrologue keeps_putWrapper keeps_putSocket
  keeps_record keeps_onConsole keeps_delItem keeps_delPrologue keeps_killProcess
  : keeps.

(** The transformers built from the ones above. *)
Ltac keeps :=
  repeat first
    [ progress intros
    | solve [auto with keeps]
    | apply keeps_bind
    | apply keeps_tryExcept
    | apply keeps_forEach
    | match goal with
      | |- keeps (match ?x with _ => _ end) => destruct x
      | |- keeps (if ?b then _ else _) => destruct b
      end ].

Lemma keeps_sendJSONCommand sock method uuid params :
  keeps (sendJSONCommand sock method uuid params).
Proof. unfold sendJSONCommand. keeps. Qed.

Lemma keeps_socketClose s : keeps (socketClose s).
Proof. unfold socketClose. keeps. Qed.

Lemma keeps_connectSocket a : keeps (connectSocket a).
Proof. unfold connectSocket. keeps. Qed.

Lemma keeps_disconnectSocket a : keeps (disconnectSocket a).
Proof. unfold disconnectSocket. keeps. Qed.

#[export] Hint Resolve keeps_sendJSONCommand keeps_socketClose keeps_connectSocket
  keeps_disconnectSocket : keeps.

Lemma keeps_closeSocket a : keeps (closeSocket a).
Proof. unfold closeSocket. keeps. Qed.
#[export] Hint Resolve keeps_closeSocket : keeps.

Lemma keeps_wait a : keeps (wait a).
Proof. unfold wait. keeps. Qed.

Lemma keeps_waitDetached a : keeps (waitDetached a).
Proof. unfold waitDetached. keeps. Qed.

Lemma keeps_getChildPID a : keeps (getChildPID a).
Proof. unfold getChildPID. keeps. by intros w. Qed.
#[export] Hint Resolve keeps_wait keeps_waitDetached keeps_getChildPID : keeps.

Lemma keeps_killChildren rounds : forall a pid, keeps (killChildren rounds a pid).
Proof.
  induction rounds as [|rounds IH]; intros a pid; cbn [killChildren]; keeps.
  all: try (case_bool_decide; keeps).
Qed.
#[export] Hint Resolve keeps_killChildren : keeps.

Lemma keeps_kill a : keeps (__kill a).
Proof. unfold __kill. keeps. intros w. apply keeps_at. keeps. Qed.
#[export] Hint Resolve keeps_kill : keeps.

Lemma keeps_onProcessFinished uuid code : keeps (onProcessFinished uuid code).
Proof.
  intros w. unfold onProcessFinished. destruct (getProcessIndex w uuid); [|done].
  apply keeps_at. unfold scriptFinished, appendIDEMessage, appendItem. keeps.
  all: repeat case_bool_decide; keeps.
Qed.
#[export] Hint Resolve keeps_onProcessFinished : keeps.

Lemma keeps_emitFinished a code : keeps (emitFinished a code).
Proof. unfold emitFinished. keeps. Qed.
#[export] Hint Resolve keeps_emitFinished : keeps.

Lemma keeps_start a r : keeps (start a r).
Proof. unfold start. keeps. Qed.

Lemma keeps_stop a : keeps (stop a).
Proof. unfold stop. keeps. Qed.

Lemma keeps_disconnected a : keeps (disconnected a).
Proof. unfold disconnected. keeps. Qed.

Lemma keeps_sendStart a : keeps (sendStart a).
Proof. unfold sendStart. keeps. Qed.

Lemma keeps_sendExit a : keeps (sendExit a).
Proof. unfold sendExit. keeps. Qed.

Lemma keeps_emitStdio a event item : keeps (emitStdio a event item).
Proof. unfold emitStdio, appendItem. keeps. Qed.
#[export] Hint Resolve keeps_start keeps_stop keeps_disconnected keeps_sendStart
  keeps_sendExit keeps_emitStdio : keeps.

Lemma keeps_handleLine a line : keeps (handleLine a line).
Proof.
  unfold handleLine, processEvents. destruct line as [| |method u params]; keeps.
Qed.
#[export] Hint Resolve keeps_handleLine : keeps.

Lemma keeps_parseLoop rounds a : keeps (parseLoop rounds a).
Proof.
  induction rounds as [|rounds IH]; cbn [parseLoop]; keeps.
Qed.
#[export] Hint Resolve keeps_parseLoop : keeps.

Lemma keeps_parseClientLine a : keeps (parseClientLine a).
Proof. unfold parseClientLine. keeps. Qed.
#[export] Hint Resolve keeps_parseClientLine : keeps.

Lemma keeps_setSocket a s : keeps (setSocket a s).
Proof. unfold setSocket. keeps. Qed.

Lemma keeps_userInput a text : keeps (userInput a text).
Proof. unfold userInput. keeps. Qed.

Lemma keeps_safeSocketClose s : keeps (safeSocketClose s).
Proof. unfold safeSocketClose. keeps. Qed.
#[export] Hint Resolve keeps_setSocket keeps_userInput keeps_safeSocketClose : keeps.

Lemma keeps_onProcessStarted uuid : keeps (onProcessStarted uuid).
Proof.
  intros w. unfold onProcessStarted. destruct (getProcessIndexPy w uuid); [|done].
  apply keeps_at. unfold appendIDEMessage, appendItem. keeps.
Qed.
#[export] Hint Resolve keeps_onProcessStarted : keeps.

Lemma keeps_waitForHandshake s : keeps (waitForHandshake s).
Proof.
  unfold waitForHandshake. keeps.
  all: try (destruct (negb _); keeps).
  all: intros w; destruct (getProcessIndexPy w _); [|done]; apply keeps_at; keeps.
Qed.

Lemma keeps_pickWidget uuid k : keeps (pickWidget uuid k).
Proof.
  intros w. unfold pickWidget, newConsole, clear.
  case_bool_decide; [done|]. destruct (idleConsole w k); [|done].
  apply keeps_at. keeps.
Qed.
#[export] Hint Resolve keeps_waitForHandshake keeps_pickWidget : keeps.

Lemma keeps_delLastItem : keeps delLastItem.
Proof.
  intros w. unfold delLastItem. destruct (processes w); [done|].
  apply keeps_at. keeps.
Qed.
#[export] Hint Resolve keeps_delLastItem : keeps.








(** ** killAll, once and for all *)



Example killAll_sample :
  let w := exec beforeKillAll (freshManager REUSE) in
  let w' := step (OpKillAll 0) w in
  (procuuid <$> wrappers w) = ["c1"; "d1"]
  /\ length (processes w) = 2%nat
  /\ length (processes w') = 1%nat
  /\ admissibleRun afterKillAll w' = true
  /\ finishedOf "c1" (trace (exec afterKillAll w')) = [KILLED]
  /\ finishedOf "d1" (trace (exec afterKillAll w')) = [].
Proof. by vm_compute. Qed.
(** ** The rounds granted to the loops are enough *)

(** The [while] loops of [__parseClientLine] and [__kill] are modelled
    with a number of rounds. More rounds than the model grants change
    nothing: the loop has come to its end by then. *)

Lemma bind_ext_at {A B} (m : M A) (k1 k2 : A -> M B) w :
  (forall a w1, m w = (Ret a, w1) -> k1 a w1 = k2 a w1) ->
  bind m k1 w = bind m k2 w.
Proof. unfold bind. intros H. destruct (m w) as [[a|e] w1]; [by apply H|done]. Qed.

Lemma fin_lineStep a line w :
  Inv w -> registered w a -> lineOk line = true ->
  fin (match line with
       | Undecodable => raise UnicodeDecodeError
       | _ => tryExcept (handleLine a line) isTypeOrValueError
                (fun _ => record (LogError parseFailure))
       end) w.
Proof.
  intros HI Hr Hline.
  destruct line as [|e|method u params]; [by apply fin_raise|..].
  - apply fin_tryExcept; [done|by apply fin_raise|].
    intros e0 w1 _ _ HI2. by apply fin_record.
  - apply fin_tryExcept; [done|by apply fin_handleLine|].
    intros e0 w1 _ _ HI2. by apply fin_record.
Qed.

Lemma parseLoop_enough n : forall a w k,
  Inv w -> is_Some (wrappers w !! a) -> (unread w a <= n)%nat ->
  parseLoop (n + k) a w = parseLoop n a w.
Proof.
  induction n as [|n IH]; intros a w k HI [wr Ha] Hle.
  all: unfold unread in Hle; rewrite Ha in Hle.
  - destruct k as [|k]; [done|]. cbn [Nat.add parseLoop].
    rewrite (bind_getWrapper _ _ _ _ Ha).
    destruct (clientSocket wr) as [s|] eqn:Hcs; [|done].
    destruct (inv_socket _ HI a wr s Ha Hcs) as [sk Hsk]. rewrite Hsk in Hle.
    rewrite (bind_getSocket _ _ _ _ Hsk).
    destruct (s_inbox sk); [done|cbn in Hle; lia].
  - cbn [Nat.add parseLoop]. rewrite !(bind_getWrapper _ _ _ _ Ha).
    destruct (clientSocket wr) as [s|] eqn:Hcs; [|done].
    destruct (inv_attached _ HI a wr s Ha Hcs) as (Hr & _).
    destruct (inv_socket _ HI a wr s Ha Hcs) as [sk Hsk]. rewrite Hsk in Hle.
    rewrite !(bind_getSocket _ _ _ _ Hsk).
    destruct (s_inbox sk) as [|line rest] eqn:Hin; [done|].
    pose proof (inv_inbox _ HI s sk Hsk) as Hlines. rewrite Hin in Hlines.
    cbn in Hlines. apply andb_prop in Hlines as [Hline _].
    rewrite !bind_putSocket.
    set (w1 := setSockets (<[s:=withInbox rest sk]> (sockets w)) w).
    assert (HI1 : Inv w1).
    { apply (fin_Inv (putSocket s (withInbox rest sk)) w HI).
      eapply fin_putSocket; [done..|]. destruct sk; cbn in *. subst.
      split; [done|]. split; [done|]. split; [done|]. by apply sublist_cons. }
    apply bind_ext_at. intros [] w' Hstep.
    pose proof (fin_lineStep a line w1 HI1 Hr Hline) as Hf.
    unfold fin in Hf. rewrite Hstep in Hf. cbn in Hf.
    pose proof (Inv_finishStep _ _ HI1 Hf) as HI'.
    destruct Hf as ((L & (Lk & Sk) & W) & _).
    destruct (W a wr Ha) as (wr' & Ha' & _ & Hs').
    apply IH; [done|by eexists|].
    unfold unread. rewrite Ha'.
    destruct Hs' as [Hs'|[Hs' _]]; rewrite Hs'; [|lia]. rewrite Hcs.
    destruct (sockets w' !! s) as [sk'|] eqn:Hsk'; [|lia].
    assert (Hsk1 : sockets w1 !! s = Some (withInbox rest sk)).
    { cbn. by rewrite list_lookup_insert_eq by (by eapply lookup_lt_Some). }
    destruct (Sk s _ sk' Hsk1 Hsk') as (_ & _ & _ & Hsub).
    apply sublist_length in Hsub. destruct sk; cbn in *. lia.
Qed.

(** [__parseClientLine] reads on until no line waits. *)
Lemma parseClientLine_enough a w k wr s sk :
  Inv w -> wrappers w !! a = Some wr -> clientSocket wr = Some s ->
  sockets w !! s = Some sk ->
  parseLoop (length (s_inbox sk) + k) a w = parseClientLine a w.
Proof.
  intros HI Ha Hcs Hsk. unfold parseClientLine.
  rewrite (bind_getWrapper _ _ _ _ Ha), Hcs, (bind_getSocket _ _ _ _ Hsk).
  apply parseLoop_enough; [done|by eexists|].
  unfold unread. by rewrite Ha, Hcs, Hsk.
Qed.

Lemma scanProc_Some port uuid table pid :
  scanProc port uuid table = Some pid ->
  exists item, item ∈ table /\ os_pid item = pid.
Proof.
  induction table as [|item table IH]; cbn; [done|].
  destruct (os_cmdline item) as [content|].
  - destruct (isChildCmdline port uuid content).
    + intros [= <-]. exists item. split; [by left|done].
    + intros H. destruct (IH H) as (it & Hin & Hp). exists it. split; [by right|done].
  - intros H. destruct (IH H) as (it & Hin & Hp). exists it. split; [by right|done].
Qed.

Lemma filter_shorter {A} (P : A -> Prop) `{forall x, Decision (P x)} (l : list A) x :
  x ∈ l -> ~ P x -> (length (filter P l) < length l)%nat.
Proof.
  induction l as [|y l IH]; intros Hin Hx; [by apply elem_of_nil in Hin|].
  rewrite filter_cons. apply elem_of_cons in Hin as [->|Hin].
  - rewrite decide_False by done. cbn. pose proof (length_filter P l). lia.
  - specialize (IH Hin Hx). destruct (decide (P y)); cbn; lia.
Qed.

Lemma killChildren_enough n : forall a pid w k wr port,
  wrappers w !! a = Some wr -> serverPort wr = Some port ->
  scanProc port (procuuid wr) (ostable w) = Some pid ->
  (length (ostable w) < n)%nat ->
  killChildren (n + k) a pid w = killChildren n a pid w.
Proof.
  induction n as [|n IH]; intros a pid w k wr port Ha Hport Hscan Hlen; [lia|].
  cbn [Nat.add killChildren].
  apply bind_ext_at. intros [] w1 Hkill.
  assert (Hw1 : wrappers w1 = wrappers w /\
                (ostable w1 = ostable w \/ (length (ostable w1) < length (ostable w))%nat)).
  { unfold tryExcept, killProcess in Hkill. case_bool_decide as Hex.
    - injection Hkill as <-. split; [done|]. right. cbn.
      destruct (scanProc_Some _ _ _ _ Hscan) as (item & Hin & Hp).
      apply (filter_shorter _ _ item); [done|]. by intros Hne.
    - cbn in Hkill. injection Hkill as <-. split; [done|]. by left. }
  destruct Hw1 as [Hw1 Hos].
  cbv beta. unfold getChildPID. rewrite <- Hw1 in Ha.
  rewrite !bind_bind, !(bind_getWrapper _ _ _ _ Ha), Hport.
  unfold bind.
  destruct (scanProc port (procuuid wr) (ostable w1)) as [next|] eqn:Hnext; [|done].
  case_bool_decide as Hsame; [done|].
  destruct Hos as [Hos|Hos].
  - rewrite Hos, Hscan in Hnext. congruence.
  - eapply IH; [done..|lia].
Qed.

(** [__kill] grants its loop one round more than the process table has
    entries. *)
Lemma kill_rounds_enough a w k wr port pid :
  wrappers w !! a = Some wr -> serverPort wr = Some port ->
  getChildPID a w = (Ret (Some pid), w) ->
  killChildren (S (length (ostable w)) + k) a pid w
  = killChildren (S (length (ostable w))) a pid w.
Proof.
  intros Ha Hport Hpid. unfold getChildPID in Hpid.
  rewrite (bind_getWrapper _ _ _ _ Ha), Hport in Hpid. injection Hpid as Hpid.
  eapply killChildren_enough; [done..|lia].
Qed.
(** ** A console that is reused while in use *)

(** C9, on the input where the code departs from it. [__pickWidget]
    tells an idle console by the id that the console was made for, and
    nothing in the module gives a reused console the id of its new
    launch. So a console passes the test for as long as the id it was
    made for stays out of the registry: in the modes [REUSE] and
    [CLEAR_AND_REUSE] the pick returns it, cleared in [CLEAR_AND_REUSE],
    also when a tracked entry holds it. The pick leaves the registry and
    the ids of the consoles as they are, so that the entry keeps the
    console and the next pick returns the same console again. *)
Theorem pickWidget_reassigns_console_in_use
    (w : World) (uuid : string) (k : Kind) (c i : nat) (item : RemoteProcess) :
  ioconsolereuse w <> NO_REUSE ->
  idleConsole w k = Some c ->
  processes w !! i = Some item ->
  widget item = Some c ->
  exists cs w',
    pickWidget uuid k w = (Ret c, w')
    /\ consoles w !! c = Some cs
    /\ consoles w'
       = (if bool_decide (ioconsolereuse w = CLEAR_AND_REUSE)
          then <[c := withContent [] cs]> (consoles w)
          else consoles w)
    /\ processes w' !! i = Some item
    /\ (c_procuuid <$> consoles w') = (c_procuuid <$> consoles w)
    /\ idleConsole w' k = Some c.
Proof.
  intros Hmode Hidle Hi Hwdg. pose proof Hidle as Hidle'.
  apply idleConsole_Some in Hidle' as (cs & Hcs & Hk & Hnone & Hmin).
  assert (Hrun : exists w',
    pickWidget uuid k w = (Ret c, w')
    /\ consoles w'
       = (if bool_decide (ioconsolereuse w = CLEAR_AND_REUSE)
          then <[c := withContent [] cs]> (consoles w)
          else consoles w)
    /\ processes w' = processes w /\ wrappers w' = wrappers w).
  { unfold pickWidget. rewrite bool_decide_eq_false_2 by done. rewrite Hidle.
    destruct (bool_decide (ioconsolereuse w = CLEAR_AND_REUSE)).
    - eexists. split.
      { unfold bind, record, modify, clear, onConsole, ret. cbn.
        rewrite Hcs. reflexivity. }
      done.
    - eexists. split; [reflexivity|done]. }
  destruct Hrun as (w' & Hrun & Hcons & Hp & Hw).
  exists cs, w'. split; [done|]. split; [done|]. split; [done|].
  assert (Hids : forall c' cs', consoles w' !! c' = Some cs' ->
            exists cs0, consoles w !! c' = Some cs0
              /\ c_procuuid cs' = c_procuuid cs0 /\ c_kind cs' = c_kind cs0).
  { intros c' cs' Hc'. rewrite Hcons in Hc'. case_bool_decide; [|by exists cs'].
    destruct (decide (c' = c)) as [->|Hne].
    - rewrite list_lookup_insert_eq in Hc' by (by eapply lookup_lt_Some).
      injection Hc' as <-. exists cs. by destruct cs.
    - rewrite list_lookup_insert_ne in Hc' by done. by exists cs'. }
  assert (Hidx : forall u, getProcessIndex w' u = getProcessIndex w u).
  { intros u. apply getProcessIndex_names; [by rewrite Hw|done]. }
  split; [by rewrite Hp|]. split.
  - rewrite Hcons. case_bool_decide; [|done].
    rewrite list_fmap_insert. apply list_insert_id.
    rewrite list_lookup_fmap, Hcs. by destruct cs.
  - apply idleConsole_Some.
    assert (Hc' : exists cs', consoles w' !! c = Some cs'
              /\ c_procuuid cs' = c_procuuid cs /\ c_kind cs' = c_kind cs).
    { rewrite Hcons. case_bool_decide; [|by exists cs].
      rewrite list_lookup_insert_eq by (by eapply lookup_lt_Some).
      eexists. split; [done|]. by destruct cs. }
    destruct Hc' as (cs' & Hcs' & Hu & Hkk).
    exists cs'. split; [done|]. split; [congruence|].
    split; [by rewrite Hidx, Hu|].
    intros c' cs1 Hc1 Hlt.
    destruct (Hids c' cs1 Hc1) as (cs2 & Hc2 & Hu2 & Hk2).
    rewrite Hidx, Hu2, Hk2. by apply (Hmin c' cs2).
Qed.

Lemma pickWidget_reassigns_console_in_use_witness :
  exists cs w',
    pickWidget "c1" RUN (exec reuseRun (freshManager REUSE)) = (Ret 0%nat, w')
    /\ consoles (exec reuseRun (freshManager REUSE)) !! 0%nat = Some cs
    /\ consoles w'
       = (if bool_decide (ioconsolereuse (exec reuseRun (freshManager REUSE))
                          = CLEAR_AND_REUSE)
          then <[0%nat := withContent [] cs]>
                 (consoles (exec reuseRun (freshManager REUSE)))
          else consoles (exec reuseRun (freshManager REUSE)))
    /\ processes w' !! 0%nat = Some (mkRemoteProcess 1 (Some 0%nat) (Some RUN))
    /\ (c_procuuid <$> consoles w')
       = (c_procuuid <$> consoles (exec reuseRun (freshManager REUSE)))
    /\ idleConsole w' RUN = Some 0%nat.
Proof.
  apply (pickWidget_reassigns_console_in_use
           (exec reuseRun (freshManager REUSE)) "c1" RUN 0 0
           (mkRemoteProcess 1 (Some 0%nat) (Some RUN))).
  - by vm_compute.
  - by vm_compute.
  - by vm_compute.
  - done.
Defined.

(** The run: the one console, made for [a1], serves the launch [b1],
    which is tracked, and the launch [c1] gets the same console. *)
Example reuseRun_shares_console :
  let w := exec reuseRun (freshManager REUSE) in
  let w' := step (OpRun (sampleLaunch "c1" true (2 # 1))) w in
  admissibleRun (reuseRun ++ [OpRun (sampleLaunch "c1" true (2 # 1))])
    (freshManager REUSE) = true
  /\ (c_procuuid <$> consoles w) = ["a1"]
  /\ processes w = [mkRemoteProcess 1 (Some 0%nat) (Some RUN)]
  /\ (procuuid <$> wrappers w) !! 1%nat = Some "b1"
  /\ processes w' = [mkRemoteProcess 1 (Some 0%nat) (Some RUN);
                     mkRemoteProcess 2 (Some 0%nat) (Some RUN)]
  /\ length (consoles w') = 1%nat.
Proof. by vm_compute. Qed.
